(** * ASCII video converter: a shallow embedding of [ascii_video.py]

    The development follows the source file top-down: the glyph ramp and
    the brightness-to-glyph mapping ([get_char_for_gray]), the luminance
    sampler ([frame_to_ascii_lines]), the raster renderer
    ([render_ascii_to_image]), the audio remux helper ([merge_audio]) and
    the pipeline ([convert_video]).

    Numbers.  Python [int] is [Z].  A Python [float] is the rational it
    denotes, in [Q]; every float operation computes the exact result and
    rounds it with [fl], the rounding of the platform (class [Rounding]:
    round-to-nearest in 53 bits, exponent range not modelled).  Nothing
    about [fl] is used beyond the three laws of the class.  [int(x)]
    truncates toward zero.  Module [Binary64] re-runs the glyph index with
    the IEEE binary64 operations of [SpecFloat].

    Library calls (OpenCV, Pillow, the file system, the message boxes) are
    not re-implemented: what they return is supplied by the environment
    [Env], what the program asks of them is recorded in the pipeline
    [State]. *)

From Stdlib Require Import ZArith QArith Qround Qabs List String Ascii Bool Lia Lqa.
From Stdlib.Strings Require Import Byte.
From Stdlib.Floats Require Import SpecFloat.
Import ListNotations.

Local Open Scope string_scope.
Local Open Scope Z_scope.

(** ** Python values and exceptions *)

Inductive exn : Type :=
| IndexError
| ZeroDivisionError
| ValueError
| Cv2Error
| OSError
| UnicodeDecodeError
| KeyboardInterrupt.

Inductive result (A : Type) : Type :=
| Ok (a : A)
| Raise (e : exn).
Arguments Ok {A} a.
Arguments Raise {A} e.

Definition rbind {A B} (r : result A) (k : A -> result B) : result B :=
  match r with
  | Ok a => k a
  | Raise e => Raise e
  end.

Notation "x <~ r ;; k" := (rbind r (fun x => k))
  (at level 61, r at next level, right associativity).

(** A comprehension [[f(x) for x in xs]]: the first exception aborts it. *)
Fixpoint comprehension {A B} (f : A -> result B) (xs : list A) : result (list B) :=
  match xs with
  | [] => Ok []
  | x :: xs' =>
      y <~ f x ;;
      ys <~ comprehension f xs' ;;
      Ok (y :: ys)
  end.

(** [range(n)], empty when [n <= 0]. *)
Definition range (n : Z) : list Z :=
  map Z.of_nat (seq 0 (Z.to_nat n)).

(** [len(s)] *)
Definition len (s : string) : Z := Z.of_nat (String.length s).

(** [s[i]] on a string: a negative index counts from the end. *)
Definition getitem (s : string) (i : Z) : result ascii :=
  let j := if i <? 0 then i + len s else i in
  if (0 <=? j) && (j <? len s) then
    match String.get (Z.to_nat j) s with
    | Some c => Ok c
    | None => Raise IndexError
    end
  else Raise IndexError.

(** ["".join(cs)] *)
Definition join (cs : list ascii) : string := string_of_list_ascii cs.

(** ** Floats *)

(** The unit roundoff of binary64. *)
Definition unit_roundoff : Q := 1 # (2 ^ 53).

(** Rounding a real result to a float: monotone, exact on the integers a
    53-bit significand holds, and within one unit roundoff of its
    argument. *)
Class Rounding : Type := {
  fl : Q -> Q;
  fl_monotone : forall x y : Q, (x <= y)%Q -> (fl x <= fl y)%Q;
  fl_integer : forall z : Z, Z.abs z <= 2 ^ 53 -> (fl (inject_Z z) == inject_Z z)%Q;
  fl_error : forall x : Q, (Qabs (fl x - x) <= Qabs x * unit_roundoff)%Q
}.

(** Arithmetic without rounding error is one such rounding. *)
#[export] Instance exact_arithmetic : Rounding.
Proof.
  refine {| fl := fun x => x |}.
  - intros x y H; exact H.
  - intros z _; reflexivity.
  - intros x.
    setoid_replace (x - x)%Q with 0%Q by ring.
    apply Qmult_le_0_compat; [apply Qabs_nonneg | discriminate].
Defined.

(** [int(x)] for a float [x]: truncation toward zero. *)
Definition py_int (x : Q) : Z := Z.quot (Qnum x) (Zpos (Qden x)).

(** [x > 0] on a float. *)
Definition gt0 (x : Q) : bool := negb (Qle_bool x 0).

(** [min(a, b)] on floats. *)
Definition fmin (a b : Q) : Q := if Qle_bool a b then a else b.

Section Floats.

Context {R : Rounding}.

(** [float(z)], the conversion every mixed int/float operation starts with. *)
Definition float (z : Z) : Q := fl (inject_Z z).

Definition fmul (a b : Q) : Q := fl (a * b).

Definition fsub (a b : Q) : Q := fl (a - b).

(** [a / b] on floats. *)
Definition fdiv (a b : Q) : result Q :=
  if Qeq_bool b 0 then Raise ZeroDivisionError else Ok (fl (a / b)).

(** [a / b] on ints: the exact quotient, rounded once. *)
Definition truediv (a b : Z) : result Q :=
  if b =? 0 then Raise ZeroDivisionError else Ok (fl (inject_Z a / inject_Z b)).

(** [a / 255] for a numpy scalar [a]: both sides become float64. *)
Definition np_div (a b : Z) : Q := fl (float a / float b).

End Floats.

(** ** The glyph ramp and the glyph mapper *)

Definition ASCII_CHARS : string := ".:-=+*#%@/\|".

Section GlyphMapper.

Context {R : Rounding}.

(** [idx = int((val / 255) * (len(chars) - 1))] *)
Definition gray_index (val : Z) (chars : string) : Z :=
  py_int (fmul (np_div val 255) (float (len chars - 1))).

Definition get_char_for_gray (val : Z) (chars : string) : result ascii :=
  let idx := gray_index val chars in
  getitem chars idx.

(** The index as the specification words it, in exact arithmetic:
    floor(v / 255 * (K-1)), clamped to [0, K-1]. *)
Definition spec_glyph_index (v K : Z) : Z :=
  Z.max 0 (Z.min (K - 1) (Qfloor (inject_Z v / 255 * inject_Z (K - 1)))).

End GlyphMapper.

(** ** Arrays *)

(** A numpy array of pixels: [a.shape[:2]] and the element [a[r, c]].
    Grayscale frames hold one 8-bit sample per cell, colour frames a
    triple. *)
Record ndarray (P : Type) : Type := {
  shape : Z * Z;                 (* (h, w) *)
  sample : Z -> Z -> P           (* a[r, c] *)
}.
Arguments shape {P} _.
Arguments sample {P} _ _ _.

Definition Pixel : Type := byte * byte * byte.
Definition GrayFrame : Type := ndarray byte.
Definition ColorFrame : Type := ndarray Pixel.

Definition uint8 (b : byte) : Z := Z.of_N (Byte.to_N b).

(** The resampling kernel of [cv2.resize(..., interpolation=INTER_AREA)]:
    the value it computes for cell (r, c) of a grid of size [dsize]. *)
Definition Kernel : Type := forall P : Type, ndarray P -> Z * Z -> Z -> Z -> P.

(** [cv2.resize(src, (new_w, new_h), interpolation=cv2.INTER_AREA)]:
    rejects an empty source or destination, otherwise returns an array
    of shape (new_h, new_w). *)
Definition cv2_resize (inter_area : Kernel) {P} (src : ndarray P) (dsize : Z * Z)
  : result (ndarray P) :=
  let '(h, w) := shape src in
  let '(new_w, new_h) := dsize in
  if (h <=? 0) || (w <=? 0) || (new_w <=? 0) || (new_h <=? 0)
  then Raise Cv2Error
  else Ok {| shape := (new_h, new_w); sample := inter_area P src dsize |}.

(** ** The luminance sampler *)

(** The default aspect-correction factor, [scale=0.43]. *)
Definition default_scale {R : Rounding} : Q := fl (43 # 100).

Section Sampler.

Context {R : Rounding}.

Definition frame_to_ascii_lines (inter_area : Kernel)
           (frame_gray : GrayFrame) (cols : Z) (scale : Q) (chars : string)
  : result (list string) :=
  let '(h, w) := shape frame_gray in
  let new_w := cols in
  tile_w <~ truediv w new_w ;;
  tile_h <~ fdiv tile_w scale ;;
  q <~ fdiv (float h) tile_h ;;
  let new_h := Z.max 1 (py_int q) in
  small <~ cv2_resize inter_area frame_gray (new_w, new_h) ;;
  comprehension
    (fun r =>
       cs <~ comprehension
               (fun c => get_char_for_gray (uint8 (sample small r c)) chars)
               (range new_w) ;;
       Ok (join cs))
    (range new_h).

(** [new_h] as the sampler computes it when no division fails: each of
    the three quotients is rounded, and [int()] truncates the last. *)
Definition grid_rows (H W C : Z) (S : Q) : Z :=
  Z.max 1 (py_int (fl (float H / fl (fl (inject_Z W / inject_Z C) / S)))).

(** The row count as the specification words it, in exact arithmetic:
    max(1, floor(H / ((W / C) / S))). *)
Definition spec_rows (H W C : Z) (S : Q) : Z :=
  Z.max 1 (Qfloor (inject_Z H / ((inject_Z W / inject_Z C) / S))).

End Sampler.

(** ** The raster renderer *)

Definition Color : Type := Z * Z * Z.

(** A Pillow font, as far as the renderer looks at it:
    [draw.textbbox((0, 0), text, font=font)] = (left, top, right, bottom). *)
Record Font : Type := {
  textbbox : string -> Z * Z * Z * Z
}.

(** One [draw.text((x, y), text, font=font, fill=fill)] call. *)
Record DrawText : Type := {
  dt_xy : Z * Z;
  dt_text : string;
  dt_font : Font;
  dt_fill : Color
}.

(** A Pillow image: its size, its fill colour and the [draw.text] calls
    made on it, in order. *)
Record Image : Type := {
  im_size : Z * Z;               (* (width, height) *)
  im_color : Color;
  im_text : list DrawText
}.

(** [Image.new("RGB", size, color)]: a negative side is a [ValueError]. *)
Definition Image_new (size : Z * Z) (color : Color) : result Image :=
  let '(w, h) := size in
  if (w <? 0) || (h <? 0) then Raise ValueError
  else Ok {| im_size := size; im_color := color; im_text := [] |}.

(** [max(xs, default=d)] *)
Definition max_default (xs : list Z) (d : Z) : Z :=
  match xs with
  | [] => d
  | x :: xs' => fold_left Z.max xs' x
  end.

(** Glyph cell size: the measured box of "M", with the 8 x 16 fallback. *)
Definition char_w (font : Font) : Z :=
  let '(x0, y0, x1, y1) := textbbox font "M" in
  let char_w := x1 - x0 in
  if char_w <=? 0 then 8 else char_w.

Definition char_h (font : Font) : Z :=
  let '(x0, y0, x1, y1) := textbbox font "M" in
  let char_h := y1 - y0 in
  if char_h <=? 0 then 16 else char_h.

Definition max_cols (lines : list string) : Z := max_default (map len lines) 1.

Definition rows (lines : list string) : Z := Z.max 1 (Z.of_nat (List.length lines)).

(** [if n % 2 != 0: n += 1] *)
Definition make_even (n : Z) : Z :=
  if negb (n mod 2 =? 0) then n + 1 else n.

(** The loop [for line in lines: draw.text((padding, y), line, ...); y += char_h]. *)
Fixpoint draw_lines (lines : list string) (font : Font) (fg : Color)
         (padding y : Z) : list DrawText :=
  match lines with
  | [] => []
  | line :: rest =>
      {| dt_xy := (padding, y); dt_text := line; dt_font := font; dt_fill := fg |}
        :: draw_lines rest font fg padding (y + char_h font)
  end.

Definition render_ascii_to_image
           (lines : list string) (font : Font) (bg fg : Color) (padding : Z)
  : result Image :=
  let img_w := char_w font * max_cols lines + padding * 2 in
  let img_h := char_h font * rows lines + padding * 2 in
  let img_w := make_even img_w in
  let img_h := make_even img_h in
  img <~ Image_new (img_w, img_h) bg ;;
  let y := padding in
  Ok {| im_size := im_size img; im_color := im_color img;
        im_text := im_text img ++ draw_lines lines font fg padding y |}.

Definition black : Color := (0, 0, 0).
Definition white : Color := (255, 255, 255).
Definition default_padding : Z := 6.

(** ** Fitting a rendered frame to the writer's canvas *)

Definition zero_pixel : Pixel := (x00, x00, x00)%byte.

(** [np.zeros((h, w, 3), dtype=...)] *)
Definition np_zeros (h w : Z) : result ColorFrame :=
  if (h <? 0) || (w <? 0) then Raise ValueError
  else Ok {| shape := (h, w); sample := fun _ _ => zero_pixel |}.

(** A slice bound on an axis of length [n]: negative bounds count from
    the end, and every bound is clipped to the axis. *)
Definition slice_bound (i n : Z) : Z :=
  if i <? 0 then Z.max 0 (i + n) else Z.min i n.

(** [canvas[y0:y1, x0:x1] = src].  The block selected by the slices must
    have the shape of [src] (an axis of length 1 is broadcast). *)
Definition assign_block (canvas : ColorFrame) (y0 y1 x0 x1 : Z) (src : ColorFrame)
  : result ColorFrame :=
  let '(ch, cw) := shape canvas in
  let ys := slice_bound y0 ch in
  let ye := Z.max ys (slice_bound y1 ch) in
  let xs := slice_bound x0 cw in
  let xe := Z.max xs (slice_bound x1 cw) in
  let '(sh, sw) := shape src in
  if ((sh =? ye - ys) || (sh =? 1)) && ((sw =? xe - xs) || (sw =? 1)) then
    Ok {| shape := (ch, cw);
          sample := fun r c =>
            if (ys <=? r) && (r <? ye) && (xs <=? c) && (c <? xe)
            then sample src (if sh =? 1 then 0 else r - ys)
                            (if sw =? 1 then 0 else c - xs)
            else sample canvas r c |}
  else Raise ValueError.

Section Canvas.

Context {R : Rounding}.

(** [scale = min(out_w / img_w, out_h / img_h)], reset to 1.0 when not
    positive. *)
Definition fit_scale (img_w img_h out_w out_h : Z) : result Q :=
  sx <~ truediv out_w img_w ;;
  sy <~ truediv out_h img_h ;;
  let scale := fmin sx sy in
  Ok (if Qle_bool scale 0 then 1%Q else scale).

(** Lines 187-207 of [convert_video]: the frame handed to [writer.write]. *)
Definition fit_to_canvas (inter_area : Kernel)
           (img_bgr : ColorFrame) (out_w out_h : Z) : result ColorFrame :=
  let '(img_h, img_w) := shape img_bgr in
  if negb ((img_w =? out_w) && (img_h =? out_h)) then
    scale <~ fit_scale img_w img_h out_w out_h ;;
    let new_w := Z.max 1 (py_int (fmul (float img_w) scale)) in
    let new_h := Z.max 1 (py_int (fmul (float img_h) scale)) in
    frame_resized <~
      (if negb ((new_w =? img_w) && (new_h =? img_h))
       then cv2_resize inter_area img_bgr (new_w, new_h)
       else Ok img_bgr) ;;
    canvas <~ np_zeros out_h out_w ;;
    let x := (out_w - new_w) / 2 in
    let y := (out_h - new_h) / 2 in
    assign_block canvas y (y + new_h) x (x + new_w) frame_resized
  else Ok img_bgr.

End Canvas.

(** ** Paths *)

(** [p.rfind(c)], counting from [i] at the head of [p]; -1 when absent. *)
Fixpoint rfind_from (c : ascii) (p : string) (i : Z) : Z :=
  match p with
  | EmptyString => -1
  | String a p' =>
      let r := rfind_from c p' (i + 1) in
      if 0 <=? r then r else if Ascii.eqb a c then i else -1
  end.

Definition rfind (c : ascii) (p : string) : Z := rfind_from c p 0.

(** The scan of [genericpath._splitext] over the file name's leading dots:
    is there a character other than "." in [p[i : i + n]]? *)
Fixpoint has_stem (p : string) (i : nat) (n : nat) : bool :=
  match n with
  | O => false
  | S n' =>
      match String.get i p with
      | Some a => if Ascii.eqb a "."%char then has_stem p (S i) n' else true
      | None => true
      end
  end.

(** [os.path.splitext(p)]; [nt] selects the Windows separators. *)
Definition splitext (nt : bool) (p : string) : string * string :=
  let sepIndex :=
    if nt then Z.max (rfind "\"%char p) (rfind "/"%char p) else rfind "/"%char p in
  let dotIndex := rfind "."%char p in
  if (sepIndex <? dotIndex)
     && has_stem p (Z.to_nat (sepIndex + 1)) (Z.to_nat (dotIndex - (sepIndex + 1)))
  then (substring 0 (Z.to_nat dotIndex) p,
        substring (Z.to_nat dotIndex) (String.length p - Z.to_nat dotIndex) p)
  else (p, "").

(** ** The world the pipeline runs in *)

Inductive FourCC : Type := mp4v | MJPG.

Inductive WriterProp : Type := CAP_PROP_FRAME_WIDTH | CAP_PROP_FRAME_HEIGHT.

(** What [cv2.VideoCapture] decodes: the native frame rate and the frames
    that successive [cap.read()] calls deliver. *)
Record Video : Type := {
  native_fps : Q;
  frames : list ColorFrame
}.

(** A [cv2.VideoWriter] object: the arguments it was constructed with,
    whether it opened, how often it was released, and the frames passed to
    [write], oldest first, each with whether the call went through. *)
Record VideoWriter : Type := {
  vw_path : string;
  vw_fourcc : FourCC;
  vw_fps : Q;
  vw_size : Z * Z;               (* (width, height) *)
  vw_opened : bool;
  vw_released : nat;
  vw_written : list (ColorFrame * bool)
}.

(** The outcome of
    [subprocess.run(cmd, check=True, capture_output=True, text=True)]:
    the process exits with status 0, or with another status
    ([CalledProcessError]), or the call raises before it has a status:
    [OSError] when the executable cannot be run, [UnicodeDecodeError]
    when the captured output is not valid text. *)
Inductive Completed : Type :=
| Exited0 (stderr : string)
| CalledProcessError (stderr : option string) (str_e : string)
| NotRun
| Undecodable.

Record Env : Type := {
  VideoCapture : string -> option Video;       (* None: [isOpened()] is false *)
  path_exists : string -> bool;                (* os.path.exists *)
  truetype : string -> Z -> Font;              (* ImageFont.truetype *)
  load_default : Font;                         (* ImageFont.load_default *)
  np_array : Image -> Z -> Z -> Pixel;         (* RGB raster of a Pillow image *)
  BGR2GRAY : Pixel -> byte;
  INTER_AREA : Kernel;
  writer_opens : string -> FourCC -> Q -> Z * Z -> bool;
  writer_get : VideoWriter -> WriterProp -> Q; (* writer.get(prop) *)
  write_raises : nat -> bool;                  (* does the n-th write call raise *)
  interrupt : option nat;                      (* the step a KeyboardInterrupt hits *)
  time : nat -> Q;                             (* the n-th reading of time.time() *)
  which : string -> option string;             (* shutil.which *)
  subprocess_run : list string -> Completed;
  os_name : string
}.

Inductive event : Type :=
| showerror (title message : string)
| showinfo (title message : string)
| showwarning (title message : string)
| print (text : string)
| system (command : string)
| sleep (seconds : Q).

(** The state of one [convert_video] call: the local variables that live
    across loop iterations, the handles, and what the call did so far. *)
Record State : Type := {
  st_writer : option VideoWriter;    (* local [writer] *)
  st_output_path : string;           (* local [output_path] *)
  st_last_time : Q;                  (* local [last_time] *)
  st_cap_released : nat;             (* calls of [cap.release()] *)
  st_retired : list VideoWriter;     (* writer objects [writer] was rebound from *)
  st_events : list event;            (* dialogs and terminal output, oldest first *)
  st_steps : nat;                    (* statements started inside the [try] *)
  st_clock : nat;                    (* readings of [time.time()] *)
  st_writes : nat                    (* calls of [writer.write] *)
}.

Definition set_writer (w : option VideoWriter) (s : State) : State :=
  {| st_writer := w; st_output_path := st_output_path s;
     st_last_time := st_last_time s; st_cap_released := st_cap_released s;
     st_retired := st_retired s; st_events := st_events s;
     st_steps := st_steps s; st_clock := st_clock s; st_writes := st_writes s |}.

Definition set_output_path (p : string) (s : State) : State :=
  {| st_writer := st_writer s; st_output_path := p;
     st_last_time := st_last_time s; st_cap_released := st_cap_released s;
     st_retired := st_retired s; st_events := st_events s;
     st_steps := st_steps s; st_clock := st_clock s; st_writes := st_writes s |}.

Definition set_last_time (t : Q) (s : State) : State :=
  {| st_writer := st_writer s; st_output_path := st_output_path s;
     st_last_time := t; st_cap_released := st_cap_released s;
     st_retired := st_retired s; st_events := st_events s;
     st_steps := st_steps s; st_clock := st_clock s; st_writes := st_writes s |}.

Definition set_cap_released (n : nat) (s : State) : State :=
  {| st_writer := st_writer s; st_output_path := st_output_path s;
     st_last_time := st_last_time s; st_cap_released := n;
     st_retired := st_retired s; st_events := st_events s;
     st_steps := st_steps s; st_clock := st_clock s; st_writes := st_writes s |}.

Definition set_retired (l : list VideoWriter) (s : State) : State :=
  {| st_writer := st_writer s; st_output_path := st_output_path s;
     st_last_time := st_last_time s; st_cap_released := st_cap_released s;
     st_retired := l; st_events := st_events s;
     st_steps := st_steps s; st_clock := st_clock s; st_writes := st_writes s |}.

Definition set_events (l : list event) (s : State) : State :=
  {| st_writer := st_writer s; st_output_path := st_output_path s;
     st_last_time := st_last_time s; st_cap_released := st_cap_released s;
     st_retired := st_retired s; st_events := l;
     st_steps := st_steps s; st_clock := st_clock s; st_writes := st_writes s |}.

Definition set_steps (n : nat) (s : State) : State :=
  {| st_writer := st_writer s; st_output_path := st_output_path s;
     st_last_time := st_last_time s; st_cap_released := st_cap_released s;
     st_retired := st_retired s; st_events := st_events s;
     st_steps := n; st_clock := st_clock s; st_writes := st_writes s |}.

Definition set_clock (n : nat) (s : State) : State :=
  {| st_writer := st_writer s; st_output_path := st_output_path s;
     st_last_time := st_last_time s; st_cap_released := st_cap_released s;
     st_retired := st_retired s; st_events := st_events s;
     st_steps := st_steps s; st_clock := n; st_writes := st_writes s |}.

Definition set_writes (n : nat) (s : State) : State :=
  {| st_writer := st_writer s; st_output_path := st_output_path s;
     st_last_time := st_last_time s; st_cap_released := st_cap_released s;
     st_retired := st_retired s; st_events := st_events s;
     st_steps := st_steps s; st_clock := st_clock s; st_writes := n |}.

(** ** The pipeline monad: state, exceptions and [return] *)

Inductive outcome (A : Type) : Type :=
| Val (a : A)                    (* the statement completed *)
| Exc (e : exn)                  (* an exception is propagating *)
| Return.                        (* the function is returning *)
Arguments Val {A} a.
Arguments Exc {A} e.
Arguments Return {A}.

Definition M (A : Type) : Type := State -> outcome A * State.

Definition ret {A} (a : A) : M A := fun s => (Val a, s).

Definition bind {A B} (c : M A) (k : A -> M B) : M B :=
  fun s =>
    match c s with
    | (Val a, s') => k a s'
    | (Exc e, s') => (Exc e, s')
    | (Return, s') => (Return, s')
    end.

Notation "x <- c ;; k" := (bind c (fun x => k))
  (at level 61, c at next level, right associativity).
Notation "c ;; k" := (bind c (fun _ => k))
  (at level 61, right associativity).

Definition lift {A} (r : result A) : M A :=
  fun s => match r with Ok a => (Val a, s) | Raise e => (Exc e, s) end.

Definition return_ {A} : M A := fun s => (Return, s).

Definition get_state : M State := fun s => (Val s, s).

Definition modify (f : State -> State) : M unit := fun s => (Val tt, f s).

Definition emit (e : event) : M unit :=
  modify (fun s => set_events (st_events s ++ [e]) s).

(** [try: body / except KeyboardInterrupt: handler / finally: final] *)
Definition try_except_finally (body handler final : M unit) : M unit :=
  fun s =>
    match body s with
    | (Val _, s1) => final s1
    | (Exc KeyboardInterrupt, s1) => (handler ;; final) s1
    | (Exc e, s1) =>
        match final s1 with
        | (Val _, s2) => (Exc e, s2)
        | r => r
        end
    | (Return, s1) =>
        match final s1 with
        | (Val _, s2) => (Return, s2)
        | r => r
        end
    end.

(** ** The pipeline *)

Definition nl : string := String (ascii_of_nat 10) "".

(** ["\n".join(lines)] *)
Fixpoint join_lines (lines : list string) : string :=
  match lines with
  | [] => ""
  | [l] => l
  | l :: rest => l ++ nl ++ join_lines rest
  end.

Definition cvtColor_BGR2GRAY (to_gray : Pixel -> byte) (frame : ColorFrame) : GrayFrame :=
  {| shape := shape frame; sample := fun r c => to_gray (sample frame r c) |}.

(** [cv2.cvtColor(np.array(img), cv2.COLOR_RGB2BGR)]: an array of shape
    (height, width) with the channels swapped. *)
Definition image_to_bgr (raster : Image -> Z -> Z -> Pixel) (img : Image) : ColorFrame :=
  let '(w, h) := im_size img in
  {| shape := (h, w);
     sample := fun r c => let '(r0, g0, b0) := raster img r c in (b0, g0, r0) |}.

Section World.

Context {R : Rounding}.
Variable env : Env.

(** A statement of the [try] body.  A pending [KeyboardInterrupt] is
    raised when the statement is about to start. *)
Definition step {A} (c : M A) : M A :=
  fun s =>
    let s' := set_steps (S (st_steps s)) s in
    match interrupt env with
    | Some n => if Nat.eqb n (st_steps s) then (Exc KeyboardInterrupt, s') else c s'
    | None => c s'
    end.

Definition cap_release : M unit :=
  modify (fun s => set_cap_released (S (st_cap_released s)) s).

(** [writer.release()] on the object [w]. *)
Definition release (w : VideoWriter) : VideoWriter :=
  {| vw_path := vw_path w; vw_fourcc := vw_fourcc w; vw_fps := vw_fps w;
     vw_size := vw_size w; vw_opened := false;
     vw_released := S (vw_released w); vw_written := vw_written w |}.

(** [if writer: writer.release()] *)
Definition release_writer : M unit :=
  modify (fun s =>
            match st_writer s with
            | Some w => set_writer (Some (release w)) s
            | None => s
            end).

(** [writer = cv2.VideoWriter(path, fourcc, fps, size)]; the object the
    variable was bound to before, if any, is no longer referenced. *)
Definition new_writer (path : string) (fourcc : FourCC) (fps : Q) (size : Z * Z)
  : M unit :=
  modify (fun s =>
            let w := {| vw_path := path; vw_fourcc := fourcc; vw_fps := fps;
                        vw_size := size;
                        vw_opened := writer_opens env path fourcc fps size;
                        vw_released := 0; vw_written := [] |} in
            let old := match st_writer s with Some o => [o] | None => [] end in
            set_writer (Some w) (set_retired (st_retired s ++ old) s)).

(** [writer.isOpened()] *)
Definition writer_isOpened : M bool :=
  fun s => (Val match st_writer s with Some w => vw_opened w | None => false end, s).

(** [writer.write(frame)] on the object [w]. *)
Definition write (w : VideoWriter) (frame : ColorFrame) (ok : bool) : VideoWriter :=
  {| vw_path := vw_path w; vw_fourcc := vw_fourcc w; vw_fps := vw_fps w;
     vw_size := vw_size w; vw_opened := vw_opened w;
     vw_released := vw_released w;
     vw_written := vw_written w ++ [(frame, ok)] |}.

(** [try: writer.write(to_write) / except Exception: print(...)] *)
Definition write_frame (to_write : ColorFrame) : M unit :=
  fun s =>
    let n := st_writes s in
    let ok := negb (write_raises env n) in
    let s' := set_writes (S n) s in
    let s' := match st_writer s' with
              | Some w => set_writer (Some (write w to_write ok)) s'
              | None => s'
              end in
    if ok then (Val tt, s')
    else emit (print "⚠️ Failed to write a frame to the video writer.") s'.

(** [time.time()] *)
Definition time_time : M Q :=
  fun s => (Val (time env (st_clock s)), set_clock (S (st_clock s)) s).

Definition nt : bool := String.eqb (os_name env) "nt".

(** *** [merge_audio] *)

Definition merge_audio (video_path audio_src output_path : string)
  : M (bool * string) :=
  match which env "ffmpeg" with
  | None =>
      let msg := "FFmpeg not found in PATH. Install FFmpeg to enable audio merging." in
      step (emit (print ("⚠️ " ++ msg))) ;;
      ret (false, msg)
  | Some ffmpeg_exe =>
      let cmd := [ffmpeg_exe; "-y";
                  "-i"; video_path;
                  "-i"; audio_src;
                  "-c:v"; "copy";
                  "-map"; "0:v:0"; "-map"; "1:a:0";
                  "-shortest"; output_path] in
      step (match subprocess_run env cmd with
            | Exited0 stderr => ret (true, stderr)
            | CalledProcessError (Some stderr) str_e =>
                ret (false, if String.eqb stderr "" then str_e else stderr)
            | CalledProcessError None str_e => ret (false, str_e)
            | NotRun => lift (Raise OSError)
            | Undecodable => lift (Raise UnicodeDecodeError)
            end)
  end.

(** *** The frame loop of [convert_video] *)

Section Loop.

Variables (cols : Z) (fps frame_delay : Q) (font : Font) (save_mode : bool).

(** Lines 147-154: terminal playback of one frame. *)
Definition play_frame (lines : list string) : M unit :=
  step (emit (system (if nt then "cls" else "clear"))) ;;
  step (emit (print (join_lines lines))) ;;
  now <- step time_time ;;
  s <- get_state ;;
  let elapsed := fsub now (st_last_time s) in
  let sleep_for := fsub frame_delay elapsed in
  (if gt0 sleep_for then step (emit (sleep sleep_for)) else ret tt) ;;
  now' <- step time_time ;;
  modify (set_last_time now').

(** Lines 161-179: the first rendered frame opens the writer. *)
Definition open_writer (img_w img_h : Z) : M (Z * Z) :=
  let '(out_w, out_h) := (img_w, img_h) in
  s <- get_state ;;
  step (new_writer (st_output_path s) mp4v fps (out_w, out_h)) ;;
  opened <- writer_isOpened ;;
  if negb opened then
    let alt_path := fst (splitext nt (st_output_path s)) ++ ".avi" in
    step release_writer ;;
    step (new_writer alt_path MJPG fps (out_w, out_h)) ;;
    opened' <- writer_isOpened ;;
    if opened' then
      modify (set_output_path alt_path) ;;
      ret (out_w, out_h)
    else
      step (emit (showerror "Error"
                    "Failed to open video writer with available codecs.")) ;;
      step cap_release ;;
      return_
  else ret (out_w, out_h).

(** [int(writer.get(prop) or 0)] *)
Definition reported (w : VideoWriter) (prop : WriterProp) : Z :=
  let v := writer_get env w prop in
  py_int (if Qeq_bool v 0 then 0%Q else v).

(** Lines 181-185: later frames ask the writer for its size. *)
Definition writer_size (w : VideoWriter) (img_w img_h : Z) : Z * Z :=
  let out_w := reported w CAP_PROP_FRAME_WIDTH in
  let out_h := reported w CAP_PROP_FRAME_HEIGHT in
  if (out_w <=? 0) || (out_h <=? 0) then (img_w, img_h) else (out_w, out_h).

(** Lines 156-212: one frame in save mode. *)
Definition save_frame (lines : list string) : M unit :=
  img <- step (lift (render_ascii_to_image lines font black white default_padding)) ;;
  let img_bgr := image_to_bgr (np_array env) img in
  let '(img_h, img_w) := shape img_bgr in
  s <- get_state ;;
  out <- match st_writer s with
         | None => open_writer img_w img_h
         | Some w => step (ret (writer_size w img_w img_h))
         end ;;
  let '(out_w, out_h) := out in
  to_write <- step (lift (fit_to_canvas (INTER_AREA env) img_bgr out_w out_h)) ;;
  step (write_frame to_write).

(** The [while True] loop over the frames [cap.read()] delivers. *)
Fixpoint loop (frames : list ColorFrame) : M unit :=
  match frames with
  | [] => step (ret tt)
  | frame :: rest =>
      step (ret tt) ;;
      let gray := cvtColor_BGR2GRAY (BGR2GRAY env) frame in
      lines <- step (lift (frame_to_ascii_lines (INTER_AREA env) gray cols
                                                default_scale ASCII_CHARS)) ;;
      (if negb save_mode then play_frame lines else save_frame lines) ;;
      loop rest
  end.

End Loop.

(** *** [convert_video] *)

Definition candidates : list string :=
  ["/usr/share/fonts/truetype/dejavu/DejaVuSansMono.ttf";
   "C:\Windows\Fonts\consola.ttf";
   "C:\Windows\Fonts\lucon.ttf"].

Definition load_font (font_size : Z) : Font :=
  match find (path_exists env) candidates with
  | Some font_path => truetype env font_path font_size
  | None => load_default env
  end.

(** Lines 214-227: after the loop. *)
Definition finish (input_path : string) (save_mode merge_audio_opt : bool) : M unit :=
  step release_writer ;;
  step cap_release ;;
  if save_mode then
    s <- get_state ;;
    let output_path := st_output_path s in
    step (emit (showinfo "Done" ("ASCII video saved to:" ++ nl ++ output_path))) ;;
    if merge_audio_opt then
      let out_with_audio := fst (splitext nt output_path) ++ "_with_audio.mp4" in
      r <- merge_audio output_path input_path out_with_audio ;;
      let '(success, msg) := r in
      if success then
        step (emit (showinfo "Audio Merge" ("✅ Audio merged:" ++ nl ++ out_with_audio)))
      else
        step (emit (showwarning "Audio Merge"
                      ("⚠️ Failed to merge audio." ++ nl ++ msg)))
    else ret tt
  else ret tt.

Definition initial (output_path : string) : State :=
  {| st_writer := None; st_output_path := output_path; st_last_time := 0;
     st_cap_released := 0; st_retired := []; st_events := [];
     st_steps := 0; st_clock := 0; st_writes := 0 |}.

(** The frame rate in effect: the caller's if positive, else the
    source's if positive, else 24. *)
Definition effective_fps (fps in_fps : Q) : Q :=
  if gt0 fps then fps else (if gt0 in_fps then in_fps else 24%Q).

(** The body of the [try]: the loop and what follows it. *)
Definition try_body (cap : Video) (input_path : string) (cols : Z) (fps : Q)
           (font_size : Z) (save_mode merge_audio_opt : bool) : M unit :=
  let fps := effective_fps fps (native_fps cap) in
  let frame_delay := fl (1 / fps) in
  let font := load_font font_size in
  loop cols fps frame_delay font save_mode (frames cap) ;;
  finish input_path save_mode merge_audio_opt.

Definition convert_video
           (input_path output_path : string) (cols : Z) (fps : Q)
           (font_size : Z) (save_mode merge_audio_opt : bool)
  : outcome unit * State :=
  match VideoCapture env input_path with
  | None =>
      (emit (showerror "Error" ("Cannot open " ++ input_path)) ;; return_)
        (initial output_path)
  | Some cap =>
      (now <- time_time ;;
       modify (set_last_time now) ;;
       try_except_finally
         (try_body cap input_path cols fps font_size save_mode merge_audio_opt)
         (emit (print (nl ++ "Stopped by user.")))
         (release_writer ;; cap_release))
        (initial output_path)
  end.

End World.

(** ** The glyph index and the row count in IEEE binary64

    The computations of [gray_index] and of [new_h], carried out with
    the binary64 operations of [SpecFloat]: integers are converted to
    floats, every division and product is rounded to nearest-even, and
    [int()] truncates. *)

Module Binary64.

Definition prec : Z := 53.
Definition emax : Z := 1024.

Definition of_int (z : Z) : spec_float := binary_normalize prec emax z 0 false.

Definition to_int (x : spec_float) : option Z :=
  match x with
  | S754_zero _ => Some 0
  | S754_finite s m e =>
      let a := if 0 <=? e then Zpos m * 2 ^ e else Z.quot (Zpos m) (2 ^ (- e)) in
      Some (if s then - a else a)
  | _ => None
  end.

Definition gray_index (val K : Z) : option Z :=
  to_int (SFmul prec emax
            (SFdiv prec emax (of_int val) (of_int 255))
            (of_int (K - 1))).

(** The float literal [0.43]: the double nearest to 43/100. *)
Definition scale_043 : spec_float := SFdiv prec emax (of_int 43) (of_int 100).

(** The float [0.5], which binary64 holds exactly. *)
Definition scale_05 : spec_float := SFdiv prec emax (of_int 1) (of_int 2).

(** [new_h = max(1, int(h / ((w / cols) / scale)))] *)
Definition new_h (h w cols : Z) (scale : spec_float) : option Z :=
  let tile_w := SFdiv prec emax (of_int w) (of_int cols) in
  let tile_h := SFdiv prec emax tile_w scale in
  option_map (Z.max 1) (to_int (SFdiv prec emax (of_int h) tile_h)).

End Binary64.

(** ** Vocabulary of the properties *)

(** [triple P c Q E T]: from a state satisfying [P], the statement [c]
    ends in a state satisfying [Q a] when it completes with value [a],
    [E] when an exception propagates, [T] when the function returns. *)
Definition triple {A} (P : State -> Prop) (c : M A)
           (Q : A -> State -> Prop) (E T : State -> Prop) : Prop :=
  forall s, P s ->
            match c s with
            | (Val a, s') => Q a s'
            | (Exc _, s') => E s'
            | (Return, s') => T s'
            end.

(** Predicates that do not look at the step counter. *)
Definition step_blind (P : State -> Prop) : Prop :=
  forall n s, P s -> P (set_steps n s).

(** Predicates on the handles: blind to the bookkeeping fields and to
    releases. *)
Record stable (I : State -> Prop) : Prop := {
  stable_steps : forall n s, I s -> I (set_steps n s);
  stable_clock : forall n s, I s -> I (set_clock n s);
  stable_events : forall l s, I s -> I (set_events l s);
  stable_last_time : forall t s, I s -> I (set_last_time t s);
  stable_writes : forall n s, I s -> I (set_writes n s);
  stable_cap : forall n s, I s -> I (set_cap_released n s);
  stable_release :
    forall s w, I s -> st_writer s = Some w -> I (set_writer (Some (release w)) s)
}.

(** The state at the start of the [try]. *)
Definition entry (env : Env) (output_path : string) : State :=
  set_last_time (time env 0) (set_clock 1 (initial output_path)).

(** What the [finally] block of [convert_video] leaves behind. *)
Definition closed (s : State) : State :=
  set_cap_released
    (S (st_cap_released s))
    match st_writer s with
    | Some w => set_writer (Some (release w)) s
    | None => s
    end.

(** *** Handles *)

Definition released (w : VideoWriter) : Prop := (1 <= vw_released w)%nat.

(** Every writer object that [writer] no longer refers to was released. *)
Definition retired_released (s : State) : Prop := Forall released (st_retired s).

(** *** The canvas *)

(** Every frame passed to [w.write] has the size [w] was opened with. *)
Definition frames_fit (w : VideoWriter) : Prop :=
  Forall (fun fr => shape (fst fr) = (snd (vw_size w), fst (vw_size w))) (vw_written w).

(** The claim on the canvas as the specification states it: every frame
    written has the size the writer was opened with. *)
Definition every_frame_fits (s : State) : Prop :=
  forall w, st_writer s = Some w -> frames_fit w.

Definition canvas_ok (w : VideoWriter) : Prop :=
  0 < fst (vw_size w) /\ 0 < snd (vw_size w) /\ frames_fit w.

Definition canvas_invariant (s : State) : Prop :=
  (forall w, st_writer s = Some w -> canvas_ok w)
  /\ Forall (fun w => vw_written w = []) (st_retired s).

(** The writer answers [get] with the size it was opened with. *)
Definition reports_size (env : Env) : Prop :=
  forall w,
    (writer_get env w CAP_PROP_FRAME_WIDTH == inject_Z (fst (vw_size w)))%Q
    /\ (writer_get env w CAP_PROP_FRAME_HEIGHT == inject_Z (snd (vw_size w)))%Q.

(** The writer is known and its canvas is [out]. *)
Definition ready (size out : Z * Z) (s : State) : Prop :=
  canvas_invariant s /\ exists w, st_writer s = Some w /\ vw_size w = out.

(** [canvas] shows [img_bgr], scaled by one factor for both sides so that
    it fits, in the middle of an [out_w] x [out_h] frame that is black
    everywhere else. *)
Definition letterboxed {R : Rounding} (inter_area : Kernel)
           (img_bgr canvas : ColorFrame) (out_w out_h : Z) : Prop :=
  let '(img_h, img_w) := shape img_bgr in
  exists scale new_w new_h resized,
    fit_scale img_w img_h out_w out_h = Ok scale
    /\ new_w = Z.max 1 (py_int (fmul (float img_w) scale))
    /\ new_h = Z.max 1 (py_int (fmul (float img_h) scale))
    /\ 1 <= new_w <= out_w /\ 1 <= new_h <= out_h
    /\ (if (new_w =? img_w) && (new_h =? img_h) then resized = img_bgr
        else cv2_resize inter_area img_bgr (new_w, new_h) = Ok resized)
    /\ shape resized = (new_h, new_w)
    /\ shape canvas = (out_h, out_w)
    /\ let x := (out_w - new_w) / 2 in
       let y := (out_h - new_h) / 2 in
       0 <= (out_w - new_w) - 2 * x <= 1
       /\ 0 <= (out_h - new_h) - 2 * y <= 1
       /\ forall r c,
            sample canvas r c
            = if (y <=? r) && (r <? y + new_h) && (x <=? c) && (c <? x + new_w)
              then sample resized (r - y) (c - x)
              else zero_pixel.

(** *** Audio remux *)

Definition ffmpeg_missing : string :=
  "FFmpeg not found in PATH. Install FFmpeg to enable audio merging.".

(** The state [finish] leaves after a save-mode run that asked for the
    audio merge, when the muxing tool is missing. *)
Definition finished_with_warning (s1 : State) : State :=
  set_events
    (st_events s1
     ++ [showinfo "Done" ("ASCII video saved to:" ++ nl ++ st_output_path s1);
         print ("⚠️ " ++ ffmpeg_missing);
         showwarning "Audio Merge" ("⚠️ Failed to merge audio." ++ nl ++ ffmpeg_missing)])
    (set_steps
       (5 + st_steps s1)
       (set_cap_released
          (S (st_cap_released s1))
          match st_writer s1 with
          | Some w => set_writer (Some (release w)) s1
          | None => s1
          end)).

(** *** The writer fallback *)

Definition writer_error : event :=
  showerror "Error" "Failed to open video writer with available codecs.".

Definition done (path : string) : event :=
  showinfo "Done" ("ASCII video saved to:" ++ nl ++ path).

Section Fallback.

Variable nt : bool.
Variable output_path : string.

Definition alt_path : string := fst (splitext nt output_path) ++ ".avi".

(** The writer object of the failed first attempt, after its release. *)
Definition primary_failed (p : VideoWriter) : Prop :=
  vw_path p = output_path /\ vw_fourcc p = mp4v /\ vw_opened p = false
  /\ released p /\ vw_written p = [].

Definition no_writer_yet (s : State) : Prop :=
  st_writer s = None /\ st_retired s = [] /\ st_output_path s = output_path.

(** Two writers were constructed: the failed primary one, and the
    alternate one that [writer] and [output_path] now stand for. *)
Definition on_fallback (s : State) : Prop :=
  exists w p,
    st_writer s = Some w /\ vw_path w = alt_path /\ vw_fourcc w = MJPG
    /\ vw_size w = vw_size p /\ vw_fps w = vw_fps p
    /\ st_retired s = [p] /\ primary_failed p
    /\ st_output_path s = alt_path.

(** Two writers were constructed, neither opened, nothing was written,
    the error was shown and the input released. *)
Definition aborted (s : State) : Prop :=
  exists w p,
    st_writer s = Some w /\ vw_path w = alt_path /\ vw_fourcc w = MJPG
    /\ vw_opened w = false /\ vw_written w = []
    /\ st_retired s = [p] /\ primary_failed p
    /\ In writer_error (st_events s)
    /\ (1 <= st_cap_released s)%nat.

End Fallback.

(** ** A small world to run the pipeline in *)

Module Demo.

(** Nearest-sample resizing, standing in for the area kernel. *)
Definition nearest : Kernel :=
  fun P src dsize r c =>
    sample src (r * fst (shape src) / snd dsize) (c * snd (shape src) / fst dsize).

(** A uniformly gray frame of the given shape. *)
Definition flat (h w : Z) : ColorFrame :=
  {| shape := (h, w); sample := fun _ _ => (x80, x80, x80)%byte |}.

(** A font whose "M" measures 7 x 9 pixels. *)
Definition font : Font := {| textbbox := fun _ => (0, 0, 7, 9) |}.

(** A clip of the given frames at 30 fps; every codec opens unless
    [opens] says otherwise; the writer answers [get] with [get]; no
    font file, no interrupt unless [interrupt], no ffmpeg. *)
Definition world (clip : list ColorFrame)
           (opens : string -> FourCC -> bool)
           (get : VideoWriter -> WriterProp -> Q)
           (interrupt : option nat) : Env :=
  {| VideoCapture := fun _ => Some {| native_fps := 30; frames := clip |};
     path_exists := fun _ => false;
     truetype := fun _ _ => font;
     load_default := font;
     np_array := fun _ _ _ => (x00, x00, x00)%byte;
     BGR2GRAY := fun '(b, g, r) => g;
     INTER_AREA := nearest;
     writer_opens := fun path fourcc _ _ => opens path fourcc;
     writer_get := get;
     write_raises := fun _ => false;
     interrupt := interrupt;
     time := fun n => inject_Z (Z.of_nat n);
     which := fun _ => None;
     subprocess_run := fun _ => Exited0 "";
     os_name := "posix" |}.

(** A writer that does not support the size query: [get] returns 0. *)
Definition silent : VideoWriter -> WriterProp -> Q := fun _ _ => 0%Q.

(** A writer that answers the size query with the size it was opened with. *)
Definition faithful : VideoWriter -> WriterProp -> Q :=
  fun w prop =>
    match prop with
    | CAP_PROP_FRAME_WIDTH => inject_Z (fst (vw_size w))
    | CAP_PROP_FRAME_HEIGHT => inject_Z (snd (vw_size w))
    end.

(** Two frames of different shapes: 36 x 64, then 72 x 64. *)
Definition mismatched : list ColorFrame := [flat 36 64; flat 72 64].

(** The sizes the run recorded: the size the writer was opened with and
    the shape of every frame passed to [write]. *)
Definition recorded (s : State) : option (Z * Z * list (Z * Z)) :=
  option_map (fun w => (vw_size w, map (fun fr => shape (fst fr)) (vw_written w)))
             (st_writer s).

(** The primary codec never opens, the alternate one does. *)
Definition mp4_unavailable : string -> FourCC -> bool :=
  fun _ fourcc => match fourcc with mp4v => false | MJPG => true end.

End Demo.

(** ** Vocabulary of the further properties *)

(** What terminal playback may do: clear the screen, print, and sleep
    for a positive time. *)
Definition terminal_event (e : event) : Prop :=
  match e with
  | system _ | print _ => True
  | sleep d => (0 < d)%Q
  | _ => False
  end.

(** Terminal playback has touched no writer. *)
Definition terminal_state (output_path : string) (s : State) : Prop :=
  st_writer s = None /\ st_retired s = [] /\ st_writes s = 0%nat
  /\ st_output_path s = output_path
  /\ Forall terminal_event (st_events s).

(** The events of a run without its sleeps. *)
Definition without_sleeps (events : list event) : list event :=
  filter (fun e => match e with sleep _ => false | _ => true end) events.

(** What terminal playback shows for one frame: the screen is cleared,
    then the lines are printed. *)
Definition screen (env : Env) (lines : list string) : list event :=
  [system (if nt env then "cls" else "clear"); print (join_lines lines)].

(** The world [env] with the muxing tool installed as [exe], running as
    [run] says. *)
Definition with_ffmpeg (env : Env) (exe : string) (run : list string -> Completed) : Env :=
  {| VideoCapture := VideoCapture env;
     path_exists := path_exists env;
     truetype := truetype env;
     load_default := load_default env;
     np_array := np_array env;
     BGR2GRAY := BGR2GRAY env;
     INTER_AREA := INTER_AREA env;
     writer_opens := writer_opens env;
     writer_get := writer_get env;
     write_raises := write_raises env;
     interrupt := interrupt env;
     time := time env;
     which := fun name => if String.eqb name "ffmpeg" then Some exe else None;
     subprocess_run := run;
     os_name := os_name env |}.

(** The dialog that reports the audio merge: [merged] on exit status 0;
    on another exit status a warning with the tool's error output when
    there is some, and the text of the exception otherwise; none when
    running the tool raised another exception. *)
Definition audio_merge_dialog (completed : Completed) (out_with_audio : string)
  : list event :=
  match completed with
  | Exited0 _ => [showinfo "Audio Merge" ("✅ Audio merged:" ++ nl ++ out_with_audio)]
  | CalledProcessError stderr str_e =>
      [showwarning "Audio Merge"
                   ("⚠️ Failed to merge audio." ++ nl
                    ++ match stderr with
                       | Some err => if String.eqb err "" then str_e else err
                       | None => str_e
                       end)]
  | NotRun | Undecodable => []
  end.

(** How a run ends whose audio merge completed as [completed]: an
    exception that is not a [CalledProcessError] is not caught. *)
Definition audio_merge_end (completed : Completed) : outcome unit :=
  match completed with
  | Exited0 _ | CalledProcessError _ _ => Val tt
  | NotRun => Exc OSError
  | Undecodable => Exc UnicodeDecodeError
  end.

(** The audio merge was requested, the muxing tool was found, and
    running it raised an exception that [merge_audio] does not catch:
    [o] is that exception leaving the run. *)
Definition merge_escapes (env : Env) (merge_audio_opt : bool) (o : outcome unit)
  : Prop :=
  merge_audio_opt = true
  /\ exists exe cmd,
      which env "ffmpeg" = Some exe
      /\ (subprocess_run env cmd = NotRun /\ o = Exc OSError
          \/ subprocess_run env cmd = Undecodable /\ o = Exc UnicodeDecodeError).



(** What the loop body computes from a frame before it looks at the
    writer: the glyph grid, rendered and converted to BGR. *)
Definition rendered {R : Rounding} (env : Env) (cols : Z) (font : Font)
           (frame : ColorFrame) : result ColorFrame :=
  lines <~ frame_to_ascii_lines (INTER_AREA env)
                                (cvtColor_BGR2GRAY (BGR2GRAY env) frame)
                                cols default_scale ASCII_CHARS ;;
  img <~ render_ascii_to_image lines font black white default_padding ;;
  Ok (image_to_bgr (np_array env) img).

(** The size query is answered with the size the writer was opened
    with, or not at all. *)
Definition answers_size_or_nothing (env : Env) : Prop :=
  forall w,
    (reported env w CAP_PROP_FRAME_WIDTH <= 0 \/ reported env w CAP_PROP_FRAME_HEIGHT <= 0)
    \/ (reported env w CAP_PROP_FRAME_WIDTH = fst (vw_size w)
        /\ reported env w CAP_PROP_FRAME_HEIGHT = snd (vw_size w)).

Definition write_failed : event :=
  print "⚠️ Failed to write a frame to the video writer.".

(** The warnings printed for the first [n] calls of [write]. *)
Definition warnings (env : Env) (n : nat) : list event :=
  flat_map (fun i => if write_raises env i then [write_failed] else []) (seq 0 n).

(** The size of the image rendered for a grid of [cols] x [rows] glyphs. *)
Definition image_size (font : Font) (cols rows : Z) : Z * Z :=
  (make_even (char_w font * cols + default_padding * 2),
   make_even (char_h font * rows + default_padding * 2)).

(** The state of a save-mode run that has written the frames [written],
    all to the writer it opened first. *)
Definition saving (env : Env) (output_path : string) (fps : Q) (size : Z * Z)
           (written : list ColorFrame) (s : State) : Prop :=
  st_retired s = [] /\ st_output_path s = output_path
  /\ st_writes s = List.length written
  /\ st_events s = warnings env (List.length written)
  /\ st_writer s
     = match written with
       | [] => None
       | _ => Some {| vw_path := output_path; vw_fourcc := mp4v; vw_fps := fps;
                      vw_size := size; vw_opened := true; vw_released := 0;
                      vw_written :=
                        combine written
                                (map (fun i => negb (write_raises env i))
                                     (seq 0 (List.length written))) |}
       end.

(** The library calls of the pipeline raise their own errors, never a
    [KeyboardInterrupt]. *)
Definition never_interrupts {A} (r : result A) : Prop := r <> Raise KeyboardInterrupt.

(** A statement sequence of the [try] body under an interrupt pending
    for statement [n]: started with no more than [n] statements begun,
    it either is cut short by the interrupt, at statement [n], or ends
    otherwise with no more than [n] statements begun. *)
Definition on_time (n : nat) {A} (c : M A) : Prop :=
  forall s,
    (st_steps s <= n)%nat ->
    match c s with
    | (Exc KeyboardInterrupt, s') => st_steps s' = S n
    | (_, s') => (st_steps s' <= n)%nat
    end.

Definition stopped_by_user : event := print (nl ++ "Stopped by user.").

Module Script.

(** What a run of the script can end in besides a conversion. *)
Inductive py_error : Type :=
| TypeError_unexpected_keyword (function keyword : string)
| TypeError_multiple_values (function argument : string)
| TypeError_too_many_positional (function : string)
| TypeError_missing_arguments (function : string)
| NameError (name : string)
| SystemExit (code : Z).

(** The statements at the top level of the file, in order. *)
Inductive statement : Type :=
| Import (names : list string)
| Assign (name : string)
| Def (name : string)
| IfMainCallMain.              (* if __name__ == "__main__": main() *)

Definition module_body : list statement :=
  [ Import ["cv2"]; Import ["np"]; Import ["Image"; "ImageFont"; "ImageDraw"];
    Import ["tk"]; Import ["filedialog"; "messagebox"]; Import ["subprocess"];
    Import ["shutil"]; Import ["os"]; Import ["sys"]; Import ["time"];
    Import ["threading"];
    Assign "ASCII_CHARS";
    Def "get_char_for_gray"; Def "frame_to_ascii_lines"; Def "render_ascii_to_image";
    Def "merge_audio"; Def "convert_video";
    Def "start_conversion"; Def "browse_video"; Def "browse_output";
    Def "_run_headless"; Def "main";
    IfMainCallMain;
    Def "run_gui" ].

(** The global names bound when the statement [IfMainCallMain] runs. *)
Fixpoint globals_at_main (body : list statement) : list string :=
  match body with
  | [] => []
  | IfMainCallMain :: _ => []
  | Import names :: rest => (names ++ globals_at_main rest)%list
  | Assign name :: rest => name :: globals_at_main rest
  | Def name :: rest => name :: globals_at_main rest
  end.

Definition bound (name : string) (globals : list string) : bool :=
  existsb (String.eqb name) globals.

(** Binding the arguments of a call to the parameters of a function
    without defaults, [*args] or [**kwargs]: keywords are matched first,
    then the number of positional arguments is checked, then that every
    parameter has a value. *)
Definition bind_call (function : string) (params : list string)
           (positional : nat) (keywords : list string) : option py_error :=
  match find (fun k => negb (bound k params)) keywords with
  | Some k => Some (TypeError_unexpected_keyword function k)
  | None =>
      match find (fun k => bound k (firstn positional params)) keywords with
      | Some k => Some (TypeError_multiple_values function k)
      | None =>
          if (List.length params <? positional)%nat
          then Some (TypeError_too_many_positional function)
          else if forallb (fun p => bound p keywords) (skipn positional params)
               then None
               else Some (TypeError_missing_arguments function)
      end
  end.

(** [def convert_video(input_path, output_path, cols, fps, font_size,
    save_mode, merge_audio_opt)] *)
Definition convert_video_params : list string :=
  ["input_path"; "output_path"; "cols"; "fps"; "font_size"; "save_mode";
   "merge_audio_opt"].

(** The namespace [parser.parse_args()] returns. *)
Record Namespace : Type := {
  input : option string;
  output : option string;
  cols : Z;
  fps : Q;
  font_size : Z;
  merge_audio : bool;
  no_gui : bool
}.

Inductive script_result : Type :=
| Raised (e : py_error)
| Gui                                        (* [run_gui()] was entered *)
| Converted (run : outcome unit * State).    (* [convert_video] was entered *)

(** [s or default] on an optional string: [None] and the empty string
    are false. *)
Definition str_or (s : option string) (default : string) : string :=
  match s with
  | Some v => if String.eqb v "" then default else v
  | None => default
  end.

Definition int_or (z default : Z) : Z := if z =? 0 then default else z.

Definition float_or (x : Q) (default : Q) : Q := if Qeq_bool x 0 then default else x.

Section Run.

Context {R : Rounding}.
Variable env : Env.

Definition _run_headless (args : Namespace) : script_result :=
  (* [args.input]: [main] has checked that it is a non-empty string *)
  let input_path := str_or (input args) "" in
  let output_path := str_or (output args) "ascii_out.mp4" in
  let cols := int_or (cols args) 120 in
  let fps := float_or (fps args) 0 in
  let font_size := int_or (font_size args) 12 in
  let save_mode := true in
  let merge_audio_opt := merge_audio args in
  match bind_call "convert_video" convert_video_params 7 ["show_dialogs"] with
  | Some e => Raised e
  | None =>
      Converted (convert_video env input_path output_path cols fps font_size
                               save_mode merge_audio_opt)
  end.

Definition main (globals : list string) (args : Namespace) : script_result :=
  if no_gui args then
    if String.eqb (str_or (input args) "") "" then Raised (SystemExit 2)
    else if bound "_run_headless" globals then _run_headless args
         else Raised (NameError "_run_headless")
  else if bound "run_gui" globals then Gui
       else Raised (NameError "run_gui").

(** Running the file as a script with the parsed arguments [args]. *)
Definition script (args : Namespace) : script_result :=
  main (globals_at_main module_body) args.

End Run.

End Script.

(** The state a run is left in when its first frame is rejected: two
    statements of the loop were begun, and the [finally] block ran. *)
Definition rejected_at_first_frame (env : Env) (output_path : string) : State :=
  closed (set_steps 2 (entry env output_path)).

(** A uniformly gray grayscale frame of the given shape. *)
Definition flat_gray (h w : Z) : GrayFrame :=
  {| shape := (h, w); sample := fun _ _ => x80%byte |}.

(** * Properties *)

(** ** Truncation *)

Lemma py_int_floor (x : Q) : (0 <= x)%Q -> py_int x = Qfloor x.
Proof.
  destruct x as [n d]; unfold Qle, py_int, Qfloor; simpl; intros H.
  apply Z.quot_div_nonneg; lia.
Qed.

Lemma py_int_nonneg (x : Q) : (0 <= x)%Q -> 0 <= py_int x.
Proof.
  intros H. rewrite py_int_floor by exact H.
  change 0 with (Qfloor 0). now apply Qfloor_resp_le.
Qed.

Lemma py_int_le (x y : Q) : (0 <= x)%Q -> (x <= y)%Q -> py_int x <= py_int y.
Proof.
  intros Hx Hxy.
  rewrite !py_int_floor; [now apply Qfloor_resp_le | | exact Hx].
  now apply Qle_trans with x.
Qed.

Lemma py_int_le_Z (x : Q) (z : Z) : (0 <= x)%Q -> (x <= inject_Z z)%Q -> py_int x <= z.
Proof.
  intros Hx Hz. rewrite py_int_floor by exact Hx.
  rewrite <- (Qfloor_Z z). now apply Qfloor_resp_le.
Qed.

Lemma py_int_lt_Z (x : Q) (z : Z) : (0 <= x)%Q -> (x < inject_Z z)%Q -> py_int x < z.
Proof.
  intros Hx Hz. rewrite py_int_floor by exact Hx.
  assert (H := Qfloor_le x).
  assert (H' : (inject_Z (Qfloor x) < inject_Z z)%Q) by now apply Qle_lt_trans with x.
  now rewrite <- Zlt_Qlt in H'.
Qed.

Lemma py_int_eq (x : Q) (z : Z) : (x == inject_Z z)%Q -> py_int x = z.
Proof.
  destruct x as [n d]; unfold Qeq, py_int; simpl; intros H.
  rewrite Z.mul_1_r in H. subst n. apply Z.quot_mul. lia.
Qed.

(** ** Rounding *)

Lemma unit_roundoff_value : unit_roundoff = (1 # 9007199254740992)%Q.
Proof. reflexivity. Qed.

Section RoundingFacts.

Context {R : Rounding}.

Lemma fl_compat (x y : Q) : (x == y)%Q -> (fl x == fl y)%Q.
Proof.
  intros H. apply Qle_antisym; apply fl_monotone; rewrite H; apply Qle_refl.
Qed.

Lemma fl_Z (z : Z) : Z.abs z <= 2 ^ 53 -> (float z == inject_Z z)%Q.
Proof. apply fl_integer. Qed.

Lemma fl_0 : (fl 0 == 0)%Q.
Proof. apply (fl_integer 0). simpl. lia. Qed.

Lemma fl_1 : (fl 1 == 1)%Q.
Proof. apply (fl_integer 1). simpl. lia. Qed.

Lemma fl_nonneg (x : Q) : (0 <= x)%Q -> (0 <= fl x)%Q.
Proof. intros H. rewrite <- fl_0. now apply fl_monotone. Qed.

Lemma fl_pos (x : Q) : (0 < x)%Q -> (0 < fl x)%Q.
Proof.
  intros Hx.
  assert (He := fl_error x).
  rewrite (Qabs_pos x) in He by now apply Qlt_le_weak.
  apply Qabs_Qle_condition in He. destruct He as [He _].
  assert (Hu : (x * unit_roundoff < x)%Q).
  { rewrite <- (Qmult_1_r x) at 2.
    rewrite !(Qmult_comm x). apply Qmult_lt_compat_r; [exact Hx | reflexivity]. }
  apply Qlt_le_trans with (x - x * unit_roundoff)%Q.
  - apply Qlt_minus_iff in Hu. exact Hu.
  - apply (Qplus_le_l _ _ (- x)%Q).
    setoid_replace (x - x * unit_roundoff + - x)%Q with (- (x * unit_roundoff))%Q by ring.
    exact He.
Qed.

Lemma fl_le_Z (x : Q) (z : Z) :
  Z.abs z <= 2 ^ 53 -> (x <= inject_Z z)%Q -> (fl x <= inject_Z z)%Q.
Proof.
  intros Hz Hx. rewrite <- (fl_integer z Hz). now apply fl_monotone.
Qed.

Lemma float_nonneg (z : Z) : 0 <= z -> (0 <= float z)%Q.
Proof.
  intros Hz. apply fl_nonneg. change 0%Q with (inject_Z 0). now rewrite <- Zle_Qle.
Qed.

Lemma float_le (a b : Z) : a <= b -> (float a <= float b)%Q.
Proof. intros H. apply fl_monotone. now rewrite <- Zle_Qle. Qed.

Lemma fl_upper (x : Q) : (0 <= x)%Q -> (fl x <= x * (1 + unit_roundoff))%Q.
Proof.
  intros Hx. assert (He := fl_error x).
  rewrite (Qabs_pos x) in He by exact Hx.
  apply Qabs_Qle_condition in He. destruct He as [_ He]. lra.
Qed.

Lemma fl_lower (x : Q) : (0 <= x)%Q -> (x * (1 - unit_roundoff) <= fl x)%Q.
Proof.
  intros Hx. assert (He := fl_error x).
  rewrite (Qabs_pos x) in He by exact Hx.
  apply Qabs_Qle_condition in He. destruct He as [He _]. lra.
Qed.

End RoundingFacts.

(** ** Strings and comprehensions *)

Lemma get_in_range (s : string) (n : nat) :
  (n < String.length s)%nat -> exists c, String.get n s = Some c.
Proof.
  revert n; induction s as [|a s IH]; simpl; intros n Hn; [lia|].
  destruct n as [|n]; [now exists a|]. apply IH; lia.
Qed.

Lemma getitem_in_range (s : string) (i : Z) :
  0 <= i < len s ->
  exists c, getitem s i = Ok c /\ String.get (Z.to_nat i) s = Some c.
Proof.
  intros Hi. unfold getitem.
  replace (i <? 0) with false by (symmetry; apply Z.ltb_ge; lia).
  replace (0 <=? i) with true by (symmetry; apply Z.leb_le; lia).
  replace (i <? len s) with true by (symmetry; apply Z.ltb_lt; lia).
  simpl.
  destruct (get_in_range s (Z.to_nat i)) as [c Hc]; [unfold len in Hi; lia|].
  exists c. now rewrite Hc.
Qed.

Lemma length_join (cs : list ascii) : String.length (join cs) = List.length cs.
Proof. induction cs as [|c cs IH]; simpl; [reflexivity | now rewrite IH]. Qed.

Lemma length_range (n : Z) : List.length (range n) = Z.to_nat n.
Proof. unfold range. now rewrite length_map, length_seq. Qed.

Lemma comprehension_ok {A B} (f : A -> result B) (P : B -> Prop) (xs : list A) :
  (forall x, In x xs -> exists y, f x = Ok y /\ P y) ->
  exists ys, comprehension f xs = Ok ys
             /\ List.length ys = List.length xs /\ Forall P ys.
Proof.
  induction xs as [|x xs IH]; intros H; simpl.
  - exists []. repeat split; constructor.
  - destruct (H x (or_introl eq_refl)) as [y [Hy Py]].
    destruct IH as [ys [Hys [Hl HP]]]; [intros; apply H; now right|].
    exists (y :: ys). rewrite Hy, Hys; simpl. repeat split; [now rewrite Hl | now constructor].
Qed.

Lemma uint8_range (b : byte) : 0 <= uint8 b <= 255.
Proof.
  unfold uint8. assert (H := Byte.to_N_bounded b). lia.
Qed.

(** ** The glyph mapper *)

Section GlyphMapperFacts.

Context {R : Rounding}.

Lemma float_255 : (float 255 == 255)%Q.
Proof. apply (fl_integer 255). simpl. lia. Qed.

Lemma np_div_le (a b : Z) : a <= b -> (np_div a 255 <= np_div b 255)%Q.
Proof.
  intros H. unfold np_div. apply fl_monotone.
  unfold Qdiv. apply Qmult_le_compat_r; [now apply float_le|].
  apply Qinv_le_0_compat. apply float_nonneg. lia.
Qed.

Lemma np_div_0 : (np_div 0 255 == 0)%Q.
Proof.
  unfold np_div. rewrite <- fl_0. apply fl_compat.
  unfold float. rewrite (fl_integer 0) by (simpl; lia). reflexivity.
Qed.

Lemma np_div_255 : (np_div 255 255 == 1)%Q.
Proof.
  unfold np_div. rewrite <- fl_1. apply fl_compat.
  rewrite float_255. reflexivity.
Qed.

Lemma np_div_range (v : Z) : 0 <= v <= 255 -> (0 <= np_div v 255 <= 1)%Q.
Proof.
  intros [H0 H1]. split.
  - rewrite <- np_div_0. now apply np_div_le.
  - rewrite <- np_div_255. now apply np_div_le.
Qed.

(** The float the index is truncated from. *)
Lemma scaled_range (v K : Z) :
  0 <= v <= 255 -> 1 <= K <= 2 ^ 53 ->
  (0 <= fmul (np_div v 255) (float (K - 1)) <= inject_Z (K - 1))%Q.
Proof.
  intros Hv HK.
  destruct (np_div_range v Hv) as [H0 H1].
  assert (HK1 : (float (K - 1) == inject_Z (K - 1))%Q) by (apply fl_Z; lia).
  assert (HKp : (0 <= inject_Z (K - 1))%Q)
    by (change 0%Q with (inject_Z 0); rewrite <- Zle_Qle; lia).
  unfold fmul. split.
  - apply fl_nonneg. rewrite HK1. now apply Qmult_le_0_compat.
  - apply fl_le_Z; [lia|]. rewrite HK1.
    rewrite <- (Qmult_1_l (inject_Z (K - 1))) at 2.
    now apply Qmult_le_compat_r.
Qed.

Lemma gray_index_range (v : Z) (chars : string) :
  0 <= v <= 255 -> 1 <= len chars <= 2 ^ 53 ->
  0 <= gray_index v chars <= len chars - 1.
Proof.
  intros Hv HK. destruct (scaled_range v (len chars) Hv HK) as [H0 H1].
  unfold gray_index. split; [now apply py_int_nonneg | now apply py_int_le_Z].
Qed.

Lemma gray_index_0 (chars : string) : gray_index 0 chars = 0.
Proof.
  unfold gray_index, fmul. apply py_int_eq.
  change (inject_Z 0) with 0%Q. rewrite <- fl_0. apply fl_compat.
  rewrite np_div_0. ring.
Qed.

Lemma gray_index_255 (chars : string) :
  1 <= len chars <= 2 ^ 53 -> gray_index 255 chars = len chars - 1.
Proof.
  intros HK. unfold gray_index, fmul. apply py_int_eq.
  rewrite <- (fl_integer (len chars - 1)) by lia. apply fl_compat.
  rewrite np_div_255. unfold float. rewrite (fl_integer (len chars - 1)) by lia. ring.
Qed.

(** The float the index is truncated from lies within 1/510 of the
    exact v / 255 * (K-1): the two roundings lose less than that on a
    ramp of at most 2^40 characters. *)
Lemma scaled_close (v K : Z) :
  0 <= v <= 255 -> 1 <= K <= 2 ^ 40 ->
  let x := (inject_Z v / 255 * inject_Z (K - 1))%Q in
  let y := fmul (np_div v 255) (float (K - 1)) in
  (x - (1 # 510) <= y <= x + (1 # 510))%Q.
Proof.
  intros Hv HK x y.
  assert (Hv0 : (0 <= inject_Z v)%Q)
    by (change 0%Q with (inject_Z 0); rewrite <- Zle_Qle; lia).
  assert (Hv1 : (inject_Z v <= 255)%Q)
    by (change 255%Q with (inject_Z 255); rewrite <- Zle_Qle; lia).
  assert (Hk0 : (0 <= inject_Z (K - 1))%Q)
    by (change 0%Q with (inject_Z 0); rewrite <- Zle_Qle; lia).
  assert (Hk1 : (inject_Z (K - 1) <= inject_Z (2 ^ 40))%Q) by (rewrite <- Zle_Qle; lia).
  change (inject_Z (2 ^ 40)) with (1099511627776 # 1)%Q in Hk1.
  assert (Hfv : (float v == inject_Z v)%Q) by (apply fl_Z; lia).
  assert (Hfk : (float (K - 1) == inject_Z (K - 1))%Q) by (apply fl_Z; lia).
  set (d := (inject_Z v / 255)%Q).
  assert (Hd0 : (0 <= d)%Q).
  { apply Qle_shift_div_l; [reflexivity|]. now rewrite Qmult_0_l. }
  assert (Hd1 : (d <= 1)%Q).
  { apply Qle_shift_div_r; [reflexivity|]. now rewrite Qmult_1_l. }
  assert (Hnd : (np_div v 255 == fl d)%Q).
  { unfold np_div. apply fl_compat. rewrite Hfv, float_255. reflexivity. }
  assert (Hl := fl_lower d Hd0). assert (Hu := fl_upper d Hd0).
  assert (Hfd0 := fl_nonneg d Hd0).
  set (k := inject_Z (K - 1)) in *.
  assert (Hy : (y == fl (fl d * k))%Q).
  { unfold y, fmul. apply fl_compat. rewrite Hnd, Hfk. reflexivity. }
  assert (Hp0 : (0 <= fl d * k)%Q) by now apply Qmult_le_0_compat.
  assert (Hl2 := fl_lower _ Hp0). assert (Hu2 := fl_upper _ Hp0).
  rewrite unit_roundoff_value in *.
  assert (Hx : (x == d * k)%Q) by reflexivity.
  assert (Hxk : (d * k <= k)%Q) by nra.
  assert (Hx0 : (0 <= d * k)%Q) by now apply Qmult_le_0_compat.
  rewrite Hy, Hx. split; nra.
Qed.

(** The exact index and the computed one: equal unless v * (K-1) is a
    multiple of 255, where the computed one can be one less. *)
Lemma gray_index_close (v : Z) (chars : string) :
  0 <= v <= 255 -> 1 <= len chars <= 2 ^ 40 ->
  spec_glyph_index v (len chars) - 1 <= gray_index v chars
  <= spec_glyph_index v (len chars)
  /\ ((v * (len chars - 1)) mod 255 <> 0 ->
      gray_index v chars = spec_glyph_index v (len chars)).
Proof.
  intros Hv HK.
  assert (HK' : 1 <= len chars <= 2 ^ 53) by lia.
  destruct (scaled_range v (len chars) Hv HK') as [H0 _].
  destruct (scaled_close v (len chars) Hv HK) as [Hlo Hhi].
  unfold gray_index. rewrite py_int_floor by exact H0.
  set (y := fmul (np_div v 255) (float (len chars - 1))) in *.
  set (N := v * (len chars - 1)).
  assert (Hx : (inject_Z v / 255 * inject_Z (len chars - 1) == N # 255)%Q).
  { unfold N, Qeq, Qdiv, Qmult, Qinv, inject_Z. simpl. ring. }
  assert (Hf : Qfloor (inject_Z v / 255 * inject_Z (len chars - 1)) = N / 255).
  { rewrite (Qfloor_comp _ _ Hx). reflexivity. }
  assert (HN : 0 <= N <= 255 * (len chars - 1)) by (unfold N; nia).
  assert (E1 := Z.div_mod N 255 ltac:(lia)).
  assert (B1 := Z.mod_pos_bound N 255 ltac:(lia)).
  assert (Hs : spec_glyph_index v (len chars) = N / 255).
  { unfold spec_glyph_index. rewrite Hf. lia. }
  rewrite Hs.
  assert (Hup : Qfloor y <= (2 * N + 1) / 510).
  { change ((2 * N + 1) / 510) with (Qfloor ((2 * N + 1) # 510)).
    apply Qfloor_resp_le. rewrite Hx in Hhi.
    assert (E : ((N # 255) + (1 # 510) == (2 * N + 1) # 510)%Q)
      by (unfold Qeq, Qplus; cbn [Qnum Qden]; rewrite ?Pos2Z.inj_mul; lia).
    now rewrite <- E. }
  assert (Hdn : (2 * N - 1) / 510 <= Qfloor y).
  { change ((2 * N - 1) / 510) with (Qfloor ((2 * N - 1) # 510)).
    apply Qfloor_resp_le. rewrite Hx in Hlo.
    assert (E : ((N # 255) - (1 # 510) == (2 * N - 1) # 510)%Q)
      by (unfold Qeq, Qminus, Qplus, Qopp; cbn [Qnum Qden]; rewrite ?Pos2Z.inj_mul; lia).
    now rewrite <- E. }
  assert (E2 := Z.div_mod (2 * N + 1) 510 ltac:(lia)).
  assert (B2 := Z.mod_pos_bound (2 * N + 1) 510 ltac:(lia)).
  assert (E3 := Z.div_mod (2 * N - 1) 510 ltac:(lia)).
  assert (B3 := Z.mod_pos_bound (2 * N - 1) 510 ltac:(lia)).
  split; [lia|]. intros Hm. fold N in Hm. lia.
Qed.

End GlyphMapperFacts.

(** C5, as stated: the default ramp does not have 13 characters. *)
Lemma default_ramp_not_13 : String.length ASCII_CHARS <> 13%nat.
Proof. discriminate. Qed.

(** C5, amended: the default glyph ramp is the fixed sequence of the 12
    characters [.:-=+*#%@/\|]; the mapper reads it in that order, from
    brightness 0 at the first character to brightness 255 at the last. *)
Theorem default_ramp_12 {R : Rounding} :
  String.length ASCII_CHARS = 12%nat
  /\ list_ascii_of_string ASCII_CHARS
     = ["."; ":"; "-"; "="; "+"; "*"; "#"; "%"; "@"; "/"; "\"; "|"]%char
  /\ get_char_for_gray 0 ASCII_CHARS = Ok "."%char
  /\ get_char_for_gray 255 ASCII_CHARS = Ok "|"%char.
Proof.
  repeat split.
  - unfold get_char_for_gray. now rewrite gray_index_0.
  - unfold get_char_for_gray. rewrite gray_index_255; [reflexivity|].
    unfold len; simpl. lia.
Qed.

(** C4, as stated: the index is not always floor(v / 255 * (K-1)).  On
    a ramp of 52 characters, brightness 155 sits exactly on 31 in exact
    arithmetic; the binary64 product rounds to just below 31, and the
    mapper returns the character at 30. *)
Lemma glyph_index_below_formula :
  Binary64.gray_index 155 52 = Some 30 /\ spec_glyph_index 155 52 = 31.
Proof. split; vm_compute; reflexivity. Qed.

(** C4, amended: for a brightness v in [0, 255] and a ramp of K >= 2
    characters (K within the integers a float holds exactly), the mapper
    returns ramp[index] with index = int((v / 255) * (K-1)), the
    quotient and the product each rounded to a float.  The index is
    never outside [0, K-1], so the mapper is total; brightness 0 maps to
    ramp[0] and brightness 255 to ramp[K-1].  On a ramp of at most 2^40
    characters the index is the exact floor(v / 255 * (K-1)), except
    that where v * (K-1) is a multiple of 255 it can be one less. *)
Theorem glyph_mapper_total {R : Rounding} (v : Z) (chars : string) :
  0 <= v <= 255 ->
  2 <= len chars <= 2 ^ 53 ->
  let K := len chars in
  0 <= gray_index v chars <= K - 1
  /\ (exists c, get_char_for_gray v chars = Ok c
                /\ String.get (Z.to_nat (gray_index v chars)) chars = Some c)
  /\ (exists c, get_char_for_gray 0 chars = Ok c /\ String.get 0 chars = Some c)
  /\ (exists c, get_char_for_gray 255 chars = Ok c
                /\ String.get (Z.to_nat (K - 1)) chars = Some c)
  /\ (K <= 2 ^ 40 ->
      spec_glyph_index v K - 1 <= gray_index v chars <= spec_glyph_index v K
      /\ ((v * (K - 1)) mod 255 <> 0 -> gray_index v chars = spec_glyph_index v K)).
Proof.
  intros Hv HK K.
  assert (HK' : 1 <= len chars <= 2 ^ 53) by lia.
  assert (Hr := gray_index_range v chars Hv HK').
  split; [exact Hr|]. split; [|split; [|split]].
  - unfold get_char_for_gray.
    destruct (getitem_in_range chars (gray_index v chars)) as [c Hc]; [lia|].
    now exists c.
  - unfold get_char_for_gray. rewrite gray_index_0.
    destruct (getitem_in_range chars 0) as [c Hc]; [lia|]. now exists c.
  - unfold get_char_for_gray. rewrite gray_index_255 by exact HK'.
    destruct (getitem_in_range chars (len chars - 1)) as [c Hc]; [lia|]. now exists c.
  - intros H40. apply gray_index_close; [exact Hv | subst K; lia].
Qed.

Lemma glyph_mapper_total_witness :
  (exists c, @get_char_for_gray exact_arithmetic 128 ASCII_CHARS = Ok c
             /\ String.get (Z.to_nat (@gray_index exact_arithmetic 128 ASCII_CHARS))
                           ASCII_CHARS = Some c)
  /\ @gray_index exact_arithmetic 128 ASCII_CHARS = spec_glyph_index 128 12.
Proof.
  assert (Hv : 0 <= 128 <= 255) by lia.
  assert (HK : 2 <= len ASCII_CHARS <= 2 ^ 53) by (vm_compute; split; discriminate).
  destruct (@glyph_mapper_total exact_arithmetic 128 ASCII_CHARS Hv HK)
    as (_ & Hc & _ & _ & Hclose).
  split; [exact Hc|].
  apply Hclose; vm_compute; discriminate.
Defined.

(** C6: the mapper is monotone: for brightness values v1 <= v2 in
    [0, 255] the index computed for v1 is at most the index for v2. *)
Theorem glyph_mapper_monotone {R : Rounding} (v1 v2 : Z) (chars : string) :
  0 <= v1 <= 255 -> 0 <= v2 <= 255 -> 1 <= len chars ->
  v1 <= v2 ->
  gray_index v1 chars <= gray_index v2 chars.
Proof.
  intros H1 H2 HK H12. unfold gray_index, fmul.
  assert (Hk : (0 <= float (len chars - 1))%Q) by (apply float_nonneg; lia).
  assert (Hd : (0 <= np_div v1 255)%Q).
  { rewrite <- np_div_0. apply np_div_le. lia. }
  apply py_int_le.
  - apply fl_nonneg. now apply Qmult_le_0_compat.
  - apply fl_monotone. apply Qmult_le_compat_r; [now apply np_div_le | exact Hk].
Qed.

Lemma glyph_mapper_monotone_witness :
  @gray_index exact_arithmetic 100 ASCII_CHARS <= @gray_index exact_arithmetic 200 ASCII_CHARS.
Proof.
  apply (@glyph_mapper_monotone exact_arithmetic 100 200 ASCII_CHARS).
  - lia.
  - lia.
  - vm_compute. discriminate.
  - lia.
Defined.

(** ** The luminance sampler *)

Lemma Qeq_bool_pos (x : Q) : (0 < x)%Q -> Qeq_bool x 0 = false.
Proof.
  intros H. destruct (Qeq_bool x 0) eqn:E; [|reflexivity].
  apply Qeq_bool_eq in E. rewrite E in H. discriminate.
Qed.

Section SamplerFacts.

Context {R : Rounding}.

Lemma truediv_pos (a b : Z) :
  0 < a -> 0 < b ->
  truediv a b = Ok (fl (inject_Z a / inject_Z b)) /\ (0 < fl (inject_Z a / inject_Z b))%Q.
Proof.
  intros Ha Hb. unfold truediv.
  replace (b =? 0) with false by (symmetry; apply Z.eqb_neq; lia).
  split; [reflexivity|]. apply fl_pos.
  apply Qlt_shift_div_l.
  - change 0%Q with (inject_Z 0). rewrite <- Zlt_Qlt. lia.
  - rewrite Qmult_0_l. change 0%Q with (inject_Z 0). rewrite <- Zlt_Qlt. lia.
Qed.

Lemma fdiv_pos (a b : Q) :
  (0 <= a)%Q -> (0 < b)%Q -> fdiv a b = Ok (fl (a / b)) /\ (0 <= fl (a / b))%Q.
Proof.
  intros Ha Hb. unfold fdiv. rewrite Qeq_bool_pos by exact Hb.
  split; [reflexivity|]. apply fl_nonneg.
  apply Qle_shift_div_l; [exact Hb|]. now rewrite Qmult_0_l.
Qed.

Lemma fdiv_pos_pos (a b : Q) :
  (0 < a)%Q -> (0 < b)%Q -> fdiv a b = Ok (fl (a / b)) /\ (0 < fl (a / b))%Q.
Proof.
  intros Ha Hb. unfold fdiv. rewrite Qeq_bool_pos by exact Hb.
  split; [reflexivity|]. apply fl_pos.
  apply Qlt_shift_div_l; [exact Hb|]. now rewrite Qmult_0_l.
Qed.

Lemma glyph_row (row : Z -> byte) (n : Z) (chars : string) :
  1 <= len chars <= 2 ^ 53 ->
  exists cs,
    comprehension (fun c => get_char_for_gray (uint8 (row c)) chars) (range n) = Ok cs
    /\ List.length cs = Z.to_nat n.
Proof.
  intros HK.
  destruct (comprehension_ok
              (fun c => get_char_for_gray (uint8 (row c)) chars)
              (fun _ => True) (range n)) as [cs [Hcs [Hl _]]].
  - intros c _.
    assert (Hr := gray_index_range (uint8 (row c)) chars (uint8_range _) HK).
    destruct (getitem_in_range chars (gray_index (uint8 (row c)) chars))
      as [a [Ha _]]; [lia|].
    now exists a.
  - exists cs. rewrite length_range in Hl. now split.
Qed.

(** Two floats less than 1 apart have floors at most 1 apart. *)
Lemma Qfloor_close (x y : Q) :
  (y < x + 1)%Q -> (x < y + 1)%Q -> Qfloor x - 1 <= Qfloor y <= Qfloor x + 1.
Proof.
  intros H1 H2.
  assert (A1 := Qfloor_le x). assert (A2 := Qlt_floor x).
  assert (B1 := Qfloor_le y). assert (B2 := Qlt_floor y).
  rewrite inject_Z_plus in A2, B2. change (inject_Z 1) with 1%Q in A2, B2.
  split.
  - assert (L : (inject_Z (Qfloor x) < inject_Z (Qfloor y + 2))%Q).
    { rewrite inject_Z_plus. change (inject_Z 2) with 2%Q. lra. }
    rewrite <- Zlt_Qlt in L. lia.
  - assert (L : (inject_Z (Qfloor y) < inject_Z (Qfloor x + 2))%Q).
    { rewrite inject_Z_plus. change (inject_Z 2) with 2%Q. lra. }
    rewrite <- Zlt_Qlt in L. lia.
Qed.

(** The row count the sampler computes and the exact one differ by at
    most one: the three roundings move a quotient of at most 2^48 by
    less than 1. *)
Lemma grid_rows_close (H W C : Z) (S : Q) :
  1 <= H <= 2 ^ 24 -> 1 <= W -> 1 <= C <= 2 ^ 24 -> (0 < S)%Q -> (S <= 1)%Q ->
  spec_rows H W C S - 1 <= grid_rows H W C S <= spec_rows H W C S + 1.
Proof.
  intros HH HW HC HS HS1.
  assert (Hh0 : (0 < inject_Z H)%Q)
    by (change 0%Q with (inject_Z 0); rewrite <- Zlt_Qlt; lia).
  assert (Hh1 : (inject_Z H <= inject_Z (2 ^ 24))%Q) by (rewrite <- Zle_Qle; lia).
  assert (Hw0 : (1 <= inject_Z W)%Q)
    by (change 1%Q with (inject_Z 1); rewrite <- Zle_Qle; lia).
  assert (Hc0 : (0 < inject_Z C)%Q)
    by (change 0%Q with (inject_Z 0); rewrite <- Zlt_Qlt; lia).
  assert (Hc1 : (inject_Z C <= inject_Z (2 ^ 24))%Q) by (rewrite <- Zle_Qle; lia).
  change (inject_Z (2 ^ 24)) with (16777216 # 1)%Q in Hh1, Hc1.
  assert (HfH : (float H == inject_Z H)%Q) by (apply fl_Z; lia).
  set (h := inject_Z H) in *. set (w := inject_Z W) in *. set (c := inject_Z C) in *.
  set (A := (w / c)%Q).
  assert (HA : (A * c == w)%Q) by (unfold A; field; lra).
  assert (HA0 : (0 < A)%Q).
  { unfold A. apply Qlt_shift_div_l; [exact Hc0|]. lra. }
  set (B := (A / S)%Q).
  assert (HB : (B * S == A)%Q) by (unfold B; field; lra).
  assert (HB0 : (0 < B)%Q).
  { unfold B. apply Qlt_shift_div_l; [exact HS|]. lra. }
  set (x := (h / B)%Q).
  assert (Hx : (x * B == h)%Q) by (unfold x; field; lra).
  assert (Hx0 : (0 <= x)%Q).
  { unfold x. apply Qle_shift_div_l; [exact HB0|]. lra. }
  (* the exact quotient is at most 2^48 *)
  assert (HBlow : (1 <= B * 16777216)%Q) by nra.
  assert (Hxup : (x <= 281474976710656)%Q) by nra.
  (* the three roundings *)
  set (t1 := fl A).
  assert (Ht1l := fl_lower A ltac:(lra)). assert (Ht1u := fl_upper A ltac:(lra)).
  fold t1 in Ht1l, Ht1u.
  assert (Ht1 : (0 < t1)%Q) by (apply fl_pos; exact HA0).
  assert (Hq2 : (0 < t1 / S)%Q).
  { apply Qlt_shift_div_l; [exact HS|]. lra. }
  set (t2 := fl (t1 / S)).
  assert (Ht2l := fl_lower (t1 / S) ltac:(lra)).
  assert (Ht2u := fl_upper (t1 / S) ltac:(lra)).
  fold t2 in Ht2l, Ht2u.
  assert (Ht2 : (0 < t2)%Q) by (apply fl_pos; exact Hq2).
  set (d := (t1 / S)%Q) in *.
  assert (Hd : (d * S == t1)%Q) by (unfold d; field; lra).
  assert (Hq3 : (0 < h / t2)%Q).
  { apply Qlt_shift_div_l; [exact Ht2|]. lra. }
  set (e := (h / t2)%Q) in *.
  assert (He : (e * t2 == h)%Q) by (unfold e; field; lra).
  set (q := fl e).
  assert (Hql := fl_lower e ltac:(lra)). assert (Hqu := fl_upper e ltac:(lra)).
  fold q in Hql, Hqu.
  assert (Hq0 : (0 <= q)%Q) by (apply fl_nonneg; lra).
  rewrite unit_roundoff_value in *.
  assert (Hgr : grid_rows H W C S = Z.max 1 (Qfloor q)).
  { unfold grid_rows. fold w c A t1. fold d t2.
    assert (Eq : (fl (float H / t2) == q)%Q).
    { unfold q, e. apply fl_compat. now rewrite HfH. }
    rewrite py_int_floor by (rewrite Eq; exact Hq0).
    now rewrite (Qfloor_comp _ _ Eq). }
  assert (Hsr : spec_rows H W C S = Z.max 1 (Qfloor x)).
  { unfold spec_rows. reflexivity. }
  rewrite Hgr, Hsr.
  assert (Hlo2 : (B * ((1 - (1 # 9007199254740992)) * (1 - (1 # 9007199254740992))) <= t2)%Q).
  { apply (proj1 (Qmult_le_r _ _ S HS)). nra. }
  assert (Hup2 : (t2 <= B * ((1 + (1 # 9007199254740992)) * (1 + (1 # 9007199254740992))))%Q).
  { apply (proj1 (Qmult_le_r _ _ S HS)). nra. }
  assert (He0 : (0 <= e)%Q) by lra.
  assert (Heup : (e * ((1 - (1 # 9007199254740992)) * (1 - (1 # 9007199254740992))) <= x)%Q).
  { apply (proj1 (Qmult_le_r _ _ B HB0)). nra. }
  assert (Helo : (x <= e * ((1 + (1 # 9007199254740992)) * (1 + (1 # 9007199254740992))))%Q).
  { apply (proj1 (Qmult_le_r _ _ B HB0)). nra. }
  assert (Hc : Qfloor x - 1 <= Qfloor q <= Qfloor x + 1).
  { apply Qfloor_close; nra. }
  lia.
Qed.
End SamplerFacts.

(** C2, as stated: the row count is not always the exact
    max(1, floor(H / ((W / C) / S))).  For a frame 6 high and 1 wide
    sampled at 75 columns with scale 0.5 (a value binary64 holds
    exactly) the exact quotient is 225; in binary64 the three divisions
    give a float just below 225, and the sampler returns 224 rows.
    Likewise a frame of 80 x 80 at 100 columns with the default scale
    0.43 gives 42 rows where the formula gives 43, while at 100 x 100
    the same computation does give 43. *)
Lemma grid_rows_below_formula :
  Binary64.new_h 6 1 75 Binary64.scale_05 = Some 224
  /\ spec_rows 6 1 75 (1 # 2) = 225
  /\ Binary64.new_h 80 80 100 Binary64.scale_043 = Some 42
  /\ spec_rows 80 80 100 (43 # 100) = 43
  /\ Binary64.new_h 100 100 100 Binary64.scale_043 = Some 43.
Proof. repeat split; vm_compute; reflexivity. Qed.

(** C2, amended: for a grayscale frame of height H >= 1 and width
    W >= 1, a column count C >= 1 and a scale factor S > 0, the sampler
    returns a grid of exactly C columns and exactly
    max(1, int(H / ((W / C) / S))) rows, where each of the three
    divisions is rounded to a float; a computed row count of 0 yields
    one row.  For H and C up to 2^24 and S <= 1 that row count differs
    from the exact max(1, floor(H / ((W / C) / S))) by at most one. *)
Theorem sampler_grid_shape {R : Rounding} (inter_area : Kernel)
        (frame_gray : GrayFrame) (H W C : Z) (S : Q) (chars : string) :
  shape frame_gray = (H, W) ->
  1 <= H -> 1 <= W -> 1 <= C -> (0 < S)%Q ->
  1 <= len chars <= 2 ^ 53 ->
  exists lines,
    frame_to_ascii_lines inter_area frame_gray C S chars = Ok lines
    /\ Z.of_nat (List.length lines) = grid_rows H W C S
    /\ Forall (fun line => len line = C) lines
    /\ (py_int (fl (float H / fl (fl (inject_Z W / inject_Z C) / S))) = 0 ->
        List.length lines = 1%nat)
    /\ (H <= 2 ^ 24 -> C <= 2 ^ 24 -> (S <= 1)%Q ->
        spec_rows H W C S - 1 <= Z.of_nat (List.length lines) <= spec_rows H W C S + 1).
Proof.
  intros Hshape HH HW HC HS HK.
  unfold frame_to_ascii_lines. rewrite Hshape.
  destruct (truediv_pos W C) as [E1 P1]; [lia | lia |]. rewrite E1; simpl.
  destruct (fdiv_pos_pos _ S P1 HS) as [E2 P2]. rewrite E2; simpl.
  destruct (fdiv_pos (float H) _ (float_nonneg H ltac:(lia)) P2) as [E3 P3].
  rewrite E3; simpl.
  set (q := fl (float H / fl (fl (inject_Z W / inject_Z C) / S))) in *.
  assert (Hq0 : 0 <= py_int q) by now apply py_int_nonneg.
  unfold cv2_resize. rewrite Hshape.
  replace ((H <=? 0) || (W <=? 0) || (C <=? 0) || (Z.max 1 (py_int q) <=? 0))
    with false.
  2:{ symmetry. rewrite !orb_false_iff. repeat split; apply Z.leb_gt; lia. }
  simpl.
  match goal with
  | |- exists lines, comprehension ?f ?xs = _ /\ _ =>
      destruct (comprehension_ok f (fun line => len line = C) xs)
        as [lines [Hl [Hn HP]]]
  end.
  - intros r _.
    match goal with
    | |- context [comprehension (fun c => get_char_for_gray (uint8 (@?row c)) chars)] =>
        destruct (glyph_row row C chars HK) as [cs [Hcs Hlen]]
    end.
    exists (join cs). rewrite Hcs; simpl. split; [reflexivity|].
    unfold len. rewrite length_join, Hlen. lia.
  - exists lines. rewrite length_range in Hn.
    assert (Hrows : Z.of_nat (List.length lines) = grid_rows H W C S).
    { unfold grid_rows. fold q. rewrite Hn. lia. }
    split; [exact Hl|]. split; [exact Hrows|]. split; [exact HP|]. split.
    + intros Hz. rewrite Hn, Hz. reflexivity.
    + intros HH' HC' HS'. rewrite Hrows. apply grid_rows_close; auto; lia.
Qed.

(** ** The raster renderer *)

Lemma make_even_spec (n : Z) :
  Z.even (make_even n) = true /\ n <= make_even n <= n + 1.
Proof.
  unfold make_even. destruct (n mod 2 =? 0) eqn:E; simpl.
  - apply Z.eqb_eq in E. split; [|lia].
    rewrite Z.even_spec. exists (n / 2). rewrite (Z.div_mod n 2) at 1 by lia. lia.
  - apply Z.eqb_neq in E. split; [|lia].
    assert (Hm := Z.mod_pos_bound n 2 ltac:(lia)).
    rewrite Z.even_spec. exists (n / 2 + 1). rewrite (Z.div_mod n 2) at 1 by lia. lia.
Qed.

Lemma make_even_pos (n : Z) : 0 < n -> 0 < make_even n.
Proof. intros H. destruct (make_even_spec n) as [_ ?]. lia. Qed.

Lemma char_w_pos (font : Font) : 0 < char_w font.
Proof.
  unfold char_w. destruct (textbbox font "M") as [[[x0 y0] x1] y1].
  destruct (x1 - x0 <=? 0) eqn:E; [lia | apply Z.leb_gt in E; lia].
Qed.

Lemma char_h_pos (font : Font) : 0 < char_h font.
Proof.
  unfold char_h. destruct (textbbox font "M") as [[[x0 y0] x1] y1].
  destruct (y1 - y0 <=? 0) eqn:E; [lia | apply Z.leb_gt in E; lia].
Qed.

Lemma char_w_measured (font : Font) (x0 y0 x1 y1 : Z) :
  textbbox font "M" = (x0, y0, x1, y1) ->
  char_w font = (if 0 <? x1 - x0 then x1 - x0 else 8).
Proof.
  intros E. unfold char_w. rewrite E.
  destruct (x1 - x0 <=? 0) eqn:E1; destruct (0 <? x1 - x0) eqn:E2; try reflexivity;
    [apply Z.leb_le in E1; apply Z.ltb_lt in E2 | apply Z.leb_gt in E1; apply Z.ltb_ge in E2];
    lia.
Qed.

Lemma char_h_measured (font : Font) (x0 y0 x1 y1 : Z) :
  textbbox font "M" = (x0, y0, x1, y1) ->
  char_h font = (if 0 <? y1 - y0 then y1 - y0 else 16).
Proof.
  intros E. unfold char_h. rewrite E.
  destruct (y1 - y0 <=? 0) eqn:E1; destruct (0 <? y1 - y0) eqn:E2; try reflexivity;
    [apply Z.leb_le in E1; apply Z.ltb_lt in E2 | apply Z.leb_gt in E1; apply Z.ltb_ge in E2];
    lia.
Qed.

(** [fold_left Z.max] computes an upper bound that is attained. *)
Lemma fold_max_bound (xs : list Z) (a : Z) :
  a <= fold_left Z.max xs a /\ (forall x, In x xs -> x <= fold_left Z.max xs a).
Proof.
  revert a; induction xs as [|x xs IH]; intros a; simpl.
  - split; [lia | tauto].
  - destruct (IH (Z.max a x)) as [H1 H2]. split; [lia|].
    intros y [<-|Hy]; [lia | now apply H2].
Qed.

Lemma fold_max_attained (xs : list Z) (a : Z) :
  fold_left Z.max xs a = a \/ In (fold_left Z.max xs a) xs.
Proof.
  revert a; induction xs as [|x xs IH]; intros a; simpl; [now left|].
  destruct (IH (Z.max a x)) as [H|H]; [|now right; right].
  rewrite H. destruct (Z.max_spec a x) as [[_ ->]|[_ ->]]; [right; now left | now left].
Qed.

Lemma max_cols_nil : max_cols [] = 1.
Proof. reflexivity. Qed.

Lemma max_cols_longest (lines : list string) :
  lines <> [] ->
  (forall l, In l lines -> len l <= max_cols lines)
  /\ (exists l, In l lines /\ len l = max_cols lines).
Proof.
  destruct lines as [|l0 rest]; [congruence|]; intros _.
  unfold max_cols, max_default; simpl map.
  destruct (fold_max_bound (map len rest) (len l0)) as [H1 H2].
  split.
  - intros l [<-|Hl]; [exact H1|]. apply H2. now apply in_map.
  - destruct (fold_max_attained (map len rest) (len l0)) as [H|H].
    + exists l0. split; [now left | now rewrite H].
    + apply in_map_iff in H. destruct H as [l [Hl Hin]]. exists l. split; [now right | exact Hl].
Qed.

Lemma max_cols_nonneg (lines : list string) : 0 <= max_cols lines.
Proof.
  destruct lines as [|l0 rest]; [rewrite max_cols_nil; lia|].
  destruct (max_cols_longest (l0 :: rest)) as [H _]; [discriminate|].
  specialize (H l0 (or_introl eq_refl)). unfold len in *. lia.
Qed.

Lemma max_cols_uniform (lines : list string) (C : Z) :
  lines <> [] -> Forall (fun l => len l = C) lines -> max_cols lines = C.
Proof.
  intros Hne HC. destruct (max_cols_longest lines Hne) as [_ [l [Hin Hl]]].
  rewrite Forall_forall in HC. rewrite <- Hl. now apply HC.
Qed.

Lemma length_draw_lines (lines : list string) font fg padding y :
  List.length (draw_lines lines font fg padding y) = List.length lines.
Proof.
  revert y; induction lines as [|l rest IH]; intros y; simpl; [reflexivity | now rewrite IH].
Qed.

Lemma render_ok (lines : list string) (font : Font) (bg fg : Color) (padding : Z) :
  0 <= padding ->
  exists img,
    render_ascii_to_image lines font bg fg padding = Ok img
    /\ im_size img = (make_even (char_w font * max_cols lines + padding * 2),
                      make_even (char_h font * rows lines + padding * 2))
    /\ List.length (im_text img) = List.length lines.
Proof.
  intros Hp. unfold render_ascii_to_image, Image_new.
  assert (Hc := max_cols_nonneg lines).
  assert (Hw := char_w_pos font). assert (Hh := char_h_pos font).
  assert (Hr : 1 <= rows lines) by (unfold rows; lia).
  destruct (make_even_spec (char_w font * max_cols lines + padding * 2)) as [_ Hw'].
  destruct (make_even_spec (char_h font * rows lines + padding * 2)) as [_ Hh'].
  replace (make_even (char_w font * max_cols lines + padding * 2) <? 0) with false
    by (symmetry; apply Z.ltb_ge; nia).
  replace (make_even (char_h font * rows lines + padding * 2) <? 0) with false
    by (symmetry; apply Z.ltb_ge; nia).
  simpl. eexists. split; [reflexivity|]. simpl. split; [reflexivity|].
  apply length_draw_lines.
Qed.

Lemma render_positive (lines : list string) (font : Font) (bg fg : Color) (padding : Z) :
  1 <= padding ->
  exists img,
    render_ascii_to_image lines font bg fg padding = Ok img
    /\ im_size img = (make_even (char_w font * max_cols lines + padding * 2),
                      make_even (char_h font * rows lines + padding * 2))
    /\ 0 < fst (im_size img) /\ 0 < snd (im_size img)
    /\ Z.even (fst (im_size img)) = true /\ Z.even (snd (im_size img)) = true
    /\ List.length (im_text img) = List.length lines.
Proof.
  intros Hp.
  destruct (render_ok lines font bg fg padding ltac:(lia)) as [img [Himg [Hsz Htxt]]].
  exists img. split; [exact Himg|]. split; [exact Hsz|].
  rewrite Hsz; simpl.
  assert (Hc := max_cols_nonneg lines).
  assert (Hw := char_w_pos font). assert (Hh := char_h_pos font).
  assert (Hr : 1 <= rows lines) by (unfold rows; lia).
  destruct (make_even_spec (char_w font * max_cols lines + padding * 2)) as [He Hb].
  destruct (make_even_spec (char_h font * rows lines + padding * 2)) as [He' Hb'].
  repeat split; try assumption; nia.
Qed.

(** C3: for a fixed font, a fixed padding and a glyph grid of R rows of C
    characters, the renderer returns an image of size
    (char_w * C + 2 * padding, char_h * R + 2 * padding), each side moved
    up to the next even number, where char_w and char_h are the measured
    cell sides or 8 and 16 when the measure is not positive; both sides
    are even, and any grid of the same shape rendered with the same font
    and padding gives an image of the same size. *)
Theorem renderer_canvas_size
        (lines : list string) (font : Font) (bg fg : Color) (padding : Z) (R C : Z) :
  0 <= padding ->
  1 <= R -> Z.of_nat (List.length lines) = R ->
  Forall (fun line => len line = C) lines ->
  let w := char_w font * C + 2 * padding in
  let h := char_h font * R + 2 * padding in
  exists img,
    render_ascii_to_image lines font bg fg padding = Ok img
    /\ im_size img = (make_even w, make_even h)
    /\ (w <= fst (im_size img) <= w + 1 /\ Z.even (fst (im_size img)) = true)
    /\ (h <= snd (im_size img) <= h + 1 /\ Z.even (snd (im_size img)) = true)
    /\ (forall x0 y0 x1 y1, textbbox font "M" = (x0, y0, x1, y1) ->
        char_w font = (if 0 <? x1 - x0 then x1 - x0 else 8)
        /\ char_h font = (if 0 <? y1 - y0 then y1 - y0 else 16))
    /\ (forall lines' bg' fg',
           Z.of_nat (List.length lines') = R ->
           Forall (fun line => len line = C) lines' ->
           exists img', render_ascii_to_image lines' font bg' fg' padding = Ok img'
                        /\ im_size img' = im_size img).
Proof.
  intros Hp HR Hlen HC w h.
  assert (Hsize : forall ls, Z.of_nat (List.length ls) = R ->
                             Forall (fun line => len line = C) ls ->
                             char_w font * max_cols ls + padding * 2 = w
                             /\ char_h font * rows ls + padding * 2 = h).
  { intros ls Hl Hu. rewrite (max_cols_uniform ls C); [| |exact Hu].
    - unfold rows. rewrite Hl, Z.max_r by lia. subst w h. lia.
    - destruct ls; [simpl in Hl; lia | discriminate]. }
  destruct (render_ok lines font bg fg padding Hp) as [img [Himg [Hsz _]]].
  destruct (Hsize lines Hlen HC) as [Ew Eh]. rewrite Ew, Eh in Hsz.
  exists img. split; [exact Himg|]. split; [exact Hsz|].
  rewrite Hsz; simpl.
  destruct (make_even_spec w) as [He Hb]. destruct (make_even_spec h) as [He' Hb'].
  split; [now split|]. split; [now split|]. split.
  - intros x0 y0 x1 y1 E. split; [eapply char_w_measured | eapply char_h_measured]; exact E.
  - intros lines' bg' fg' Hl' Hu'.
    destruct (render_ok lines' font bg' fg' padding Hp) as [img' [Himg' [Hsz' _]]].
    destruct (Hsize lines' Hl' Hu') as [Ew' Eh']. rewrite Ew', Eh' in Hsz'.
    exists img'. split; [exact Himg' | exact Hsz'].
Qed.

(** C10, as stated: for the one-line grid [[""]] the column count is the
    length of the longest line, 0, not at least 1; rendered without
    padding, the image is 0 pixels wide. *)
Lemma renderer_blank_line_columns :
  max_cols [""] = 0
  /\ ~ (1 <= max_cols [""])
  /\ exists img,
       render_ascii_to_image [""] {| textbbox := fun _ => (0, 0, 7, 9) |} black white 0
       = Ok img
       /\ fst (im_size img) = 0.
Proof.
  split; [reflexivity|]. split; [vm_compute; intros H; now apply H|].
  eexists. split; reflexivity.
Qed.

(** C10, amended: the renderer is total over arbitrary lists of lines,
    empty and ragged ones included: it uses max(1, number of lines) rows
    and as many columns as the longest line has characters (1 for the
    empty list, possibly 0 when every line is empty), and with a padding
    of at least 1 (the default is 6) it returns an image with strictly
    positive, even sides on which every line is drawn. *)
Theorem renderer_total
        (lines : list string) (font : Font) (bg fg : Color) (padding : Z) :
  1 <= padding ->
  exists img,
    render_ascii_to_image lines font bg fg padding = Ok img
    /\ im_size img = (make_even (char_w font * max_cols lines + padding * 2),
                      make_even (char_h font * rows lines + padding * 2))
    /\ rows lines = Z.max 1 (Z.of_nat (List.length lines))
    /\ (lines = [] -> max_cols lines = 1)
    /\ (lines <> [] ->
        (forall l, In l lines -> len l <= max_cols lines)
        /\ exists l, In l lines /\ len l = max_cols lines)
    /\ 0 < fst (im_size img) /\ 0 < snd (im_size img)
    /\ Z.even (fst (im_size img)) = true /\ Z.even (snd (im_size img)) = true
    /\ List.length (im_text img) = List.length lines.
Proof.
  intros Hp.
  destruct (render_positive lines font bg fg padding Hp)
    as [img [Himg [Hsz [Hw [Hh [Hew [Heh Htxt]]]]]]].
  exists img. split; [exact Himg|]. split; [exact Hsz|]. split; [reflexivity|].
  split; [intros ->; reflexivity|]. split; [apply max_cols_longest|].
  repeat split; assumption.
Qed.

(** ** Fitting a frame to the canvas *)

Lemma fmin_le_l (a b : Q) : (fmin a b <= a)%Q.
Proof.
  unfold fmin. destruct (Qle_bool a b) eqn:E; [apply Qle_refl|].
  destruct (Qlt_le_dec a b) as [H|H]; [|exact H].
  apply Qlt_le_weak in H. apply Qle_bool_iff in H. congruence.
Qed.

Lemma fmin_le_r (a b : Q) : (fmin a b <= b)%Q.
Proof.
  unfold fmin. destruct (Qle_bool a b) eqn:E; [now apply Qle_bool_iff | apply Qle_refl].
Qed.

Lemma fmin_pos (a b : Q) : (0 < a)%Q -> (0 < b)%Q -> (0 < fmin a b)%Q.
Proof. intros Ha Hb. unfold fmin. now destruct (Qle_bool a b). Qed.

Lemma Qle_bool_pos (x : Q) : (0 < x)%Q -> Qle_bool x 0 = false.
Proof.
  intros H. destruct (Qle_bool x 0) eqn:E; [|reflexivity].
  apply Qle_bool_iff in E. exfalso. now apply (Qlt_not_le _ _ H).
Qed.

Section CanvasFacts.

Context {R : Rounding}.

(** Scaling a side [a] by a factor that is at most [fl (b / a)] gives at
    most [b] pixels: two roundings cannot add a whole pixel. *)
Lemma scaled_side_le (a b : Z) (s : Q) :
  1 <= a <= 2 ^ 31 -> 1 <= b <= 2 ^ 31 ->
  (0 < s)%Q -> (s <= fl (inject_Z b / inject_Z a))%Q ->
  1 <= Z.max 1 (py_int (fmul (float a) s)) <= b.
Proof.
  intros Ha Hb Hs Hle.
  assert (Ha' : (0 < inject_Z a)%Q)
    by (change 0%Q with (inject_Z 0); rewrite <- Zlt_Qlt; lia).
  assert (Hb' : (0 < inject_Z b)%Q)
    by (change 0%Q with (inject_Z 0); rewrite <- Zlt_Qlt; lia).
  assert (Hb2 : (inject_Z b <= inject_Z (2 ^ 31))%Q) by (rewrite <- Zle_Qle; lia).
  assert (Hfa : (float a == inject_Z a)%Q) by (apply fl_Z; lia).
  assert (Hq : (0 <= inject_Z b / inject_Z a)%Q).
  { apply Qle_shift_div_l; [exact Ha'|]. rewrite Qmult_0_l. now apply Qlt_le_weak. }
  assert (Hsx := fl_upper _ Hq).
  assert (Hprod : (inject_Z a * s <= inject_Z b * (1 + unit_roundoff))%Q).
  { apply Qle_trans with (inject_Z a * (inject_Z b / inject_Z a * (1 + unit_roundoff)))%Q.
    - rewrite !(Qmult_comm (inject_Z a)).
      apply Qmult_le_compat_r; [|now apply Qlt_le_weak].
      now apply Qle_trans with (fl (inject_Z b / inject_Z a)).
    - assert (E : (inject_Z a * (inject_Z b / inject_Z a * (1 + unit_roundoff))
                   == inject_Z b * (1 + unit_roundoff))%Q).
      { field. intros E. rewrite E in Ha'. discriminate. }
      rewrite E. apply Qle_refl. }
  assert (Hp0 : (0 <= inject_Z a * s)%Q).
  { apply Qmult_le_0_compat; now apply Qlt_le_weak. }
  assert (Ht := fl_upper _ Hp0).
  assert (Ht0 := fl_nonneg _ Hp0).
  unfold fmul. assert (Hc : (fl (float a * s) == fl (inject_Z a * s))%Q).
  { apply fl_compat. now rewrite Hfa. }
  split; [lia|].
  apply Z.max_lub; [lia|].
  apply Z.lt_succ_r. apply py_int_lt_Z.
  - rewrite Hc. exact Ht0.
  - rewrite Hc. unfold Z.succ. rewrite inject_Z_plus.
    apply Qle_lt_trans with (inject_Z a * s * (1 + unit_roundoff))%Q; [exact Ht|].
    apply Qle_lt_trans
      with (inject_Z b * (1 + unit_roundoff) * (1 + unit_roundoff))%Q.
    + apply Qmult_le_compat_r; [exact Hprod|]. rewrite unit_roundoff_value. lra.
    + change (inject_Z (2 ^ 31)) with (2147483648 # 1)%Q in Hb2.
      change (inject_Z 1) with 1%Q.
      rewrite unit_roundoff_value. lra.
Qed.

End CanvasFacts.

Lemma assign_block_shape (canvas src out : ColorFrame) (y0 y1 x0 x1 : Z) :
  assign_block canvas y0 y1 x0 x1 src = Ok out -> shape out = shape canvas.
Proof.
  unfold assign_block. destruct (shape canvas) as [ch cw], (shape src) as [sh sw].
  match goal with |- context [if ?b then _ else _] => destruct b end; [|discriminate].
  intros E. injection E as <-. reflexivity.
Qed.

Lemma assign_block_inside (canvas src : ColorFrame) (ch cw y x h w : Z) :
  shape canvas = (ch, cw) -> shape src = (h, w) ->
  0 <= y -> 0 <= x -> 1 <= h -> 1 <= w -> y + h <= ch -> x + w <= cw ->
  exists out,
    assign_block canvas y (y + h) x (x + w) src = Ok out
    /\ shape out = (ch, cw)
    /\ forall r c,
         sample out r c
         = if (y <=? r) && (r <? y + h) && (x <=? c) && (c <? x + w)
           then sample src (r - y) (c - x)
           else sample canvas r c.
Proof.
  intros Hc Hs Hy Hx Hh Hw Hyh Hxw. unfold assign_block. rewrite Hc, Hs.
  unfold slice_bound.
  replace (y <? 0) with false by (symmetry; apply Z.ltb_ge; lia).
  replace (x <? 0) with false by (symmetry; apply Z.ltb_ge; lia).
  replace (y + h <? 0) with false by (symmetry; apply Z.ltb_ge; lia).
  replace (x + w <? 0) with false by (symmetry; apply Z.ltb_ge; lia).
  rewrite (Z.min_l y ch), (Z.min_l (y + h) ch), (Z.min_l x cw), (Z.min_l (x + w) cw) by lia.
  rewrite (Z.max_r y (y + h)), (Z.max_r x (x + w)) by lia.
  replace (h =? y + h - y) with true by (symmetry; apply Z.eqb_eq; lia).
  replace (w =? x + w - x) with true by (symmetry; apply Z.eqb_eq; lia).
  simpl. eexists. split; [reflexivity|]. split; [reflexivity|].
  intros r c; simpl.
  destruct ((y <=? r) && (r <? y + h) && (x <=? c) && (c <? x + w)) eqn:E; [|reflexivity].
  rewrite !andb_true_iff in E. destruct E as [[[E1 E2] E3] E4].
  apply Z.leb_le in E1, E3. apply Z.ltb_lt in E2, E4.
  destruct (h =? 1) eqn:Eh; destruct (w =? 1) eqn:Ew;
    try apply Z.eqb_eq in Eh; try apply Z.eqb_eq in Ew;
    f_equal; lia.
Qed.

Section FitFacts.

Context {R : Rounding}.

(** Whatever [fit_to_canvas] returns has the size it was asked for. *)
Lemma fit_to_canvas_shape (inter_area : Kernel) (img_bgr out : ColorFrame)
      (out_w out_h : Z) :
  fit_to_canvas inter_area img_bgr out_w out_h = Ok out ->
  shape out = (out_h, out_w).
Proof.
  unfold fit_to_canvas. destruct (shape img_bgr) as [img_h img_w] eqn:Es.
  destruct ((img_w =? out_w) && (img_h =? out_h)) eqn:E; simpl.
  - intros H; injection H as <-. rewrite Es.
    apply andb_true_iff in E. destruct E as [E1 E2].
    apply Z.eqb_eq in E1, E2. now subst.
  - destruct (fit_scale img_w img_h out_w out_h) as [scale|]; [simpl|discriminate].
    match goal with
    | |- (_ <~ ?r ;; _) = _ -> _ => destruct r as [resized|]; [simpl|discriminate]
    end.
    unfold np_zeros. destruct ((out_h <? 0) || (out_w <? 0)); [discriminate|simpl].
    intros H. apply assign_block_shape in H. exact H.
Qed.

(** A frame that already has the canvas size is passed on unchanged. *)
Lemma fit_to_canvas_same (inter_area : Kernel) (img_bgr : ColorFrame) (w h : Z) :
  shape img_bgr = (h, w) -> fit_to_canvas inter_area img_bgr w h = Ok img_bgr.
Proof.
  intros Es. unfold fit_to_canvas. rewrite Es, !Z.eqb_refl. reflexivity.
Qed.

Lemma fit_scale_pos (img_w img_h out_w out_h : Z) :
  1 <= img_w -> 1 <= img_h -> 1 <= out_w -> 1 <= out_h ->
  exists scale,
    fit_scale img_w img_h out_w out_h = Ok scale
    /\ (0 < scale)%Q
    /\ (scale <= fl (inject_Z out_w / inject_Z img_w))%Q
    /\ (scale <= fl (inject_Z out_h / inject_Z img_h))%Q.
Proof.
  intros H1 H2 H3 H4. unfold fit_scale.
  destruct (truediv_pos out_w img_w) as [E1 P1]; [lia | lia |].
  destruct (truediv_pos out_h img_h) as [E2 P2]; [lia | lia |].
  rewrite E1, E2; simpl.
  rewrite Qle_bool_pos by now apply fmin_pos.
  eexists. split; [reflexivity|]. split; [now apply fmin_pos|].
  split; [apply fmin_le_l | apply fmin_le_r].
Qed.

(** A frame of another size is scaled by one factor for both sides, so
    that it fits, and pasted into the middle of a black canvas. *)
Lemma fit_to_canvas_letterbox (inter_area : Kernel) (img_bgr : ColorFrame)
      (img_w img_h out_w out_h : Z) :
  shape img_bgr = (img_h, img_w) ->
  1 <= img_w <= 2 ^ 31 -> 1 <= img_h <= 2 ^ 31 ->
  1 <= out_w <= 2 ^ 31 -> 1 <= out_h <= 2 ^ 31 ->
  (img_w, img_h) <> (out_w, out_h) ->
  exists scale new_w new_h resized canvas,
    fit_scale img_w img_h out_w out_h = Ok scale
    /\ new_w = Z.max 1 (py_int (fmul (float img_w) scale))
    /\ new_h = Z.max 1 (py_int (fmul (float img_h) scale))
    /\ 1 <= new_w <= out_w /\ 1 <= new_h <= out_h
    /\ (if (new_w =? img_w) && (new_h =? img_h) then resized = img_bgr
        else cv2_resize inter_area img_bgr (new_w, new_h) = Ok resized)
    /\ shape resized = (new_h, new_w)
    /\ fit_to_canvas inter_area img_bgr out_w out_h = Ok canvas
    /\ shape canvas = (out_h, out_w)
    /\ let x := (out_w - new_w) / 2 in
       let y := (out_h - new_h) / 2 in
       0 <= (out_w - new_w) - 2 * x <= 1
       /\ 0 <= (out_h - new_h) - 2 * y <= 1
       /\ forall r c,
            sample canvas r c
            = if (y <=? r) && (r <? y + new_h) && (x <=? c) && (c <? x + new_w)
              then sample resized (r - y) (c - x)
              else zero_pixel.
Proof.
  intros Es Hiw Hih How Hoh Hne.
  destruct (fit_scale_pos img_w img_h out_w out_h) as [scale [Esc [Hs [Hsx Hsy]]]];
    try lia.
  set (new_w := Z.max 1 (py_int (fmul (float img_w) scale))).
  set (new_h := Z.max 1 (py_int (fmul (float img_h) scale))).
  assert (Hnw : 1 <= new_w <= out_w) by now apply scaled_side_le.
  assert (Hnh : 1 <= new_h <= out_h) by now apply scaled_side_le.
  assert (Hres : exists resized,
             (if negb ((new_w =? img_w) && (new_h =? img_h))
              then cv2_resize inter_area img_bgr (new_w, new_h)
              else Ok img_bgr) = Ok resized
             /\ shape resized = (new_h, new_w)).
  { destruct ((new_w =? img_w) && (new_h =? img_h)) eqn:E; simpl.
    - exists img_bgr. split; [reflexivity|].
      apply andb_true_iff in E. destruct E as [E1 E2].
      apply Z.eqb_eq in E1, E2. rewrite Es. congruence.
    - unfold cv2_resize. rewrite Es.
      replace ((img_h <=? 0) || (img_w <=? 0) || (new_w <=? 0) || (new_h <=? 0))
        with false.
      2:{ symmetry. rewrite !orb_false_iff. repeat split; apply Z.leb_gt; lia. }
      eexists. split; reflexivity. }
  destruct Hres as [resized [Eres Hshape]].
  set (x := (out_w - new_w) / 2). set (y := (out_h - new_h) / 2).
  assert (Hx : 0 <= x /\ 0 <= (out_w - new_w) - 2 * x <= 1).
  { unfold x. assert (H := Z.div_mod (out_w - new_w) 2 ltac:(lia)).
    assert (H' := Z.mod_pos_bound (out_w - new_w) 2 ltac:(lia)).
    assert (0 <= (out_w - new_w) / 2) by (apply Z.div_pos; lia). lia. }
  assert (Hy : 0 <= y /\ 0 <= (out_h - new_h) - 2 * y <= 1).
  { unfold y. assert (H := Z.div_mod (out_h - new_h) 2 ltac:(lia)).
    assert (H' := Z.mod_pos_bound (out_h - new_h) 2 ltac:(lia)).
    assert (0 <= (out_h - new_h) / 2) by (apply Z.div_pos; lia). lia. }
  destruct (assign_block_inside
              {| shape := (out_h, out_w); sample := fun _ _ => zero_pixel |}
              resized out_h out_w y x new_h new_w)
    as [canvas [Ecv [Hcs Hpx]]]; try reflexivity; try assumption; try lia.
  exists scale, new_w, new_h, resized, canvas.
  split; [exact Esc|]. split; [reflexivity|]. split; [reflexivity|].
  split; [exact Hnw|]. split; [exact Hnh|]. split.
  { destruct ((new_w =? img_w) && (new_h =? img_h)); simpl in Eres;
      [now injection Eres | exact Eres]. }
  split; [exact Hshape|]. split.
  { unfold fit_to_canvas. rewrite Es.
    replace ((img_w =? out_w) && (img_h =? out_h)) with false.
    2:{ symmetry. apply andb_false_iff.
        destruct (Z.eqb_spec img_w out_w); [|now left].
        destruct (Z.eqb_spec img_h out_h); [|now right]. congruence. }
    simpl. rewrite Esc; simpl. fold new_w new_h. rewrite Eres; simpl.
    unfold np_zeros.
    replace ((out_h <? 0) || (out_w <? 0)) with false.
    2:{ symmetry. rewrite orb_false_iff. split; apply Z.ltb_ge; lia. }
    simpl. fold x y. exact Ecv. }
  split; [exact Hcs|].
  simpl. split; [apply Hx|]. split; [apply Hy|]. exact Hpx.
Qed.

End FitFacts.

(** ** A program logic for the pipeline monad *)

Lemma triple_ret {A} (P : State -> Prop) (a : A) E T :
  triple P (ret a) (fun b s => b = a /\ P s) E T.
Proof. intros s H. simpl. now split. Qed.

Lemma triple_bind {A B} (P : State -> Prop) (c : M A) (k : A -> M B)
      (Q' : A -> State -> Prop) (Q : B -> State -> Prop) E T :
  triple P c Q' E T ->
  (forall a, triple (Q' a) (k a) Q E T) ->
  triple P (bind c k) Q E T.
Proof.
  intros Hc Hk s Hs. unfold bind. specialize (Hc s Hs).
  destruct (c s) as [[a| |] s']; [now apply Hk | exact Hc | exact Hc].
Qed.

Lemma triple_weaken {A} (P P' : State -> Prop) (c : M A)
      (Q Q' : A -> State -> Prop) (E E' T T' : State -> Prop) :
  triple P' c Q' E' T' ->
  (forall s, P s -> P' s) ->
  (forall a s, Q' a s -> Q a s) ->
  (forall s, E' s -> E s) ->
  (forall s, T' s -> T s) ->
  triple P c Q E T.
Proof.
  intros H HP HQ HE HT s Hs. specialize (H s (HP s Hs)).
  destruct (c s) as [[a| |] s']; auto.
Qed.

Lemma triple_lift {A} (P : State -> Prop) (r : result A) T :
  triple P (lift r) (fun a s => r = Ok a /\ P s) P T.
Proof. intros s H. unfold lift. destruct r; [now split | exact H]. Qed.

Lemma triple_get_state (P : State -> Prop) E T :
  triple P get_state (fun a s => a = s /\ P s) E T.
Proof. intros s H. simpl. now split. Qed.

Lemma triple_modify (P Q : State -> Prop) (f : State -> State) E T :
  (forall s, P s -> Q (f s)) ->
  triple P (modify f) (fun _ s => Q s) E T.
Proof. intros H s Hs. simpl. now apply H. Qed.

Lemma triple_return {A} (P : State -> Prop) (Q : A -> State -> Prop) E :
  triple P return_ Q E P.
Proof. intros s H. exact H. Qed.

Section Logic.

Context {R : Rounding}.
Variable env : Env.

Lemma triple_step {A} (P : State -> Prop) (c : M A) Q E T :
  step_blind P ->
  (forall s, P s -> E s) ->
  triple P c Q E T ->
  triple P (step env c) Q E T.
Proof.
  intros Hb HE Hc s Hs. unfold step.
  assert (Hs' := Hb (S (st_steps s)) s Hs).
  destruct (interrupt env) as [n|]; [|now apply Hc].
  destruct (Nat.eqb n (st_steps s)); [now apply HE | now apply Hc].
Qed.

(** Under [interrupt env = None] a step is the statement itself. *)
Lemma triple_step_quiet {A} (P : State -> Prop) (c : M A) Q E T :
  interrupt env = None ->
  step_blind P ->
  triple P c Q E T ->
  triple P (step env c) Q E T.
Proof.
  intros Hi Hb Hc s Hs. unfold step. rewrite Hi. apply Hc. now apply Hb.
Qed.

Lemma closed_steps (s : State) : st_steps (closed s) = st_steps s.
Proof. unfold closed. now destruct (st_writer s). Qed.

Lemma closed_events (s : State) : st_events (closed s) = st_events s.
Proof. unfold closed. now destruct (st_writer s). Qed.

Lemma finally_closed (s : State) :
  (release_writer ;; cap_release) s = (Val tt, closed s).
Proof. unfold closed, bind, release_writer, cap_release, modify. now destruct (st_writer s). Qed.

(** [try/except/finally] as [convert_video] uses it: the final block
    runs last on every path, and a [KeyboardInterrupt] is absorbed. *)
Lemma triple_try (P : State -> Prop) (body : M unit) (e : event)
      (Q : unit -> State -> Prop) (E T : State -> Prop) :
  triple P body Q E T ->
  triple P (try_except_finally body (emit e) (release_writer ;; cap_release))
         (fun _ s => exists s1,
              (Q tt s1 /\ s = closed s1)
              \/ (E s1 /\ s = closed (set_events (st_events s1 ++ [e]) s1)))
         (fun s => exists s1, E s1 /\ s = closed s1)
         (fun s => exists s1, T s1 /\ s = closed s1).
Proof.
  intros Hb s Hs. specialize (Hb s Hs). unfold try_except_finally.
  destruct (body s) as [[[]|ex|] s1].
  - rewrite finally_closed. exists s1. now left.
  - destruct ex; try (rewrite finally_closed; now exists s1).
    unfold bind at 1. unfold emit at 1, modify at 1.
    rewrite finally_closed. exists s1. now right.
  - rewrite finally_closed. now exists s1.
Qed.

End Logic.

Ltac stab H :=
  repeat first
    [ assumption
    | apply (stable_steps _ H) | apply (stable_clock _ H) | apply (stable_events _ H)
    | apply (stable_last_time _ H) | apply (stable_writes _ H) | apply (stable_cap _ H)
    | apply (stable_release _ H); [|simpl; assumption] ].

Ltac branches :=
  repeat match goal with
         | |- context [if ?b then _ else _] => destruct b; simpl
         end.

Section Invariants.

Context {R : Rounding}.
Variable env : Env.
Variable I : State -> Prop.
Hypothesis HI : stable I.

Lemma stable_blind : step_blind I.
Proof. intros n s H. now apply (stable_steps _ HI). Qed.

Lemma stable_release_writer (s : State) :
  I s -> I (match st_writer s with
            | Some w => set_writer (Some (release w)) s
            | None => s
            end).
Proof.
  intros H. destruct (st_writer s) as [w|] eqn:E; [|exact H].
  now apply (stable_release _ HI).
Qed.

Lemma stable_closed (s : State) : I s -> I (closed s).
Proof. intros H. unfold closed. apply (stable_cap _ HI). now apply stable_release_writer. Qed.

Lemma play_frame_stable (frame_delay : Q) (lines : list string) T :
  triple I (play_frame env frame_delay lines) (fun _ => I) I T.
Proof.
  intros s Hs.
  unfold play_frame, bind, step, emit, modify, time_time, get_state, ret.
  destruct (interrupt env) as [n|]; simpl; branches; stab HI.
Qed.

Lemma merge_audio_stable (video_path audio_src output_path : string) T :
  triple I (merge_audio env video_path audio_src output_path) (fun _ => I) I T.
Proof.
  intros s Hs.
  unfold merge_audio, bind, step, emit, modify, ret, lift.
  destruct (which env "ffmpeg") as [exe|]; simpl.
  - destruct (interrupt env) as [n|]; simpl; branches;
      repeat match goal with
             | |- context [match ?c with Exited0 _ => _ | _ => _ end] =>
                 destruct c as [?|[?|] ?| |]; simpl
             end; stab HI.
  - destruct (interrupt env) as [n|]; simpl; branches; stab HI.
Qed.

Lemma finish_stable (input_path : string) (save_mode merge_audio_opt : bool) T :
  triple I (finish env input_path save_mode merge_audio_opt) (fun _ => I) I T.
Proof.
  intros s Hs.
  unfold finish, merge_audio, bind, step, emit, modify, ret, get_state,
    release_writer, cap_release, lift.
  destruct (st_writer s) as [w|] eqn:Ew;
    destruct save_mode, merge_audio_opt, (interrupt env) as [n|],
      (which env "ffmpeg") as [exe|];
    repeat (simpl; rewrite ?Ew;
            match goal with
            | |- context [if ?b then _ else _] => destruct b
            | |- context [match ?c with Exited0 _ => _ | _ => _ end] =>
                destruct c as [?|[?|] ?| |]
            end);
    simpl; rewrite ?Ew; stab HI.
Qed.

End Invariants.

Lemma set_events_same (s : State) : set_events (st_events s) s = s.
Proof. now destruct s. Qed.

(** Without a pending interrupt a statement just runs. *)
Lemma step_uninterrupted (env : Env) (quiet : interrupt env = None)
      {A} (c : M A) (s : State) :
  step env c s = c (set_steps (S (st_steps s)) s).
Proof. unfold step. rewrite quiet. reflexivity. Qed.

Lemma shape_image_to_bgr (raster : Image -> Z -> Z -> Pixel) (img : Image) (w h : Z) :
  im_size img = (w, h) -> shape (image_to_bgr raster img) = (h, w).
Proof. intros E. unfold image_to_bgr. rewrite E. reflexivity. Qed.

Lemma triple_ret_inv {A} (I : State -> Prop) (a : A) T :
  triple I (ret a) (fun _ => I) I T.
Proof. intros s H. exact H. Qed.

Lemma triple_lift_inv {A} (I : State -> Prop) (r : result A) T :
  triple I (lift r) (fun _ => I) I T.
Proof. intros s H. unfold lift. now destruct r. Qed.

Section Run.

Context {R : Rounding}.
Variable env : Env.

Section Loop.

Variables (I T : State -> Prop).
Hypothesis HI : stable I.
Variables (cols : Z) (fps frame_delay : Q) (font : Font) (save_mode : bool).
Hypothesis Hsave :
  save_mode = true ->
  forall lines, triple I (save_frame env fps font lines) (fun _ => I) I T.

Lemma loop_stable (frames : list ColorFrame) :
  triple I (loop env cols fps frame_delay font save_mode frames) (fun _ => I) I T.
Proof.
  assert (Hb := stable_blind I HI).
  induction frames as [|frame rest IH]; simpl.
  - apply triple_step; [exact Hb | auto | apply triple_ret_inv].
  - apply triple_bind with (Q' := fun _ => I).
    { apply triple_step; [exact Hb | auto | apply triple_ret_inv]. }
    intros _. apply triple_bind with (Q' := fun _ => I).
    { apply triple_step; [exact Hb | auto | apply triple_lift_inv]. }
    intros lines. apply triple_bind with (Q' := fun _ => I); [|intros _; exact IH].
    destruct save_mode; simpl.
    + now apply Hsave.
    + now apply play_frame_stable.
Qed.

End Loop.

Lemma try_body_stable (I T : State -> Prop) (cap : Video) (input_path : string)
      (cols : Z) (fps : Q) (font_size : Z) (save_mode merge_audio_opt : bool) :
  stable I ->
  (save_mode = true ->
   forall fps font lines, triple I (save_frame env fps font lines) (fun _ => I) I T) ->
  triple I (try_body env cap input_path cols fps font_size save_mode merge_audio_opt)
         (fun _ => I) I T.
Proof.
  intros HI Hsave. unfold try_body.
  apply triple_bind with (Q' := fun _ => I).
  - apply loop_stable; [exact HI|]. intros E lines. now apply Hsave.
  - intros _. now apply finish_stable.
Qed.

Lemma convert_video_open (cap : Video) (input_path output_path : string)
      (cols : Z) (fps : Q) (font_size : Z) (save_mode merge_audio_opt : bool) :
  VideoCapture env input_path = Some cap ->
  convert_video env input_path output_path cols fps font_size save_mode merge_audio_opt
  = try_except_finally
      (try_body env cap input_path cols fps font_size save_mode merge_audio_opt)
      (emit (print (nl ++ "Stopped by user.")))
      (release_writer ;; cap_release)
      (entry env output_path).
Proof. intros E. unfold convert_video. rewrite E. reflexivity. Qed.

Lemma convert_video_closed (cap : Video) (input_path output_path : string)
      (cols : Z) (fps : Q) (font_size : Z) (save_mode merge_audio_opt : bool)
      (Q : unit -> State -> Prop) (E T : State -> Prop) :
  VideoCapture env input_path = Some cap ->
  triple (fun s => s = entry env output_path)
         (try_body env cap input_path cols fps font_size save_mode merge_audio_opt)
         Q E T ->
  match convert_video env input_path output_path cols fps font_size
                      save_mode merge_audio_opt with
  | (Val _, s) =>
      exists s1, (Q tt s1 /\ s = closed s1)
                 \/ (E s1 /\ s = closed
                                   (set_events
                                      (st_events s1 ++ [print (nl ++ "Stopped by user.")])
                                      s1))
  | (Exc _, s) => exists s1, E s1 /\ s = closed s1
  | (Return, s) => exists s1, T s1 /\ s = closed s1
  end.
Proof.
  intros Hcap Hb. rewrite (convert_video_open cap) by exact Hcap.
  apply (triple_try _ _ _ _ _ _ Hb). reflexivity.
Qed.

End Run.

(** ** Releasing the handles *)

Lemma retired_released_stable : stable retired_released.
Proof. constructor; intros; assumption. Qed.

(** Symbolic execution of [open_writer] from a state whose fields are
    laid open. *)
Ltac execute env :=
  cbv [open_writer bind step lift ret get_state modify emit return_
       new_writer release_writer cap_release writer_isOpened release
       set_writer set_retired set_steps set_events set_cap_released set_output_path
       st_writer st_output_path st_last_time st_cap_released st_retired st_events
       st_steps st_clock st_writes vw_opened negb];
  destruct (interrupt env) as [?n|];
  repeat match goal with
         | |- context [if ?b then _ else _] => destruct b eqn:?
         end.

Section Release.

Context {R : Rounding}.
Variable env : Env.

Lemma open_writer_retired (fps : Q) (img_w img_h : Z) :
  triple (fun s => retired_released s /\ st_writer s = None)
         (open_writer env fps img_w img_h)
         (fun _ => retired_released) retired_released retired_released.
Proof.
  intros [w p t c r e n k m] [Hs Hw]. unfold retired_released in *.
  simpl in Hs, Hw. subst w.
  execute env; cbn [st_retired app]; rewrite ?app_nil_r; try assumption;
    apply Forall_app; (split; [assumption|]); repeat constructor.
Qed.

Lemma write_frame_retired (to_write : ColorFrame) T :
  triple retired_released (write_frame env to_write)
         (fun _ => retired_released) retired_released T.
Proof.
  intros s Hs. unfold retired_released in *.
  unfold write_frame, emit, modify.
  destruct (st_writer (set_writes (S (st_writes s)) s)) eqn:E;
    destruct (negb (write_raises env (st_writes s))); simpl; assumption.
Qed.

End Release.

Lemma triple_pure {A} (phi : Prop) (P : State -> Prop) (c : M A) Q E T :
  (phi -> triple P c Q E T) -> triple (fun s => phi /\ P s) c Q E T.
Proof. intros H s [Hphi Hs]. now apply H. Qed.

(** The glue of [save_frame], for an invariant [I] of the handles:
    [ready size out] is what holds once the writer and the canvas size
    [out] are known for a frame rendered at [size]. *)
Section SaveFrame.

Context {R : Rounding}.
Variable env : Env.
Variables (I T : State -> Prop).
Hypothesis HI : stable I.
Variables (fps : Q) (font : Font).

Variable ready : Z * Z -> Z * Z -> State -> Prop.
Hypothesis ready_blind : forall size out, step_blind (ready size out).
Hypothesis ready_I : forall size out s, ready size out s -> I s.

Hypothesis Hopen :
  forall img_w img_h,
    0 < img_w -> 0 < img_h ->
    triple (fun s => I s /\ st_writer s = None)
           (open_writer env fps img_w img_h)
           (fun out s => ready (img_w, img_h) out s) I T.
Hypothesis Hsize :
  forall w img_w img_h s,
    0 < img_w -> 0 < img_h ->
    I s -> st_writer s = Some w ->
    ready (img_w, img_h) (writer_size env w img_w img_h) s.
Hypothesis Hwrite :
  forall size out_w out_h to_write,
    shape to_write = (out_h, out_w) ->
    triple (ready size (out_w, out_h))
           (write_frame env to_write) (fun _ => I) I T.

Lemma save_frame_glue (lines : list string) :
  triple I (save_frame env fps font lines) (fun _ => I) I T.
Proof.
  assert (Hb := stable_blind I HI).
  unfold save_frame.
  eapply triple_bind.
  { apply triple_step; [exact Hb | auto | apply triple_lift]. }
  intros img. apply triple_pure. intros Himg.
  destruct (render_positive lines font black white default_padding)
    as [img0 [E0 [_ [Hw0 [Hh0 _]]]]]; [unfold default_padding; lia|].
  assert (img0 = img) by congruence. subst img0.
  unfold image_to_bgr. destruct (im_size img) as [img_w img_h] eqn:Esz.
  simpl in Hw0, Hh0. cbn [shape].
  eapply triple_bind; [apply triple_get_state|]. intros s0.
  apply triple_bind with (Q' := fun out s => ready (img_w, img_h) out s).
  { destruct (st_writer s0) as [w|] eqn:Ew.
    - intros s [-> Hs]. unfold step, ret.
      assert (Hr := Hsize w img_w img_h s Hw0 Hh0 Hs Ew).
      destruct (interrupt env) as [n|];
        [destruct (Nat.eqb n (st_steps s))|];
        first [now apply ready_blind | now apply Hb].
    - eapply triple_weaken; [apply (Hopen img_w img_h Hw0 Hh0) | | | | ]; auto.
      intros s [-> Hs]. now split. }
  intros [out_w out_h].
  eapply triple_bind.
  { apply triple_step; [apply ready_blind | apply ready_I |].
    eapply triple_weaken; [apply triple_lift | | | | ]; eauto. }
  intros to_write. apply triple_pure. intros Hfit.
  apply triple_step; [apply ready_blind | apply ready_I |].
  apply Hwrite. now apply fit_to_canvas_shape in Hfit.
Qed.

End SaveFrame.

Lemma closed_released (s : State) :
  retired_released s ->
  (1 <= st_cap_released (closed s))%nat
  /\ (forall w, st_writer (closed s) = Some w -> released w)
  /\ Forall released (st_retired (closed s)).
Proof.
  intros H. unfold closed. destruct (st_writer s) as [w0|] eqn:E; simpl.
  - split; [lia|]. split; [|exact H].
    intros w Hw. injection Hw as <-. unfold released; simpl. lia.
  - split; [lia|]. split; [|exact H]. rewrite E. discriminate.
Qed.

Section ReleaseRun.

Context {R : Rounding}.
Variable env : Env.

Lemma save_frame_retired (fps : Q) (font : Font) (lines : list string) :
  triple retired_released (save_frame env fps font lines)
         (fun _ => retired_released) retired_released retired_released.
Proof.
  apply save_frame_glue with (ready := fun _ _ => retired_released).
  - apply retired_released_stable.
  - intros _ _. apply (stable_blind _ retired_released_stable).
  - auto.
  - intros. apply open_writer_retired.
  - auto.
  - intros. apply write_frame_retired.
Qed.

End ReleaseRun.

(** C8: on every exit path of the pipeline (the loop ran to the end of
    the stream, the function returned after the writer failed to open, a
    KeyboardInterrupt or another exception ended the loop at any
    statement) the input source has been released, and so has every
    writer object that was created. *)
Theorem handles_released_on_exit {R : Rounding} (env : Env)
        (input_path output_path : string) (cols : Z) (fps : Q)
        (font_size : Z) (save_mode merge_audio_opt : bool) :
  let s := snd (convert_video env input_path output_path cols fps font_size
                              save_mode merge_audio_opt) in
  match VideoCapture env input_path with
  | Some cap =>
      (1 <= st_cap_released s)%nat
      /\ (forall w, st_writer s = Some w -> released w)
      /\ Forall released (st_retired s)
  | None => st_writer s = None /\ st_retired s = []
  end.
Proof.
  intros s. subst s.
  destruct (VideoCapture env input_path) as [cap|] eqn:Ecap.
  - assert (Hb : triple (fun s => s = entry env output_path)
                        (try_body env cap input_path cols fps font_size
                                  save_mode merge_audio_opt)
                        (fun _ => retired_released) retired_released retired_released).
    { eapply triple_weaken;
        [apply (try_body_stable env retired_released retired_released) | | | | ]; auto.
      - apply retired_released_stable.
      - intros _ fps' font lines. apply save_frame_retired.
      - intros s ->. constructor. }
    assert (H := convert_video_closed env cap input_path output_path cols fps font_size
                                      save_mode merge_audio_opt _ _ _ Ecap Hb).
    destruct (convert_video env input_path output_path cols fps font_size
                            save_mode merge_audio_opt) as [[[]|e|] s]; simpl.
    + destruct H as [s1 [[H1 ->]|[H1 ->]]]; apply closed_released;
        [exact H1 | now apply (stable_events _ retired_released_stable)].
    + destruct H as [s1 [H1 ->]]. now apply closed_released.
    + destruct H as [s1 [H1 ->]]. now apply closed_released.
  - unfold convert_video. rewrite Ecap. simpl. now split.
Qed.

(** ** The canvas invariant *)

Lemma canvas_invariant_stable : stable canvas_invariant.
Proof.
  constructor; try (intros; assumption).
  intros s w [H1 H2] Ew. split; [|exact H2].
  simpl. intros w' E. injection E as <-. exact (H1 w Ew).
Qed.

Section CanvasRun.

Context {R : Rounding}.
Variable env : Env.

Lemma reported_size (w : VideoWriter) :
  reports_size env ->
  reported env w CAP_PROP_FRAME_WIDTH = fst (vw_size w)
  /\ reported env w CAP_PROP_FRAME_HEIGHT = snd (vw_size w).
Proof.
  intros H. destruct (H w) as [Hw Hh]. unfold reported.
  split; apply py_int_eq;
    match goal with
    | |- context [Qeq_bool ?v 0] =>
        destruct (Qeq_bool v 0) eqn:E;
        [apply Qeq_bool_eq in E; rewrite <- E; assumption | assumption]
    end.
Qed.

Lemma writer_size_reported (w : VideoWriter) (img_w img_h : Z) :
  reports_size env -> canvas_ok w ->
  writer_size env w img_w img_h = vw_size w.
Proof.
  intros H [Hw [Hh _]]. unfold writer_size.
  destruct (reported_size w H) as [-> ->].
  replace (fst (vw_size w) <=? 0) with false by (symmetry; apply Z.leb_gt; lia).
  replace (snd (vw_size w) <=? 0) with false by (symmetry; apply Z.leb_gt; lia).
  simpl. now destruct (vw_size w).
Qed.

Lemma open_writer_canvas (fps : Q) (img_w img_h : Z) :
  0 < img_w -> 0 < img_h ->
  triple (fun s => canvas_invariant s /\ st_writer s = None)
         (open_writer env fps img_w img_h)
         (fun out s => ready (img_w, img_h) out s)
         canvas_invariant canvas_invariant.
Proof.
  intros Hw Hh [w p t c r e n k m] [[H1 H2] Ew].
  unfold ready, canvas_invariant, canvas_ok, frames_fit.
  simpl in H1, H2, Ew. subst w.
  execute env; cbn [st_retired st_writer app]; rewrite ?app_nil_r;
    repeat match goal with
      | |- _ /\ _ => split
      | |- forall w, Some _ = Some w -> _ => intros ? E; injection E as <-; simpl
      | |- forall w, None = Some w -> _ => discriminate
      | |- exists w, Some ?x = Some w /\ _ => exists x; simpl
      | |- Forall _ (_ ++ _) => apply Forall_app
      | |- Forall _ [_] => constructor; [reflexivity|]
      | |- Forall _ [] => constructor
      end; try assumption; try reflexivity; try lia.
Qed.

Lemma write_frame_canvas (size : Z * Z) (out_w out_h : Z) (to_write : ColorFrame) T :
  shape to_write = (out_h, out_w) ->
  triple (ready size (out_w, out_h)) (write_frame env to_write)
         (fun _ => canvas_invariant) canvas_invariant T.
Proof.
  intros Hsh s [[H1 H2] [w [Ew Esz]]].
  assert (Hok : canvas_ok (write w to_write (negb (write_raises env (st_writes s))))).
  { destruct (H1 w Ew) as [Hw [Hh Hf]]. unfold canvas_ok, frames_fit in *. simpl.
    repeat split; try assumption.
    apply Forall_app. split; [exact Hf|]. constructor; [|constructor].
    simpl. now rewrite Esz. }
  unfold write_frame, emit, modify. simpl. rewrite Ew.
  destruct (negb (write_raises env (st_writes s))); simpl;
    (split; [intros w' E; injection E as <-; exact Hok | exact H2]).
Qed.

Lemma save_frame_canvas (fps : Q) (font : Font) (lines : list string) :
  reports_size env ->
  triple canvas_invariant (save_frame env fps font lines)
         (fun _ => canvas_invariant) canvas_invariant canvas_invariant.
Proof.
  intros Hrep.
  apply save_frame_glue with (ready := ready).
  - apply canvas_invariant_stable.
  - intros size out n s H. exact H.
  - intros size out s [H _]. exact H.
  - intros. now apply open_writer_canvas.
  - intros w img_w img_h s _ _ Hs Ew. split; [exact Hs|].
    exists w. split; [exact Ew|]. symmetry. apply writer_size_reported; [exact Hrep|].
    now apply (proj1 Hs).
  - intros. now apply write_frame_canvas.
Qed.

Lemma closed_canvas (s : State) : canvas_invariant s -> canvas_invariant (closed s).
Proof. apply (stable_closed _ canvas_invariant_stable). Qed.

(** With a writer that reports its size, the invariant holds when
    [convert_video] is left, however that happens. *)
Lemma convert_video_canvas (input_path output_path : string) (cols : Z) (fps : Q)
      (font_size : Z) (save_mode merge_audio_opt : bool) :
  reports_size env ->
  canvas_invariant
    (snd (convert_video env input_path output_path cols fps font_size
                        save_mode merge_audio_opt)).
Proof.
  intros Hrep.
  destruct (VideoCapture env input_path) as [cap|] eqn:Ecap.
  - assert (Hb : triple (fun s => s = entry env output_path)
                        (try_body env cap input_path cols fps font_size
                                  save_mode merge_audio_opt)
                        (fun _ => canvas_invariant) canvas_invariant canvas_invariant).
    { eapply triple_weaken;
        [apply (try_body_stable env canvas_invariant canvas_invariant) | | | | ]; auto.
      - apply canvas_invariant_stable.
      - intros _ fps' font lines. now apply save_frame_canvas.
      - intros s ->. split; [discriminate | constructor]. }
    assert (H := convert_video_closed env cap input_path output_path cols fps font_size
                                      save_mode merge_audio_opt _ _ _ Ecap Hb).
    destruct (convert_video env input_path output_path cols fps font_size
                            save_mode merge_audio_opt) as [[[]|e|] s]; simpl.
    + destruct H as [s1 [[H1 ->]|[H1 ->]]]; apply closed_canvas;
        [exact H1 | now apply (stable_events _ canvas_invariant_stable)].
    + destruct H as [s1 [H1 ->]]. now apply closed_canvas.
    + destruct H as [s1 [H1 ->]]. now apply closed_canvas.
  - unfold convert_video. rewrite Ecap. simpl. split; [discriminate | constructor].
Qed.

(** What [save_frame] does with the first rendered frame, when one of
    the two writers opens: the frame is written as it is. *)
Lemma save_frame_first (fps : Q) (font : Font) (lines : list string) (s : State) :
  interrupt env = None ->
  st_writer s = None ->
  exists img,
    render_ascii_to_image lines font black white default_padding = Ok img
    /\ (writer_opens env (st_output_path s) mp4v fps (im_size img) = true
        \/ writer_opens env (alt_path (nt env) (st_output_path s)) MJPG fps (im_size img)
           = true ->
        exists s' w,
          save_frame env fps font lines s = (Val tt, s')
          /\ st_writer s' = Some w
          /\ vw_opened w = true
          /\ vw_size w = im_size img
          /\ vw_written w
             = [(image_to_bgr (np_array env) img,
                 negb (write_raises env (st_writes s)))]).
Proof.
  intros quiet Hw.
  destruct (render_ok lines font black white default_padding) as (img & Hi & _);
    [unfold default_padding; lia|].
  exists img. split; [exact Hi|]. intros Hopen.
  destruct s as [w p t c r e n k m]. simpl in Hw. subst w.
  cbn [st_output_path st_writes] in *.
  destruct (im_size img) as [sw sh] eqn:Hsz.
  assert (Hshape := shape_image_to_bgr (np_array env) img sw sh Hsz).
  assert (Hfit := fit_to_canvas_same (INTER_AREA env) _ _ _ Hshape).
  unfold save_frame. unfold bind at 1. rewrite (step_uninterrupted env quiet).
  rewrite Hi. unfold lift at 1. rewrite Hshape.
  unfold bind at 1. unfold get_state at 1.
  cbn [set_steps st_steps st_writer st_output_path st_last_time st_cap_released
       st_retired st_events st_clock st_writes].
  cbv [open_writer bind step lift ret get_state modify emit new_writer
       writer_isOpened release_writer write_frame write
       set_writer set_retired set_steps set_events set_writes set_output_path
       st_writer st_output_path st_last_time st_cap_released st_retired st_events
       st_steps st_clock st_writes vw_opened].
  rewrite quiet. unfold alt_path in Hopen.
  destruct (writer_opens env p mp4v fps (sw, sh)) eqn:E1; cbv beta iota delta [negb].
  - rewrite Hfit. cbv beta iota.
    destruct (write_raises env m); cbn [negb];
      (eexists; eexists; split; [reflexivity|]); repeat split.
  - destruct Hopen as [Hopen|Hopen]; [discriminate|].
    rewrite Hopen. cbv beta iota. rewrite Hfit. cbv beta iota.
    destruct (write_raises env m); cbn [negb];
      (eexists; eexists; split; [reflexivity|]); repeat split; exact Hopen.
Qed.

(** What [save_frame] does with a later frame: the frame passed to
    [write] is the one [fit_to_canvas] makes of the rendered frame for
    the canvas size [writer_size] gives. *)
Lemma save_frame_next (fps : Q) (font : Font) (lines : list string)
      (s : State) (w : VideoWriter) :
  interrupt env = None ->
  st_writer s = Some w ->
  exists img,
    render_ascii_to_image lines font black white default_padding = Ok img
    /\ forall to_write,
        fit_to_canvas (INTER_AREA env) (image_to_bgr (np_array env) img)
                      (fst (writer_size env w (fst (im_size img)) (snd (im_size img))))
                      (snd (writer_size env w (fst (im_size img)) (snd (im_size img))))
        = Ok to_write ->
        exists s',
          save_frame env fps font lines s = (Val tt, s')
          /\ st_writer s'
             = Some (write w to_write (negb (write_raises env (st_writes s)))).
Proof.
  intros quiet Hw.
  destruct (render_ok lines font black white default_padding) as (img & Hi & _);
    [unfold default_padding; lia|].
  exists img. split; [exact Hi|]. intros to_write Hfit.
  destruct s as [w0 p t c r e n k m]. simpl in Hw. subst w0.
  cbn [st_writes].
  destruct (im_size img) as [sw sh] eqn:Hsz. cbn [fst snd] in Hfit.
  assert (Hshape := shape_image_to_bgr (np_array env) img sw sh Hsz).
  unfold save_frame. unfold bind at 1. rewrite (step_uninterrupted env quiet).
  rewrite Hi. unfold lift at 1. rewrite Hshape.
  unfold bind at 1. unfold get_state at 1.
  cbn [set_steps st_steps st_writer st_output_path st_last_time st_cap_released
       st_retired st_events st_clock st_writes].
  destruct (writer_size env w sw sh) as [out_w out_h]. cbn [fst snd] in Hfit.
  cbv [bind step lift ret get_state modify emit write_frame
       set_writer set_retired set_steps set_events set_writes
       st_writer st_output_path st_last_time st_cap_released st_retired st_events
       st_steps st_clock st_writes].
  rewrite quiet. cbv beta iota. rewrite Hfit. cbv beta iota.
  destruct (write_raises env m); cbn [negb];
    (eexists; split; [reflexivity|]); reflexivity.
Qed.

End CanvasRun.

(** C1, as stated: a clip whose second frame renders at another size,
    written through a writer that answers the size query with 0, leaves a
    frame of 292 x 184 in a stream opened at 292 x 94. *)
Lemma silent_writer_breaks_canvas :
  ~ every_frame_fits
      (snd (@convert_video exact_arithmetic
                           (Demo.world Demo.mismatched (fun _ _ => true) Demo.silent None)
                           "in.mp4" "out.mp4" 40 0 12 true false)).
Proof.
  set (s := snd _). intros H.
  assert (E : Demo.recorded s = Some (292, 94, [(94, 292); (184, 292)]))
    by (vm_compute; reflexivity).
  clearbody s. unfold Demo.recorded in E.
  destruct (st_writer s) as [w|] eqn:Ew; [|discriminate].
  specialize (H w Ew). simpl in E. injection E as Esz Emap.
  unfold frames_fit in H. rewrite Esz in H. simpl in H.
  destruct (vw_written w) as [|f1 [|f2 rest]]; try discriminate.
  simpl in Emap. injection Emap as _ E2 _.
  inversion H as [|? ? _ H']. inversion H' as [|? ? H2 _]. congruence.
Qed.

(** C1, amended: in save mode the first rendered frame is written as it
    is, at the size the writer is opened with.  For every later frame
    the pipeline asks the writer for its frame width and height.  When
    both answers are positive, the frame written has exactly the answered
    size: a frame of another size is scaled by the one factor
    min(out_w / img_w, out_h / img_h), at least one pixel per side, and
    pasted into the middle of a black canvas of that size; it is never
    stretched.  When an answer is not positive, the frame is written
    unchanged at its own size.  So with a writer that answers with the
    size it was opened with, every frame written has exactly that size,
    however the run ends.  The last two parts say what [save_frame]
    passes to [write] when no interrupt arrives: the first rendered
    frame itself, to a writer opened at that frame's size, and for a
    later frame what [fit_to_canvas] makes of it for the canvas size
    obtained from the writer. *)
Theorem canvas_of_reporting_writer {R : Rounding} (env : Env)
        (input_path output_path : string) (cols : Z) (fps : Q) (font_size : Z)
        (merge_audio_opt : bool) :
  (reports_size env ->
   let s := snd (convert_video env input_path output_path cols fps font_size
                               true merge_audio_opt) in
   every_frame_fits s /\ Forall (fun w => vw_written w = []) (st_retired s))
  /\ (forall w img_bgr img_w img_h,
         shape img_bgr = (img_h, img_w) ->
         1 <= img_w <= 2 ^ 31 -> 1 <= img_h <= 2 ^ 31 ->
         let out_w := reported env w CAP_PROP_FRAME_WIDTH in
         let out_h := reported env w CAP_PROP_FRAME_HEIGHT in
         1 <= out_w <= 2 ^ 31 -> 1 <= out_h <= 2 ^ 31 ->
         writer_size env w img_w img_h = (out_w, out_h)
         /\ exists to_write,
             fit_to_canvas (INTER_AREA env) img_bgr out_w out_h = Ok to_write
             /\ shape to_write = (out_h, out_w)
             /\ ((img_w, img_h) = (out_w, out_h) -> to_write = img_bgr)
             /\ ((img_w, img_h) <> (out_w, out_h) ->
                 letterboxed (INTER_AREA env) img_bgr to_write out_w out_h))
  /\ (forall w img_bgr img_w img_h,
         shape img_bgr = (img_h, img_w) ->
         reported env w CAP_PROP_FRAME_WIDTH <= 0
         \/ reported env w CAP_PROP_FRAME_HEIGHT <= 0 ->
         writer_size env w img_w img_h = (img_w, img_h)
         /\ fit_to_canvas (INTER_AREA env) img_bgr img_w img_h = Ok img_bgr)
  /\ (interrupt env = None ->
      forall fps font lines s,
        st_writer s = None ->
        exists img,
          render_ascii_to_image lines font black white default_padding = Ok img
          /\ (writer_opens env (st_output_path s) mp4v fps (im_size img) = true
              \/ writer_opens env (alt_path (nt env) (st_output_path s)) MJPG fps
                              (im_size img) = true ->
              exists s' w,
                save_frame env fps font lines s = (Val tt, s')
                /\ st_writer s' = Some w
                /\ vw_opened w = true
                /\ vw_size w = im_size img
                /\ vw_written w
                   = [(image_to_bgr (np_array env) img,
                       negb (write_raises env (st_writes s)))]))
  /\ (interrupt env = None ->
      forall fps font lines s w,
        st_writer s = Some w ->
        exists img,
          render_ascii_to_image lines font black white default_padding = Ok img
          /\ forall to_write,
              fit_to_canvas
                (INTER_AREA env) (image_to_bgr (np_array env) img)
                (fst (writer_size env w (fst (im_size img)) (snd (im_size img))))
                (snd (writer_size env w (fst (im_size img)) (snd (im_size img))))
              = Ok to_write ->
              exists s',
                save_frame env fps font lines s = (Val tt, s')
                /\ st_writer s'
                   = Some (write w to_write (negb (write_raises env (st_writes s))))).
Proof.
  split; [|split; [|split; [|split]]];
    [ | | | intros Hq fps' font lines s Hw; now apply save_frame_first
          | intros Hq fps' font lines s w Hw; now apply save_frame_next ].
  - intros Hrep s.
    destruct (convert_video_canvas env input_path output_path cols fps font_size
                                   true merge_audio_opt Hrep) as [H1 H2].
    split; [|exact H2]. intros w Ew. now apply H1.
  - intros w img_bgr img_w img_h Es Hiw Hih out_w out_h How Hoh.
    assert (Hsz : writer_size env w img_w img_h = (out_w, out_h)).
    { unfold writer_size. fold out_w out_h.
      replace (out_w <=? 0) with false by (symmetry; apply Z.leb_gt; lia).
      replace (out_h <=? 0) with false by (symmetry; apply Z.leb_gt; lia).
      reflexivity. }
    split; [exact Hsz|].
    destruct (Z.eq_dec img_w out_w) as [Ew|Nw];
      [destruct (Z.eq_dec img_h out_h) as [Eh|Nh]|].
    + exists img_bgr. subst out_w out_h. rewrite <- Ew, <- Eh.
      split; [now apply fit_to_canvas_same|]. split; [exact Es|].
      split; [reflexivity|]. intros N. now contradiction N.
    + destruct (fit_to_canvas_letterbox (INTER_AREA env) img_bgr img_w img_h out_w out_h)
        as (scale & new_w & new_h & resized & canvas & H); auto; [congruence|].
      cbv zeta in H.
      destruct H as (H1 & H2 & H3 & H4 & H5 & H6 & H7 & H8 & H9 & Hx & Hy & Hpx).
      exists canvas. split; [exact H8|]. split; [exact H9|].
      split; [intros E; congruence|]. intros _.
      unfold letterboxed. rewrite Es. exists scale, new_w, new_h, resized.
      repeat match goal with |- _ /\ _ => split end; first [assumption | lia].
    + destruct (fit_to_canvas_letterbox (INTER_AREA env) img_bgr img_w img_h out_w out_h)
        as (scale & new_w & new_h & resized & canvas & H); auto; [congruence|].
      cbv zeta in H.
      destruct H as (H1 & H2 & H3 & H4 & H5 & H6 & H7 & H8 & H9 & Hx & Hy & Hpx).
      exists canvas. split; [exact H8|]. split; [exact H9|].
      split; [intros E; congruence|]. intros _.
      unfold letterboxed. rewrite Es. exists scale, new_w, new_h, resized.
      repeat match goal with |- _ /\ _ => split end; first [assumption | lia].
  - intros w img_bgr img_w img_h Es Hle. split.
    + unfold writer_size.
      replace ((reported env w CAP_PROP_FRAME_WIDTH <=? 0)
               || (reported env w CAP_PROP_FRAME_HEIGHT <=? 0)) with true; [reflexivity|].
      symmetry. apply orb_true_iff. destruct Hle; [left | right]; now apply Z.leb_le.
    + now apply fit_to_canvas_same.
Qed.

Lemma canvas_of_reporting_writer_witness :
  let s := snd (@convert_video exact_arithmetic
                  (Demo.world Demo.mismatched (fun _ _ => true) Demo.faithful None)
                  "in.mp4" "out.mp4" 40 0 12 true false) in
  (every_frame_fits s /\ Forall (fun w => vw_written w = []) (st_retired s))
  /\ Demo.recorded s = Some (292, 94, [(94, 292); (94, 292)]).
Proof.
  split; [|vm_compute; reflexivity].
  apply (proj1 (@canvas_of_reporting_writer
                  exact_arithmetic
                  (Demo.world Demo.mismatched (fun _ _ => true) Demo.faithful None)
                  "in.mp4" "out.mp4" 40 0 12 false)).
  intros w. split; reflexivity.
Defined.

(** ** Audio remux without the muxing tool *)

Section Remux.

Context {R : Rounding}.
Variable env : Env.

Lemma merge_audio_unavailable (video_path audio_src output_path : string) (s : State) :
  which env "ffmpeg" = None ->
  interrupt env = None ->
  merge_audio env video_path audio_src output_path s
  = (Val (false, ffmpeg_missing),
     set_events (st_events s ++ [print ("⚠️ " ++ ffmpeg_missing)])
                (set_steps (S (st_steps s)) s)).
Proof.
  intros Hw Hi. unfold merge_audio, bind, step, emit, modify, ret.
  rewrite Hw, Hi. reflexivity.
Qed.

Lemma finish_unavailable (input_path : string) (s1 : State) :
  which env "ffmpeg" = None ->
  interrupt env = None ->
  finish env input_path true true s1 = (Val tt, finished_with_warning s1).
Proof.
  intros Hw Hi.
  unfold finish, merge_audio, bind, step, emit, modify, ret, get_state,
    release_writer, cap_release, finished_with_warning.
  rewrite Hw, Hi. simpl. destruct (st_writer s1); simpl;
    rewrite <- !app_assoc; reflexivity.
Qed.

End Remux.

(** C9: when the audio merge is requested and the muxing tool is not
    found, [merge_audio] returns failure with a diagnostic message and
    raises nothing; a run whose frame loop completed then ends normally:
    it has shown the Done dialog for the video file, then the diagnostic
    as a warning, no error dialog was added, and the writer was only
    released, with every frame written to it still in place. *)
Theorem remux_unavailable_is_warning {R : Rounding} (env : Env) (cap : Video)
        (input_path output_path : string) (cols : Z) (fps : Q) (font_size : Z)
        (s1 : State) :
  which env "ffmpeg" = None ->
  interrupt env = None ->
  VideoCapture env input_path = Some cap ->
  loop env cols (effective_fps fps (native_fps cap))
       (fl (1 / effective_fps fps (native_fps cap))) (load_font env font_size) true
       (frames cap) (entry env output_path)
  = (Val tt, s1) ->
  (forall video_path audio_src out_path s,
      exists s', merge_audio env video_path audio_src out_path s
                 = (Val (false, ffmpeg_missing), s'))
  /\ exists s2,
      convert_video env input_path output_path cols fps font_size true true = (Val tt, s2)
      /\ st_events s2
         = (st_events s1
            ++ [showinfo "Done" ("ASCII video saved to:" ++ nl ++ st_output_path s1);
                print ("⚠️ " ++ ffmpeg_missing);
                showwarning "Audio Merge"
                            ("⚠️ Failed to merge audio." ++ nl ++ ffmpeg_missing)])%list
      /\ st_output_path s2 = st_output_path s1
      /\ match st_writer s1, st_writer s2 with
         | Some w1, Some w2 =>
             vw_path w2 = vw_path w1 /\ vw_written w2 = vw_written w1 /\ released w2
         | None, None => True
         | _, _ => False
         end.
Proof.
  intros Hw Hi Hcap Hloop. split.
  - intros v a o s. eexists. now apply merge_audio_unavailable.
  - rewrite (convert_video_open env cap) by exact Hcap.
    unfold try_except_finally, try_body.
    unfold bind at 1. rewrite Hloop.
    rewrite (finish_unavailable env input_path s1 Hw Hi).
    rewrite finally_closed. eexists. split; [reflexivity|].
    unfold closed, finished_with_warning. simpl.
    destruct (st_writer s1) as [w|] eqn:Ew; simpl; rewrite ?Ew; simpl.
    + repeat split. unfold released; simpl. lia.
    + repeat split. now rewrite Ew.
Qed.

(** ** The writer fallback *)

Section Fallback.

Variable nt : bool.
Variable output_path : string.

Lemma on_fallback_stable : stable (on_fallback nt output_path).
Proof.
  constructor; try (intros; assumption).
  intros s w [w0 [p H]] Ew.
  exists (release w), p. simpl.
  destruct H as [E H]. assert (w0 = w) by congruence. subst w0. tauto.
Qed.

Lemma aborted_closed (s : State) : aborted nt output_path s -> aborted nt output_path (closed s).
Proof.
  intros [w [p (Ew & H1 & H2 & H3 & H4 & H5 & H6 & H7 & H8)]].
  unfold closed. rewrite Ew.
  exists (release w), p. simpl.
  repeat match goal with |- _ /\ _ => split end; auto; lia.
Qed.

End Fallback.

(** The events of the [try] body are still there when [convert_video]
    is left. *)
Lemma try_keeps_events (body : M unit) (e ev : event) (s : State) :
  In ev (st_events (snd (body s))) ->
  In ev (st_events
           (snd (try_except_finally body (emit e) (release_writer ;; cap_release) s))).
Proof.
  intros H. unfold try_except_finally.
  destruct (body s) as [[[]|ex|] s1]; cbn [snd] in H.
  - rewrite finally_closed. cbn [snd]. now rewrite closed_events.
  - destruct ex; try (rewrite finally_closed; cbn [snd]; now rewrite closed_events).
    unfold bind at 1. unfold emit at 1, modify at 1. rewrite finally_closed.
    cbn [snd]. rewrite closed_events. cbn [st_events set_events].
    apply in_or_app. now left.
  - rewrite finally_closed. cbn [snd]. now rewrite closed_events.
Qed.

Section FallbackRun.

Context {R : Rounding}.
Variable env : Env.
Variable output_path : string.
Hypothesis quiet : interrupt env = None.
Hypothesis primary_fails :
  forall fps size, writer_opens env output_path mp4v fps size = false.

Let alt := alt_path (nt env) output_path.

(** The first rendered frame, when the alternate writer opens: the
    primary writer is released, the alternate one constructed, and the
    frame written to it. *)
Lemma first_frame_fallback (fps : Q) (font : Font) (lines : list string) (s : State) :
  (forall fps size, writer_opens env alt MJPG fps size = true) ->
  no_writer_yet output_path s ->
  exists s',
    save_frame env fps font lines s = (Val tt, s')
    /\ on_fallback (nt env) output_path s'.
Proof.
  intros Halt (Hw & Hr & Hp).
  destruct (render_ok lines font black white default_padding) as (img & Hi & _);
    [unfold default_padding; lia|].
  destruct s as [w p t c r e n k m]. simpl in Hw, Hr, Hp. subst w r p.
  destruct (im_size img) as [sw sh] eqn:Hsz.
  assert (Hshape := shape_image_to_bgr (np_array env) img sw sh Hsz).
  assert (Hfit := fit_to_canvas_same (INTER_AREA env) _ _ _ Hshape).
  unfold save_frame. unfold bind at 1. rewrite (step_uninterrupted env quiet).
  rewrite Hi. unfold lift at 1. rewrite Hshape.
  unfold bind at 1. unfold get_state at 1.
  cbn [set_steps st_steps st_writer st_output_path st_last_time st_cap_released
       st_retired st_events st_clock st_writes].
  cbv [open_writer bind step lift ret get_state modify emit new_writer
       writer_isOpened release_writer write_frame write
       set_writer set_retired set_steps set_events set_writes set_output_path
       st_writer st_output_path st_last_time st_cap_released st_retired st_events
       st_steps st_clock st_writes vw_opened].
  rewrite quiet, primary_fails. cbv beta iota delta [negb].
  fold alt. rewrite Halt. cbv beta iota. rewrite Hfit. cbv beta iota.
  destruct (write_raises env m); cbn [negb];
    (eexists; split; [reflexivity|]);
    (eexists; exists (release {| vw_path := output_path; vw_fourcc := mp4v;
                                 vw_fps := fps; vw_size := (sw, sh);
                                 vw_opened := false; vw_released := 0;
                                 vw_written := [] |});
     cbn [st_writer st_retired st_output_path app];
     repeat match goal with |- _ /\ _ => split end; try reflexivity;
     unfold primary_failed, released; simpl;
     repeat match goal with |- _ /\ _ => split end; try reflexivity; lia).
Qed.

(** The first rendered frame, when the alternate writer does not open
    either: the error is shown, the input released, and
    [convert_video] returns. *)
Lemma first_frame_abort (fps : Q) (font : Font) (lines : list string) (s : State) :
  (forall fps size, writer_opens env alt MJPG fps size = false) ->
  no_writer_yet output_path s ->
  exists s',
    save_frame env fps font lines s = (Return, s')
    /\ aborted (nt env) output_path s'.
Proof.
  intros Halt (Hw & Hr & Hp).
  destruct (render_ok lines font black white default_padding) as (img & Hi & _);
    [unfold default_padding; lia|].
  destruct s as [w p t c r e n k m]. simpl in Hw, Hr, Hp. subst w r p.
  destruct (im_size img) as [sw sh] eqn:Hsz.
  assert (Hshape := shape_image_to_bgr (np_array env) img sw sh Hsz).
  unfold save_frame. unfold bind at 1. rewrite (step_uninterrupted env quiet).
  rewrite Hi. unfold lift at 1. rewrite Hshape.
  unfold bind at 1. unfold get_state at 1.
  cbn [set_steps st_steps st_writer st_output_path st_last_time st_cap_released
       st_retired st_events st_clock st_writes].
  cbv [open_writer bind step lift ret get_state modify emit new_writer return_
       writer_isOpened release_writer cap_release
       set_writer set_retired set_steps set_events set_writes set_output_path
       set_cap_released
       st_writer st_output_path st_last_time st_cap_released st_retired st_events
       st_steps st_clock st_writes vw_opened].
  rewrite quiet, primary_fails. cbv beta iota delta [negb].
  fold alt. rewrite Halt. cbv beta iota.
  eexists; split; [reflexivity|].
  eexists; exists (release {| vw_path := output_path; vw_fourcc := mp4v;
                              vw_fps := fps; vw_size := (sw, sh);
                              vw_opened := false; vw_released := 0;
                              vw_written := [] |}).
  cbn [st_writer st_retired st_events st_cap_released app].
  repeat match goal with |- _ /\ _ => split end; try reflexivity.
  - unfold primary_failed, released; simpl.
    repeat match goal with |- _ /\ _ => split end; try reflexivity; lia.
  - apply in_or_app. right. now left.
  - lia.
Qed.

Lemma write_frame_on_fallback (to_write : ColorFrame) T :
  triple (on_fallback (nt env) output_path) (write_frame env to_write)
         (fun _ => on_fallback (nt env) output_path)
         (on_fallback (nt env) output_path) T.
Proof.
  intros s [w [p (Ew & H1 & H2 & H3 & H4 & H5 & H6 & H7)]];
    unfold write_frame, emit, modify; simpl; rewrite ?Ew;
    destruct (negb (write_raises env (st_writes s))); simpl.
  all: eexists _, p; simpl;
    repeat match goal with |- _ /\ _ => split end; auto.
Qed.

(** Once on the alternate writer, a frame never opens another one. *)
Lemma save_frame_on_fallback (fps : Q) (font : Font) (lines : list string) :
  triple (on_fallback (nt env) output_path) (save_frame env fps font lines)
         (fun _ => on_fallback (nt env) output_path)
         (on_fallback (nt env) output_path)
         (fun _ => False).
Proof.
  apply save_frame_glue with (ready := fun _ _ => on_fallback (nt env) output_path).
  - apply on_fallback_stable.
  - intros _ _. apply (stable_blind _ (on_fallback_stable _ _)).
  - auto.
  - intros img_w img_h _ _ s [[w [p [Ew _]]] Hn]. congruence.
  - auto.
  - intros. apply write_frame_on_fallback.
Qed.

(** The loop over a clip whose first frame converts to [lines]. *)
Lemma loop_first (cols : Z) (fps frame_delay : Q) (font : Font)
      (frame : ColorFrame) (rest : list ColorFrame) (lines : list string) (s : State) :
  frame_to_ascii_lines (INTER_AREA env) (cvtColor_BGR2GRAY (BGR2GRAY env) frame)
                       cols default_scale ASCII_CHARS = Ok lines ->
  loop env cols fps frame_delay font true (frame :: rest) s
  = (save_frame env fps font lines ;; loop env cols fps frame_delay font true rest)
      (set_steps (S (S (st_steps s))) s).
Proof.
  intros Hl. cbn [loop]. unfold bind at 1. rewrite (step_uninterrupted env quiet).
  unfold ret at 1. unfold bind at 1. rewrite (step_uninterrupted env quiet), Hl.
  unfold lift at 1. cbn [negb]. reflexivity.
Qed.

(** Without interrupts [finish] shows the Done dialog for the output
    path in effect, whatever the audio merge does after it, and does
    not return early. *)
Lemma finish_done (input_path : string) (merge_audio_opt : bool) (s1 : State) :
  fst (finish env input_path true merge_audio_opt s1) <> Return
  /\ In (done (st_output_path s1))
        (st_events (snd (finish env input_path true merge_audio_opt s1))).
Proof.
  unfold finish, merge_audio, bind, step, emit, modify, ret, get_state,
    release_writer, cap_release, done, lift.
  rewrite quiet.
  destruct merge_audio_opt, (which env "ffmpeg") as [exe|], (st_writer s1) as [w|] eqn:Ew;
    simpl; rewrite ?Ew; simpl;
    repeat match goal with
      | |- context [match ?c with Exited0 _ => _ | _ => _ end] =>
          destruct c as [?|[?|] ?| |]; simpl
      | |- context [if ?b then _ else _] => destruct b; simpl
      end;
    (split; [discriminate|]); simpl;
    rewrite ?in_app_iff; simpl; tauto.
Qed.

End FallbackRun.

(** C7: in save mode without interrupt, on a clip whose first frame
    converts, when the primary container/codec does not open: the
    primary writer is released and exactly one more writer is
    constructed, with the alternate codec and the output path renamed to
    the alternate extension.  If that opens, the run goes on with it to
    its end and does not return early: two writers were constructed in
    all, the failed primary one and the alternate one, and the renamed
    path is the output path from then on and the one the Done dialog
    reports.  If it does not open, the function returns at once: the
    error dialog was shown, the input source released, and nothing was
    written. *)
Theorem writer_fallback {R : Rounding} (env : Env) (cap : Video)
        (input_path output_path : string) (cols : Z) (fps : Q) (font_size : Z)
        (merge_audio_opt : bool)
        (frame : ColorFrame) (rest : list ColorFrame) (lines : list string) :
  interrupt env = None ->
  VideoCapture env input_path = Some cap ->
  frames cap = frame :: rest ->
  frame_to_ascii_lines (INTER_AREA env) (cvtColor_BGR2GRAY (BGR2GRAY env) frame)
                       cols default_scale ASCII_CHARS = Ok lines ->
  (forall fps size, writer_opens env output_path mp4v fps size = false) ->
  let alt := alt_path (nt env) output_path in
  let run := convert_video env input_path output_path cols fps font_size
                           true merge_audio_opt in
  ((forall fps size, writer_opens env alt MJPG fps size = true) ->
   on_fallback (nt env) output_path (snd run)
   /\ fst run <> Return
   /\ forall s1,
       loop env cols (effective_fps fps (native_fps cap))
            (fl (1 / effective_fps fps (native_fps cap))) (load_font env font_size) true
            (frames cap) (entry env output_path)
       = (Val tt, s1) ->
       In (done alt) (st_events (snd run)))
  /\ ((forall fps size, writer_opens env alt MJPG fps size = false) ->
      fst run = Return /\ aborted (nt env) output_path (snd run)).
Proof.
  intros Hq Hcap Hframes Hlines Hprim alt run.
  set (fps' := effective_fps fps (native_fps cap)).
  set (font := load_font env font_size).
  assert (Hentry : no_writer_yet output_path
                     (set_steps (S (S (st_steps (entry env output_path))))
                                (entry env output_path)))
    by (repeat split).
  assert (Hloop := loop_first env Hq cols fps' (fl (1 / fps')) font frame rest lines
                              (entry env output_path) Hlines).
  split; intros Halt.
  - assert (Hst := on_fallback_stable (nt env) output_path).
    destruct (first_frame_fallback env output_path Hq Hprim fps' font lines _ Halt Hentry)
      as (s0 & E0 & H0).
    assert (Hrest := loop_stable env _ (fun _ => False) Hst cols fps' (fl (1 / fps')) font true
                                 (fun _ l => save_frame_on_fallback env output_path fps' font l)
                                 rest s0 H0).
    unfold bind in Hloop at 1. rewrite E0 in Hloop. rewrite <- Hloop in Hrest.
    rewrite <- Hframes in Hrest.
    assert (Hb : triple (fun s => s = entry env output_path)
                        (try_body env cap input_path cols fps font_size
                                  true merge_audio_opt)
                        (fun _ => on_fallback (nt env) output_path)
                        (on_fallback (nt env) output_path) (fun _ => False)).
    { intros s ->. unfold try_body. fold fps' font. unfold bind at 1.
      destruct (loop env cols fps' (fl (1 / fps')) font true (frames cap)
                     (entry env output_path)) as [[[]|e|] s2];
        [|exact Hrest|exact Hrest].
      exact (finish_stable env _ Hst input_path true merge_audio_opt (fun _ => False)
                           s2 Hrest). }
    assert (H := convert_video_closed env cap input_path output_path cols fps font_size
                                      true merge_audio_opt _ _ _ Hcap Hb).
    fold run in H. split; [|split].
    + destruct run as [[[]|e|] s]; simpl.
      * destruct H as [s1 [[H1 ->]|[H1 ->]]]; apply (stable_closed _ Hst);
          [exact H1 | now apply (stable_events _ Hst)].
      * destruct H as [s1 [H1 ->]]. now apply (stable_closed _ Hst).
      * destruct H as [s1 [[] _]].
    + destruct run as [[[]|e|] s]; simpl; try discriminate.
      destruct H as [s1 [[] _]].
    + intros s1 Hl1.
      assert (Hp : st_output_path s1 = alt).
      { rewrite Hl1 in Hrest. destruct Hrest as [w [p Hrest]]. apply Hrest. }
      subst run. rewrite (convert_video_open env cap) by exact Hcap.
      apply try_keeps_events. unfold try_body. fold fps' font.
      unfold bind at 1. rewrite Hl1.
      destruct (finish_done env Hq input_path merge_audio_opt s1) as [_ Hin].
      now rewrite Hp in Hin.
  - destruct (first_frame_abort env output_path Hq Hprim fps' font lines _ Halt Hentry)
      as (s0 & E0 & H0).
    unfold bind in Hloop at 1. rewrite E0 in Hloop.
    assert (Eb : try_body env cap input_path cols fps font_size true merge_audio_opt
                          (entry env output_path) = (Return, s0)).
    { unfold try_body. fold fps' font. unfold bind at 1.
      now rewrite Hframes, Hloop. }
    subst run. rewrite (convert_video_open env cap) by exact Hcap.
    unfold try_except_finally. rewrite Eb, finally_closed. cbn [fst snd].
    split; [reflexivity|]. now apply aborted_closed.
Qed.


Lemma sampler_grid_shape_witness :
  exists lines,
    @frame_to_ascii_lines exact_arithmetic Demo.nearest
                          (cvtColor_BGR2GRAY (fun '(b, g, r) => g) (Demo.flat 36 64))
                          40 (43 # 100) ASCII_CHARS = Ok lines
    /\ Z.of_nat (List.length lines) = 9
    /\ Forall (fun line => len line = 40) lines
    /\ spec_rows 36 64 40 (43 # 100) - 1 <= Z.of_nat (List.length lines)
       <= spec_rows 36 64 40 (43 # 100) + 1.
Proof.
  destruct (@sampler_grid_shape exact_arithmetic Demo.nearest
              (cvtColor_BGR2GRAY (fun '(b, g, r) => g) (Demo.flat 36 64))
              36 64 40 (43 # 100) ASCII_CHARS
              eq_refl ltac:(lia) ltac:(lia) ltac:(lia) eq_refl
              ltac:(vm_compute; split; discriminate))
    as (lines & E & Hn & Hc & _ & Hclose).
  exists lines. split; [exact E|]. split; [|split; [exact Hc|]].
  - rewrite Hn. vm_compute. reflexivity.
  - apply Hclose; [lia | lia | discriminate].
Defined.

Lemma renderer_canvas_size_witness :
  exists img,
    render_ascii_to_image ["ab"; "cd"] Demo.font black white 6 = Ok img
    /\ im_size img = (make_even (char_w Demo.font * 2 + 2 * 6),
                      make_even (char_h Demo.font * 2 + 2 * 6)).
Proof.
  destruct (renderer_canvas_size ["ab"; "cd"] Demo.font black white 6 2 2)
    as [img [H1 [H2 _]]].
  - lia.
  - lia.
  - reflexivity.
  - repeat constructor.
  - exists img. now split.
Defined.

Lemma renderer_total_witness :
  exists img,
    render_ascii_to_image ["a"; ""; "abc"] Demo.font black white 6 = Ok img
    /\ 0 < fst (im_size img) /\ 0 < snd (im_size img).
Proof.
  destruct (renderer_total ["a"; ""; "abc"] Demo.font black white 6) as [img H].
  - lia.
  - exists img. tauto.
Defined.

Lemma writer_fallback_witness :
  (let env := Demo.world Demo.mismatched Demo.mp4_unavailable Demo.faithful None in
   let run := @convert_video exact_arithmetic env "in.mp4" "out.mp4" 40 0 12 true false in
   on_fallback (nt env) "out.mp4" (snd run)
   /\ fst run = Val tt
   /\ In (done "out.avi") (st_events (snd run)))
  /\ (let env := Demo.world Demo.mismatched (fun _ _ => false) Demo.faithful None in
      let run := @convert_video exact_arithmetic env "in.mp4" "out.mp4" 40 0 12 true false in
      fst run = Return /\ aborted (nt env) "out.mp4" (snd run)).
Proof.
  assert (Hl : { lines |
                 @frame_to_ascii_lines
                   exact_arithmetic Demo.nearest
                   (cvtColor_BGR2GRAY (fun '(b, g, r) => g) (Demo.flat 36 64))
                   40 default_scale ASCII_CHARS = Ok lines }).
  { eexists. vm_compute. reflexivity. }
  destruct Hl as [lines Hl].
  split.
  - intros env run.
    pose proof (@writer_fallback
                  exact_arithmetic env
                  {| native_fps := 30; frames := Demo.mismatched |}
                  "in.mp4" "out.mp4" 40 0 12 false
                  (Demo.flat 36 64) [Demo.flat 72 64] lines
                  eq_refl eq_refl eq_refl Hl (fun _ _ => eq_refl)) as H.
    cbv zeta in H. destruct H as [H _]. specialize (H (fun _ _ => eq_refl)).
    destruct H as (H1 & _ & H3).
    assert (Hv : fst run = Val tt) by (vm_compute; reflexivity).
    split; [exact H1|]. split; [exact Hv|].
    remember (loop env 40 (effective_fps 0 30) (fl (1 / effective_fps 0 30))
                   (load_font env 12) true Demo.mismatched (entry env "out.mp4"))
      as lp eqn:Elp.
    assert (Hfst : fst lp = Val tt) by (rewrite Elp; vm_compute; reflexivity).
    assert (Hlp : lp = (Val tt, snd lp))
      by exact (eq_trans (surjective_pairing lp) (f_equal (fun o => (o, snd lp)) Hfst)).
    rewrite Elp in Hlp at 1.
    exact (H3 (snd lp) Hlp).
  - intros env run.
    pose proof (@writer_fallback
                  exact_arithmetic env
                  {| native_fps := 30; frames := Demo.mismatched |}
                  "in.mp4" "out.mp4" 40 0 12 false
                  (Demo.flat 36 64) [Demo.flat 72 64] lines
                  eq_refl eq_refl eq_refl Hl (fun _ _ => eq_refl)) as H.
    cbv zeta in H. destruct H as [_ H]. exact (H (fun _ _ => eq_refl)).
Defined.

Lemma handles_released_on_exit_witness :
  let s := snd (@convert_video exact_arithmetic
                  (Demo.world Demo.mismatched (fun _ _ => true) Demo.faithful (Some 9%nat))
                  "in.mp4" "out.mp4" 40 0 12 true false) in
  (1 <= st_cap_released s)%nat
  /\ (forall w, st_writer s = Some w -> released w)
  /\ Forall released (st_retired s).
Proof.
  exact (@handles_released_on_exit
           exact_arithmetic
           (Demo.world Demo.mismatched (fun _ _ => true) Demo.faithful (Some 9%nat))
           "in.mp4" "out.mp4" 40 0 12 true false).
Defined.

Lemma remux_unavailable_is_warning_witness :
  exists s2,
    @convert_video exact_arithmetic
                   (Demo.world [Demo.flat 36 64] (fun _ _ => true) Demo.faithful None)
                   "in.mp4" "out.mp4" 40 0 12 true true = (Val tt, s2)
    /\ In (showwarning "Audio Merge" ("⚠️ Failed to merge audio." ++ nl ++ ffmpeg_missing))
          (st_events s2).
Proof.
  set (env := Demo.world [Demo.flat 36 64] (fun _ _ => true) Demo.faithful None).
  set (cap := {| native_fps := 30; frames := [Demo.flat 36 64] |}).
  remember (loop env 40 (effective_fps 0 (native_fps cap))
                 (fl (1 / effective_fps 0 (native_fps cap))) (load_font env 12) true
                 (frames cap) (entry env "out.mp4")) as run eqn:Erun.
  assert (Hfst : fst run = Val tt) by (rewrite Erun; vm_compute; reflexivity).
  assert (Hloop : run = (Val tt, snd run))
    by exact (eq_trans (surjective_pairing run)
                       (f_equal (fun o => (o, snd run)) Hfst)).
  rewrite Erun in Hloop at 1.
  destruct (@remux_unavailable_is_warning exact_arithmetic env cap
              "in.mp4" "out.mp4" 40 0 12 (snd run) eq_refl eq_refl eq_refl Hloop)
    as [_ [s2 [E2 [Hev _]]]].
  exists s2. split; [exact E2|].
  rewrite Hev. apply in_or_app. right. simpl. tauto.
Defined.

(** ** The default ramp in binary64 *)

(** On the default ramp, IEEE binary64, the rounding-free instance and
    the exact formula give the same index for every 8-bit brightness. *)
Lemma binary64_default_ramp :
  forallb (fun v => match Binary64.gray_index v 12 with
                    | Some i => (i =? @gray_index exact_arithmetic v ASCII_CHARS)
                                && (i =? spec_glyph_index v 12)
                    | None => false
                    end)
          (range 256)
  = true.
Proof. vm_compute. reflexivity. Qed.

(** * Further properties of the code *)

(** ** The glyph grid, cell by cell *)




Lemma sampler_rows {R : Rounding} (inter_area : Kernel)
      (frame_gray : GrayFrame) (H W C : Z) (S : Q) (chars : string) :
  shape frame_gray = (H, W) ->
  1 <= H -> 1 <= W -> 1 <= C -> (0 < S)%Q ->
  frame_to_ascii_lines inter_area frame_gray C S chars
  = comprehension
      (fun r =>
         cs <~ comprehension
                 (fun c =>
                    get_char_for_gray
                      (uint8 (inter_area byte frame_gray (C, grid_rows H W C S) r c))
                      chars)
                 (range C) ;;
         Ok (join cs))
      (range (grid_rows H W C S)).
Proof.
  intros Hshape HH HW HC HS.
  unfold frame_to_ascii_lines. rewrite Hshape.
  destruct (truediv_pos W C) as [E1 P1]; [lia | lia |]. rewrite E1; cbn [rbind].
  destruct (fdiv_pos_pos _ S P1 HS) as [E2 P2]. rewrite E2; cbn [rbind].
  destruct (fdiv_pos (float H) _ (float_nonneg H ltac:(lia)) P2) as [E3 P3].
  rewrite E3; cbn [rbind].
  fold (@grid_rows R H W C S).
  unfold cv2_resize. rewrite Hshape.
  replace ((H <=? 0) || (W <=? 0) || (C <=? 0) || (grid_rows H W C S <=? 0))
    with false.
  2:{ symmetry. rewrite !orb_false_iff. unfold grid_rows.
      repeat split; apply Z.leb_gt; lia. }
  reflexivity.
Qed.


(** ** What the sampler rejects *)

Lemma Qeq_bool_zero (x : Q) : (x == 0)%Q -> Qeq_bool x 0 = true.
Proof. intros H. now apply Qeq_bool_iff. Qed.

Lemma Qeq_bool_nonzero (x : Q) : ~ (x == 0)%Q -> Qeq_bool x 0 = false.
Proof.
  intros H. destruct (Qeq_bool x 0) eqn:E; [|reflexivity].
  apply Qeq_bool_iff in E. contradiction.
Qed.

Lemma Qinv_neg (x : Q) : (x < 0)%Q -> (/ x < 0)%Q.
Proof.
  destruct x as [[|p|p] d]; unfold Qlt, Qinv; simpl; intros H; try lia.
Qed.

Lemma Qmult_pos_neg (a b : Q) : (0 < a)%Q -> (b < 0)%Q -> (a * b < 0)%Q.
Proof.
  intros Ha Hb.
  assert (H : (0 < a * - b)%Q) by (apply Qmult_lt_0_compat; lra).
  setoid_replace (a * b)%Q with (- (a * - b))%Q by ring. lra.
Qed.

Lemma Qmult_neg_pos (a b : Q) : (a < 0)%Q -> (0 < b)%Q -> (a * b < 0)%Q.
Proof. intros Ha Hb. rewrite Qmult_comm. now apply Qmult_pos_neg. Qed.

Section SamplerErrors.

Context {R : Rounding}.

Lemma fl_neg (x : Q) : (x < 0)%Q -> (fl x < 0)%Q.
Proof.
  intros Hx.
  assert (He := fl_error x).
  rewrite (Qabs_neg x) in He by now apply Qlt_le_weak.
  apply Qabs_Qle_condition in He. destruct He as [_ He].
  rewrite unit_roundoff_value in He. lra.
Qed.

Lemma fl_zero (x : Q) : (x == 0)%Q -> (fl x == 0)%Q.
Proof. intros H. rewrite <- fl_0. now apply fl_compat. Qed.

End SamplerErrors.

(** X2: the sampler raises ZeroDivisionError for a column count of 0, for
    a scale factor of 0 and for a frame of width 0, and a negative column
    count is rejected by the resize (one row of that width is asked for). *)
Theorem sampler_rejects {R : Rounding} (inter_area : Kernel)
        (frame_gray : GrayFrame) (S : Q) (chars : string) :
  frame_to_ascii_lines inter_area frame_gray 0 S chars = Raise ZeroDivisionError
  /\ (forall C, C <> 0 -> (S == 0)%Q ->
                frame_to_ascii_lines inter_area frame_gray C S chars
                = Raise ZeroDivisionError)
  /\ (forall C, C <> 0 -> ~ (S == 0)%Q -> snd (shape frame_gray) = 0 ->
                frame_to_ascii_lines inter_area frame_gray C S chars
                = Raise ZeroDivisionError)
  /\ (forall C, C < 0 -> (0 < S)%Q ->
                1 <= fst (shape frame_gray) -> 1 <= snd (shape frame_gray) ->
                frame_to_ascii_lines inter_area frame_gray C S chars = Raise Cv2Error).
Proof.
  unfold frame_to_ascii_lines. destruct (shape frame_gray) as [h w] eqn:Es. simpl.
  split; [reflexivity|]. split; [|split].
  - intros C HC HS. unfold truediv.
    replace (C =? 0) with false by (symmetry; now apply Z.eqb_neq).
    cbn [rbind]. unfold fdiv. now rewrite (Qeq_bool_zero S HS).
  - intros C HC HS Hw. subst w. unfold truediv.
    replace (C =? 0) with false by (symmetry; now apply Z.eqb_neq).
    cbn [rbind]. unfold fdiv at 1. rewrite (Qeq_bool_nonzero S HS). cbn [rbind].
    unfold fdiv. rewrite Qeq_bool_zero; [reflexivity|].
    apply fl_zero. unfold Qdiv. rewrite fl_zero; [ring|].
    change (inject_Z 0) with 0%Q. ring.
  - intros C HC HS Hh Hw.
    assert (HCq : (inject_Z C < 0)%Q)
      by (change 0%Q with (inject_Z 0); rewrite <- Zlt_Qlt; lia).
    assert (HWq : (0 < inject_Z w)%Q)
      by (change 0%Q with (inject_Z 0); rewrite <- Zlt_Qlt; lia).
    assert (Hi : (/ inject_Z C < 0)%Q) by now apply Qinv_neg.
    assert (T1 : (fl (inject_Z w / inject_Z C) < 0)%Q).
    { apply fl_neg. unfold Qdiv. now apply Qmult_pos_neg. }
    assert (Hs : (0 < / S)%Q) by now apply Qinv_lt_0_compat.
    assert (T2 : (fl (fl (inject_Z w / inject_Z C) / S) < 0)%Q).
    { apply fl_neg. unfold Qdiv. now apply Qmult_neg_pos. }
    unfold truediv.
    replace (C =? 0) with false by (symmetry; apply Z.eqb_neq; lia).
    cbn [rbind]. unfold fdiv at 1.
    rewrite (Qeq_bool_nonzero S) by (intros E; rewrite E in HS; discriminate).
    cbn [rbind]. unfold fdiv.
    rewrite Qeq_bool_nonzero by (intros E; rewrite E in T2; discriminate).
    cbn [rbind]. unfold cv2_resize. rewrite Es.
    replace (C <=? 0) with true by (symmetry; apply Z.leb_le; lia).
    rewrite !orb_true_r. reflexivity.
Qed.

(** ** Degenerate ramps *)

(** X3: with a ramp of one character every brightness, in range or not,
    maps to that character; with an empty ramp every brightness raises
    IndexError. *)
Theorem glyph_mapper_small_ramps {R : Rounding} (v : Z) :
  (forall c, get_char_for_gray v (String c "") = Ok c)
  /\ get_char_for_gray v "" = Raise IndexError.
Proof.
  split.
  - intros c. unfold get_char_for_gray, gray_index, fmul.
    replace (py_int _) with 0; [reflexivity|].
    symmetry. apply py_int_eq. apply fl_zero.
    unfold float, len; simpl. rewrite (fl_zero (inject_Z 0)) by reflexivity. ring.
  - unfold get_char_for_gray, getitem. unfold len; simpl.
    destruct (gray_index v "" <? 0); rewrite ?Z.add_0_r;
      destruct (0 <=? gray_index v "") eqn:E1;
      destruct (gray_index v "" <? 0) eqn:E2; try reflexivity;
      apply Z.leb_le in E1; apply Z.ltb_lt in E2; lia.
Qed.

(** ** Where the renderer draws *)

Lemma draw_lines_nth (lines : list string) (font : Font) (fg : Color)
      (padding y : Z) (i : nat) (line : string) :
  nth_error lines i = Some line ->
  nth_error (draw_lines lines font fg padding y) i
  = Some {| dt_xy := (padding, y + Z.of_nat i * char_h font);
            dt_text := line; dt_font := font; dt_fill := fg |}.
Proof.
  revert y i; induction lines as [|l rest IH]; intros y [|i] H; try discriminate.
  - simpl in *. injection H as ->. do 3 f_equal. lia.
  - simpl in H. cbn [draw_lines nth_error]. rewrite (IH _ _ H). do 3 f_equal. lia.
Qed.

(** X4: the i-th line is drawn with the foreground colour at
    (padding, padding + i * char_h), one call per line in order; with a
    non-negative padding its cell row ends at least one padding above the
    bottom edge, and a row of cells as long as the line ends at least one
    padding before the right edge. *)
Theorem renderer_draws_inside
        (lines : list string) (font : Font) (bg fg : Color) (padding : Z)
        (img : Image) :
  0 <= padding ->
  render_ascii_to_image lines font bg fg padding = Ok img ->
  List.length (im_text img) = List.length lines
  /\ im_color img = bg
  /\ forall i line,
      nth_error lines i = Some line ->
      nth_error (im_text img) i
      = Some {| dt_xy := (padding, padding + Z.of_nat i * char_h font);
                dt_text := line; dt_font := font; dt_fill := fg |}
      /\ padding + len line * char_w font + padding <= fst (im_size img)
      /\ padding + (Z.of_nat i + 1) * char_h font + padding <= snd (im_size img).
Proof.
  intros Hp Himg.
  destruct (render_ok lines font bg fg padding Hp) as [img0 [E0 [Hsz Hlen]]].
  assert (img0 = img) by congruence. subst img0.
  split; [exact Hlen|]. split.
  { unfold render_ascii_to_image, Image_new in Himg.
    match type of Himg with context [if ?b then _ else _] => destruct b end;
      [discriminate|]. simpl in Himg. injection Himg as <-. reflexivity. }
  intros i line Hi.
  assert (Hne : lines <> []) by (intros ->; destruct i; discriminate).
  destruct (max_cols_longest lines Hne) as [Hmax _].
  assert (Hin : In line lines) by (eapply nth_error_In; exact Hi).
  specialize (Hmax line Hin).
  assert (Hi' : (i < List.length lines)%nat) by (apply nth_error_Some; congruence).
  assert (Hw := char_w_pos font). assert (Hh := char_h_pos font).
  assert (Hl : 0 <= len line) by (unfold len; lia).
  destruct (make_even_spec (char_w font * max_cols lines + padding * 2)) as [_ Hbw].
  destruct (make_even_spec (char_h font * rows lines + padding * 2)) as [_ Hbh].
  rewrite Hsz; simpl. split; [|split].
  - unfold render_ascii_to_image, Image_new in Himg.
    match type of Himg with context [if ?b then _ else _] => destruct b end;
      [discriminate|]. simpl in Himg. injection Himg as <-. simpl.
    now apply draw_lines_nth.
  - nia.
  - assert (Hr : Z.of_nat i + 1 <= rows lines) by (unfold rows; lia).
    assert (Hm := Z.mul_le_mono_nonneg_r _ _ (char_h font) ltac:(lia) Hr).
    lia.
Qed.

(** ** The frame rate in effect *)

Lemma gt0_true (x : Q) : gt0 x = true <-> (0 < x)%Q.
Proof.
  unfold gt0. rewrite negb_true_iff. split; intros H.
  - destruct (Qlt_le_dec 0 x) as [H'|H']; [exact H'|].
    apply Qle_bool_iff in H'. congruence.
  - destruct (Qle_bool x 0) eqn:E; [|reflexivity].
    apply Qle_bool_iff in E. exfalso. now apply (Qlt_not_le _ _ H).
Qed.

Lemma gt0_false (x : Q) : gt0 x = false <-> (x <= 0)%Q.
Proof.
  unfold gt0. rewrite negb_false_iff. apply Qle_bool_iff.
Qed.

(** X5: the frame rate in effect is the caller's when that is positive,
    else the source's when that is positive, else 24; it is always
    positive, and so is the frame period 1.0 / fps computed from it, which
    therefore never divides by zero. *)
Theorem effective_fps_positive {R : Rounding} (fps in_fps : Q) :
  ((0 < fps)%Q -> effective_fps fps in_fps = fps)
  /\ ((fps <= 0)%Q -> (0 < in_fps)%Q -> effective_fps fps in_fps = in_fps)
  /\ ((fps <= 0)%Q -> (in_fps <= 0)%Q -> effective_fps fps in_fps = 24%Q)
  /\ (0 < effective_fps fps in_fps)%Q
  /\ (0 < fl (1 / effective_fps fps in_fps))%Q.
Proof.
  unfold effective_fps.
  destruct (gt0 fps) eqn:E1; [|destruct (gt0 in_fps) eqn:E2].
  - apply gt0_true in E1.
    split; [reflexivity|]. split; [intros H; lra|]. split; [intros H; lra|].
    split; [exact E1|]. apply fl_pos. now apply Qlt_shift_div_l; [|lra].
  - apply gt0_false in E1. apply gt0_true in E2.
    split; [intros H; lra|]. split; [reflexivity|]. split; [intros _ H; lra|].
    split; [exact E2|]. apply fl_pos. now apply Qlt_shift_div_l; [|lra].
  - apply gt0_false in E1. apply gt0_false in E2.
    split; [intros H; lra|]. split; [intros _ H; lra|]. split; [reflexivity|].
    split; [reflexivity|]. apply fl_pos. reflexivity.
Qed.

(** ** Terminal mode *)

(** Unfolding of the statements of the pipeline on a state whose fields
    are laid open. *)
Ltac unfold_pipeline :=
  cbv [play_frame finish merge_audio bind step lift ret get_state modify emit return_
       time_time release_writer cap_release
       set_writer set_retired set_steps set_events set_cap_released set_output_path
       set_clock set_last_time set_writes
       st_writer st_output_path st_last_time st_cap_released st_retired st_events
       st_steps st_clock st_writes].

Section Terminal.

Context {R : Rounding}.
Variable env : Env.
Variable output_path : string.

Lemma terminal_state_steps (n : nat) (s : State) :
  terminal_state output_path s -> terminal_state output_path (set_steps n s).
Proof. intros H; exact H. Qed.

Lemma play_frame_terminal (frame_delay : Q) (lines : list string) T :
  triple (terminal_state output_path) (play_frame env frame_delay lines)
         (fun _ => terminal_state output_path) (terminal_state output_path) T.
Proof.
  intros [w p t c r e n k m] (Hw & Hr & Hm & Hp & He).
  simpl in Hw, Hr, Hm, Hp, He. subst w r m p.
  unfold terminal_state. unfold_pipeline.
  destruct (interrupt env) as [i|];
    repeat match goal with
      | |- context [if gt0 ?x then _ else _] => destruct (gt0 x) eqn:?
      | |- context [if ?b then _ else _] => destruct b
      end;
    cbn [st_writer st_retired st_writes st_output_path st_events];
    repeat match goal with
      | |- _ /\ _ => split
      | |- Forall _ (_ ++ _) => apply Forall_app
      | |- Forall _ [_] => constructor; [|constructor]
      | H : gt0 _ = true |- _ => apply gt0_true in H
      end; try reflexivity; try assumption; exact I.
Qed.

Lemma loop_terminal (cols : Z) (fps frame_delay : Q) (font : Font)
      (frames : list ColorFrame) T :
  triple (terminal_state output_path)
         (loop env cols fps frame_delay font false frames)
         (fun _ => terminal_state output_path) (terminal_state output_path) T.
Proof.
  assert (Hb : step_blind (terminal_state output_path))
    by (intros n s H; exact H).
  induction frames as [|frame rest IH]; simpl.
  - apply triple_step; [exact Hb | auto | apply triple_ret_inv].
  - apply triple_bind with (Q' := fun _ => terminal_state output_path).
    { apply triple_step; [exact Hb | auto | apply triple_ret_inv]. }
    intros _. apply triple_bind with (Q' := fun _ => terminal_state output_path).
    { apply triple_step; [exact Hb | auto | apply triple_lift_inv]. }
    intros lines.
    apply triple_bind with (Q' := fun _ => terminal_state output_path);
      [apply play_frame_terminal | intros _; exact IH].
Qed.

Lemma finish_terminal (input_path : string) (merge_audio_opt : bool) T :
  triple (terminal_state output_path) (finish env input_path false merge_audio_opt)
         (fun _ => terminal_state output_path) (terminal_state output_path) T.
Proof.
  intros [w p t c r e n k m] (Hw & Hr & Hm & Hp & He).
  simpl in Hw, Hr, Hm, Hp, He. subst w r m p.
  unfold terminal_state. unfold_pipeline.
  destruct (interrupt env) as [i|];
    repeat match goal with
      | |- context [if ?b then _ else _] => destruct b
      end;
    cbn [st_writer st_retired st_writes st_output_path st_events];
    repeat split; assumption.
Qed.

End Terminal.

(** X6: in terminal mode, however the run ends, no writer is ever
    constructed and nothing is written; once the source has opened no
    dialog is shown either: the run only clears the screen, prints and
    sleeps, and every sleep is for a positive time. *)
Theorem terminal_mode_is_quiet {R : Rounding} (env : Env) (cap : Video)
        (input_path output_path : string) (cols : Z) (fps : Q)
        (font_size : Z) (merge_audio_opt : bool) :
  VideoCapture env input_path = Some cap ->
  let s := snd (convert_video env input_path output_path cols fps font_size
                              false merge_audio_opt) in
  st_writer s = None /\ st_retired s = [] /\ st_writes s = 0%nat
  /\ Forall terminal_event (st_events s).
Proof.
  intros Hcap s.
  assert (Hb : triple (fun s => s = entry env output_path)
                      (try_body env cap input_path cols fps font_size
                                false merge_audio_opt)
                      (fun _ => terminal_state output_path)
                      (terminal_state output_path) (terminal_state output_path)).
  { unfold try_body. apply triple_bind with (Q' := fun _ => terminal_state output_path).
    - eapply triple_weaken; [apply (loop_terminal env output_path) with (T := terminal_state output_path) | | | | ]; auto.
      intros s0 ->. unfold terminal_state, entry. simpl. repeat split. constructor.
    - intros _. apply finish_terminal. }
  assert (Hc : forall s1, terminal_state output_path s1 ->
                          terminal_state output_path (closed s1)).
  { intros s1 (Hw & Hr & Hm & Hp & He). unfold closed. rewrite Hw.
    repeat split; assumption. }
  assert (H := convert_video_closed env cap input_path output_path cols fps font_size
                                    false merge_audio_opt _ _ _ Hcap Hb).
  subst s.
  destruct (convert_video env input_path output_path cols fps font_size
                          false merge_audio_opt) as [[[]|e|] s]; simpl.
  - destruct H as [s1 [[H1 ->]|[H1 ->]]].
    + destruct (Hc s1 H1) as (Hw & Hr & Hm & Hp & He). auto.
    + destruct H1 as (Hw & Hr & Hm & Hp & He).
      assert (Ht : terminal_state output_path
                     (set_events (st_events s1 ++ [print (nl ++ "Stopped by user.")]) s1)).
      { repeat split; try assumption. simpl. apply Forall_app. split; [exact He|].
        constructor; [exact I | constructor]. }
      destruct (Hc _ Ht) as (Hw' & Hr' & Hm' & Hp' & He'). auto.
  - destruct H as [s1 [H1 ->]]. destruct (Hc s1 H1) as (Hw & Hr & Hm & Hp & He). auto.
  - destruct H as [s1 [H1 ->]]. destruct (Hc s1 H1) as (Hw & Hr & Hm & Hp & He). auto.
Qed.

Lemma terminal_mode_is_quiet_witness :
  let env := Demo.world [Demo.flat 36 64] (fun _ _ => true) Demo.silent (Some 7%nat) in
  VideoCapture env "in.mp4" = Some {| native_fps := 30; frames := [Demo.flat 36 64] |}
  /\ let s := snd (@convert_video exact_arithmetic env "in.mp4" "out.mp4" 40 0 12
                                  false true) in
     st_writer s = None /\ st_retired s = [] /\ st_writes s = 0%nat
     /\ Forall terminal_event (st_events s).
Proof.
  split; [reflexivity|].
  apply (@terminal_mode_is_quiet
           exact_arithmetic
           (Demo.world [Demo.flat 36 64] (fun _ _ => true) Demo.silent (Some 7%nat))
           {| native_fps := 30; frames := [Demo.flat 36 64] |}).
  reflexivity.
Defined.

Section TerminalTrace.

Context {R : Rounding}.
Variable env : Env.
Hypothesis quiet : interrupt env = None.

Lemma without_sleeps_app (l l' : list event) :
  without_sleeps (l ++ l') = (without_sleeps l ++ without_sleeps l')%list.
Proof. apply filter_app. Qed.

Lemma play_frame_shown (frame_delay : Q) (lines : list string) (s : State) :
  exists s',
    play_frame env frame_delay lines s = (Val tt, s')
    /\ without_sleeps (st_events s')
       = (without_sleeps (st_events s) ++ screen env lines)%list.
Proof.
  destruct s as [w p t c r e n k m].
  unfold_pipeline. rewrite quiet.
  match goal with
  | |- context [if gt0 ?x then _ else _] => destruct (gt0 x)
  end;
    (eexists; split; [reflexivity|]);
    cbn [st_events]; rewrite ?without_sleeps_app, <- ?app_assoc; reflexivity.
Qed.

Lemma loop_shown (cols : Z) (fps frame_delay : Q) (font : Font)
      (clip : list ColorFrame) (screens : list (list string)) :
  Forall2 (fun frame lines =>
             frame_to_ascii_lines (INTER_AREA env)
                                  (cvtColor_BGR2GRAY (BGR2GRAY env) frame)
                                  cols default_scale ASCII_CHARS = Ok lines)
          clip screens ->
  forall s,
  exists s',
    loop env cols fps frame_delay font false clip s = (Val tt, s')
    /\ without_sleeps (st_events s')
       = (without_sleeps (st_events s) ++ flat_map (screen env) screens)%list.
Proof.
  induction 1 as [|frame lines clip screens Hl _ IH]; intros s.
  - exists (set_steps (S (st_steps s)) s). simpl loop.
    rewrite (step_uninterrupted env quiet). split; [reflexivity|].
    simpl. now rewrite app_nil_r.
  - simpl loop. unfold bind at 1. rewrite (step_uninterrupted env quiet). unfold ret at 1.
    unfold bind at 1. rewrite (step_uninterrupted env quiet), Hl. unfold lift at 1.
    cbn [negb]. unfold bind at 1.
    destruct (play_frame_shown frame_delay lines
                (set_steps (S (st_steps (set_steps (S (st_steps s)) s)))
                           (set_steps (S (st_steps s)) s)))
      as (s1 & -> & E1).
    destruct (IH s1) as (s2 & -> & E2).
    exists s2. split; [reflexivity|].
    rewrite E2, E1. cbn [flat_map]. now rewrite <- app_assoc.
Qed.

Lemma finish_terminal_shown (input_path : string) (merge_audio_opt : bool) (s : State) :
  exists s',
    finish env input_path false merge_audio_opt s = (Val tt, s')
    /\ st_events s' = st_events s.
Proof.
  destruct s as [w p t c r e n k m].
  unfold_pipeline. rewrite quiet.
  destruct w; eexists; (split; [reflexivity|]); reflexivity.
Qed.

End TerminalTrace.

(** X7: a terminal run that is not interrupted and whose frames all
    convert shows every frame, in order and none dropped: apart from
    the sleeps, its effects are exactly one screen clear followed by one
    print of the frame's lines, for each frame the source delivers. *)
Theorem terminal_shows_every_frame {R : Rounding} (env : Env) (cap : Video)
        (input_path output_path : string) (cols : Z) (fps : Q)
        (font_size : Z) (merge_audio_opt : bool) (screens : list (list string)) :
  interrupt env = None ->
  VideoCapture env input_path = Some cap ->
  Forall2 (fun frame lines =>
             frame_to_ascii_lines (INTER_AREA env)
                                  (cvtColor_BGR2GRAY (BGR2GRAY env) frame)
                                  cols default_scale ASCII_CHARS = Ok lines)
          (frames cap) screens ->
  exists s,
    convert_video env input_path output_path cols fps font_size false merge_audio_opt
    = (Val tt, s)
    /\ without_sleeps (st_events s) = flat_map (screen env) screens.
Proof.
  intros Hq Hcap Hs.
  assert (Hb : triple (fun s => s = entry env output_path)
                      (try_body env cap input_path cols fps font_size
                                false merge_audio_opt)
                      (fun _ s => without_sleeps (st_events s)
                                  = flat_map (screen env) screens)
                      (fun _ => False) (fun _ => False)).
  { intros s ->. unfold try_body, bind.
    destruct (loop_shown env Hq cols (effective_fps fps (native_fps cap))
                         (fl (1 / effective_fps fps (native_fps cap)))
                         (load_font env font_size) (frames cap) screens Hs
                         (entry env output_path)) as (s1 & -> & E1).
    destruct (finish_terminal_shown env Hq input_path merge_audio_opt s1)
      as (s2 & -> & E2).
    rewrite E2, E1. reflexivity. }
  assert (H := convert_video_closed env cap input_path output_path cols fps font_size
                                    false merge_audio_opt _ _ _ Hcap Hb).
  destruct (convert_video env input_path output_path cols fps font_size
                          false merge_audio_opt) as [[[]|e|] s].
  - exists s. split; [reflexivity|].
    destruct H as [s1 [[H1 ->]|[[] _]]].
    unfold closed. destruct (st_writer s1); exact H1.
  - destruct H as [s1 [[] _]].
  - destruct H as [s1 [[] _]].
Qed.

Lemma terminal_shows_every_frame_witness :
  let env := Demo.world [Demo.flat 36 64; Demo.flat 72 64] (fun _ _ => true)
                        Demo.silent None in
  exists screens s,
    List.length screens = 2%nat
    /\ @convert_video exact_arithmetic env "in.mp4" "out.mp4" 40 0 12 false false
       = (Val tt, s)
    /\ without_sleeps (st_events s) = flat_map (screen env) screens.
Proof.
  intros env.
  assert (Hs : { screens |
                 List.length screens = 2%nat
                 /\ Forall2 (fun frame lines =>
                               @frame_to_ascii_lines
                                 exact_arithmetic (INTER_AREA env)
                                 (cvtColor_BGR2GRAY (BGR2GRAY env) frame)
                                 40 default_scale ASCII_CHARS = Ok lines)
                            [Demo.flat 36 64; Demo.flat 72 64] screens }).
  { eexists. split; [|constructor; [vm_compute; reflexivity|
                                    constructor; [vm_compute; reflexivity|constructor]]].
    reflexivity. }
  destruct Hs as (screens & Hn & Hs).
  exists screens.
  destruct (@terminal_shows_every_frame
              exact_arithmetic env
              {| native_fps := 30; frames := [Demo.flat 36 64; Demo.flat 72 64] |}
              "in.mp4" "out.mp4" 40 0 12 false screens
              eq_refl eq_refl Hs) as (s & E & H).
  exists s. auto.
Defined.

(** ** The audio merge with the muxing tool present *)

Section RemuxRun.

Context {R : Rounding}.
Variable env : Env.
Variable exe : string.
Hypothesis found : which env "ffmpeg" = Some exe.
Hypothesis quiet : interrupt env = None.

Lemma finish_merge (input_path : string) (s1 : State) :
  let video := st_output_path s1 in
  let out_with_audio := fst (splitext (nt env) video) ++ "_with_audio.mp4" in
  let cmd := [exe; "-y"; "-i"; video; "-i"; input_path; "-c:v"; "copy";
              "-map"; "0:v:0"; "-map"; "1:a:0"; "-shortest"; out_with_audio] in
  exists s2,
    finish env input_path true true s1 = (audio_merge_end (subprocess_run env cmd), s2)
    /\ st_events s2
       = (st_events s1
          ++ done video :: audio_merge_dialog (subprocess_run env cmd) out_with_audio)%list
    /\ st_output_path s2 = video
    /\ st_retired s2 = st_retired s1
    /\ st_writer s2 = option_map release (st_writer s1).
Proof.
  destruct s1 as [w p t c r e n k m]. cbv zeta. cbn [st_output_path].
  unfold_pipeline. rewrite found, quiet.
  unfold done, audio_merge_dialog, audio_merge_end.
  destruct w as [w|];
    match goal with
    | |- context [subprocess_run env ?cmd] =>
        destruct (subprocess_run env cmd) as [err|[err|] str_e| |]
    end;
    cbv beta iota; try destruct (String.eqb err "");
    (eexists; split; [reflexivity|]);
    cbn [st_events st_output_path st_retired st_writer option_map];
    rewrite <- ?app_assoc; repeat split.
Qed.

End RemuxRun.

(** X8: with the muxing tool found, a save-mode run whose frame loop
    completed runs the tool on the video file under the path in effect
    after the loop (the renamed one after a fallback), with the input as
    audio source.  What follows the Done dialog depends on how that call
    ends.  On exit status 0 the merged-file notice is shown, on another
    exit status a warning that carries the tool's error output, or the
    exception text when that output is empty or absent; in both cases
    the run ends normally.  When the call raises something else, an
    OSError because the tool cannot be run or a UnicodeDecodeError
    because its output is not valid text, [merge_audio] does not catch
    it: no dialog follows the Done dialog, and the exception leaves
    [convert_video] after the [finally] block. *)
Theorem audio_merge_outcome {R : Rounding} (env : Env) (cap : Video) (exe : string)
        (input_path output_path : string) (cols : Z) (fps : Q) (font_size : Z)
        (s1 : State) :
  which env "ffmpeg" = Some exe ->
  interrupt env = None ->
  VideoCapture env input_path = Some cap ->
  loop env cols (effective_fps fps (native_fps cap))
       (fl (1 / effective_fps fps (native_fps cap))) (load_font env font_size) true
       (frames cap) (entry env output_path)
  = (Val tt, s1) ->
  let video := st_output_path s1 in
  let out_with_audio := fst (splitext (nt env) video) ++ "_with_audio.mp4" in
  let cmd := [exe; "-y"; "-i"; video; "-i"; input_path; "-c:v"; "copy";
              "-map"; "0:v:0"; "-map"; "1:a:0"; "-shortest"; out_with_audio] in
  exists s2,
    convert_video env input_path output_path cols fps font_size true true
    = (audio_merge_end (subprocess_run env cmd), s2)
    /\ st_events s2
       = (st_events s1
          ++ done video :: audio_merge_dialog (subprocess_run env cmd) out_with_audio)%list
    /\ st_output_path s2 = video
    /\ st_retired s2 = st_retired s1
    /\ (1 <= st_cap_released s2)%nat.
Proof.
  intros Hw Hi Hcap Hloop video out_with_audio cmd.
  rewrite (convert_video_open env cap) by exact Hcap.
  unfold try_except_finally, try_body.
  unfold bind at 1. rewrite Hloop.
  destruct (finish_merge env exe Hw Hi input_path s1) as (s2 & -> & He & Hp & Hr & _).
  fold video out_with_audio cmd in He |- *.
  assert (Hc : (1 <= st_cap_released (closed s2))%nat)
    by (unfold closed; simpl; lia).
  assert (He' : st_events (closed s2)
                = (st_events s1
                   ++ done video
                   :: audio_merge_dialog (subprocess_run env cmd) out_with_audio)%list)
    by now rewrite closed_events.
  assert (Hp' : st_output_path (closed s2) = video)
    by (unfold closed; destruct (st_writer s2); exact Hp).
  assert (Hr' : st_retired (closed s2) = st_retired s1)
    by (unfold closed; destruct (st_writer s2); exact Hr).
  exists (closed s2).
  destruct (subprocess_run env cmd) as [err|err str_e| |];
    cbn [audio_merge_end]; rewrite finally_closed; auto.
Qed.

Lemma audio_merge_outcome_witness :
  (let env := with_ffmpeg
                (Demo.world [Demo.flat 36 64] Demo.mp4_unavailable Demo.faithful None)
                "/usr/bin/ffmpeg"
                (fun _ => CalledProcessError (Some "") "exit status 1") in
   exists s2,
     @convert_video exact_arithmetic env "in.mp4" "out.mp4" 40 0 12 true true = (Val tt, s2)
     /\ st_output_path s2 = "out.avi"
     /\ In (showwarning "Audio Merge" ("⚠️ Failed to merge audio." ++ nl ++ "exit status 1"))
           (st_events s2))
  /\ (let env := with_ffmpeg
                   (Demo.world [Demo.flat 36 64] Demo.mp4_unavailable Demo.faithful None)
                   "/usr/bin/ffmpeg" (fun _ => NotRun) in
      exists s2,
        @convert_video exact_arithmetic env "in.mp4" "out.mp4" 40 0 12 true true
        = (Exc OSError, s2)
        /\ exists before, st_events s2 = (before ++ [done "out.avi"])%list).
Proof.
  split; intros env.
  - set (cap := {| native_fps := 30; frames := [Demo.flat 36 64] |}).
    remember (loop env 40 (effective_fps 0 (native_fps cap))
                   (fl (1 / effective_fps 0 (native_fps cap))) (load_font env 12) true
                   (frames cap) (entry env "out.mp4")) as run eqn:Erun.
    assert (Hfst : fst run = Val tt) by (rewrite Erun; vm_compute; reflexivity).
    assert (Hpath : st_output_path (snd run) = "out.avi")
      by (rewrite Erun; vm_compute; reflexivity).
    assert (Hloop : run = (Val tt, snd run))
      by exact (eq_trans (surjective_pairing run)
                         (f_equal (fun o => (o, snd run)) Hfst)).
    rewrite Erun in Hloop at 1.
    destruct (@audio_merge_outcome exact_arithmetic env cap "/usr/bin/ffmpeg"
                "in.mp4" "out.mp4" 40 0 12 (snd run) eq_refl eq_refl eq_refl Hloop)
      as [s2 [E2 [Hev [Hp _]]]].
    exists s2. split; [exact E2|]. split; [now rewrite Hp|].
    rewrite Hev. apply in_or_app. right. right. left. reflexivity.
  - set (cap := {| native_fps := 30; frames := [Demo.flat 36 64] |}).
    remember (loop env 40 (effective_fps 0 (native_fps cap))
                   (fl (1 / effective_fps 0 (native_fps cap))) (load_font env 12) true
                   (frames cap) (entry env "out.mp4")) as run eqn:Erun.
    assert (Hfst : fst run = Val tt) by (rewrite Erun; vm_compute; reflexivity).
    assert (Hpath : st_output_path (snd run) = "out.avi")
      by (rewrite Erun; vm_compute; reflexivity).
    assert (Hloop : run = (Val tt, snd run))
      by exact (eq_trans (surjective_pairing run)
                         (f_equal (fun o => (o, snd run)) Hfst)).
    rewrite Erun in Hloop at 1.
    destruct (@audio_merge_outcome exact_arithmetic env cap "/usr/bin/ffmpeg"
                "in.mp4" "out.mp4" 40 0 12 (snd run) eq_refl eq_refl eq_refl Hloop)
      as [s2 [E2 [Hev _]]].
    exists s2. split; [exact E2|].
    exists (st_events (snd run)). rewrite Hev, Hpath. reflexivity.
Defined.

(** ** The paths derived from the output path *)

Lemma rfind_from_spec (c : ascii) (p : string) (i : Z) :
  0 <= i ->
  rfind_from c p i = -1
  \/ (i <= rfind_from c p i < i + Z.of_nat (String.length p)
      /\ String.get (Z.to_nat (rfind_from c p i - i)) p = Some c).
Proof.
  revert i. induction p as [|a p IH]; intros i Hi; [now left|].
  cbn [rfind_from String.length].
  destruct (IH (i + 1) ltac:(lia)) as [E|[Hr Hg]].
  - rewrite E. cbn. destruct (Ascii.eqb_spec a c) as [->|_]; [right|now left].
    split; [lia|]. now rewrite Z.sub_diag.
  - replace (0 <=? rfind_from c p (i + 1)) with true by (symmetry; apply Z.leb_le; lia).
    right. split; [lia|].
    replace (Z.to_nat (rfind_from c p (i + 1) - i))
      with (S (Z.to_nat (rfind_from c p (i + 1) - (i + 1)))) by lia.
    exact Hg.
Qed.

Lemma substring_all (p : string) : substring 0 (String.length p) p = p.
Proof. induction p as [|a p IH]; simpl; [reflexivity | now rewrite IH]. Qed.

Lemma substring_split (p : string) (n : nat) :
  (n <= String.length p)%nat ->
  substring 0 n p ++ substring n (String.length p - n) p = p.
Proof.
  revert n. induction p as [|a p IH]; intros [|n] Hn; simpl in *; try lia.
  - reflexivity.
  - now rewrite substring_all.
  - rewrite IH by lia. reflexivity.
Qed.

Lemma substring_head (p : string) (n : nat) (c : ascii) :
  String.get n p = Some c ->
  exists rest, substring n (String.length p - n) p = String c rest.
Proof.
  revert n. induction p as [|a p IH]; intros [|n] Hg; simpl in *; try discriminate.
  - injection Hg as ->. eexists. reflexivity.
  - now apply IH.
Qed.

Lemma string_app_inv_head (r a b : string) : r ++ a = r ++ b -> a = b.
Proof. induction r as [|c r IH]; simpl; intros H; [exact H|]. injection H as H. now apply IH. Qed.

Lemma splitext_join (nt : bool) (p : string) :
  fst (splitext nt p) ++ snd (splitext nt p) = p.
Proof.
  unfold splitext.
  set (sepIndex := if nt then Z.max (rfind "\" p) (rfind "/" p) else rfind "/" p).
  destruct ((sepIndex <? rfind "." p) && _) eqn:E; cbn [fst snd].
  - apply substring_split.
    destruct (rfind_from_spec "." p 0 ltac:(lia)) as [H|[H _]]; unfold rfind; lia.
  - clear. induction p as [|a p IH]; simpl; [reflexivity | now rewrite IH].
Qed.

Lemma splitext_ext (nt : bool) (p : string) :
  snd (splitext nt p) = "" \/ exists rest, snd (splitext nt p) = String "." rest.
Proof.
  unfold splitext.
  set (sepIndex := if nt then Z.max (rfind "\" p) (rfind "/" p) else rfind "/" p).
  assert (Hsep : -1 <= sepIndex).
  { assert (Hs := rfind_from_spec "/" p 0 ltac:(lia)).
    assert (Hb := rfind_from_spec "\" p 0 ltac:(lia)).
    subst sepIndex. unfold rfind. destruct nt; lia. }
  destruct ((sepIndex <? rfind "." p) && _) eqn:E; cbn [fst snd]; [right|now left].
  apply andb_true_iff in E. destruct E as [E _]. apply Z.ltb_lt in E.
  destruct (rfind_from_spec "." p 0 ltac:(lia)) as [H|[_ H]];
    unfold rfind in *; [lia|].
  rewrite Z.sub_0_r in H. now apply substring_head.
Qed.

(** X9: the two paths [convert_video] derives from the output path.
    [os.path.splitext] cuts the path in two parts that concatenate back
    to it, and the extension is empty or begins with a dot.  Hence the
    file the audio merge writes never has the path of the video it
    reads, and the path of the fallback writer coincides with the
    original one exactly when the extension that [splitext] cuts off is
    ".avi".  (That is not the same as the path ending in ".avi": a file
    name that is all extension, as in ".avi" or "clips/.avi", has the
    empty extension, and its fallback path is the name with ".avi"
    appended.) *)
Theorem derived_paths (nt : bool) (output_path : string) :
  let root := fst (splitext nt output_path) in
  let ext := snd (splitext nt output_path) in
  root ++ ext = output_path
  /\ (ext = "" \/ exists rest, ext = String "." rest)
  /\ root ++ "_with_audio.mp4" <> output_path
  /\ (alt_path nt output_path = output_path <-> ext = ".avi").
Proof.
  intros root ext.
  assert (Hj : root ++ ext = output_path) by apply splitext_join.
  assert (He : ext = "" \/ exists rest, ext = String "." rest) by apply splitext_ext.
  unfold alt_path. change (fst (splitext nt output_path)) with root.
  clearbody root ext.
  split; [exact Hj|]. split; [exact He|]. split.
  - intros H. rewrite <- Hj in H. apply string_app_inv_head in H.
    destruct He as [He|[rest He]]; rewrite He in H; discriminate.
  - split; intros H.
    + rewrite <- Hj in H. apply string_app_inv_head in H. now symmetry.
    + now rewrite <- H.
Qed.

(** ** Early returns *)



Section EarlyReturn.

Context {R : Rounding}.
Variable env : Env.




End EarlyReturn.



(** ** A clip of one frame size, saved *)

Lemma sampler_grid {R : Rounding} (inter_area : Kernel)
      (frame_gray : GrayFrame) (H W C : Z) (S : Q) (chars : string) :
  shape frame_gray = (H, W) ->
  1 <= H -> 1 <= W -> 1 <= C -> (0 < S)%Q ->
  1 <= len chars <= 2 ^ 53 ->
  exists lines,
    frame_to_ascii_lines inter_area frame_gray C S chars = Ok lines
    /\ List.length lines = Z.to_nat (grid_rows H W C S)
    /\ Forall (fun line => len line = C) lines.
Proof.
  intros Hshape HH HW HC HS HK.
  rewrite (sampler_rows inter_area frame_gray H W C S chars Hshape HH HW HC HS).
  set (small := inter_area byte frame_gray (C, grid_rows H W C S)).
  destruct (comprehension_ok
              (fun r =>
                 cs <~ comprehension
                         (fun c => get_char_for_gray (uint8 (small r c)) chars)
                         (range C) ;;
                 Ok (join cs))
              (fun line => len line = C) (range (grid_rows H W C S)))
    as [lines [El [Hn HP]]].
  { intros r _. destruct (glyph_row (small r) C chars HK) as [cs [Hcs Hlen]].
    exists (join cs). rewrite Hcs. split; [reflexivity|].
    unfold len. rewrite length_join, Hlen. lia. }
  exists lines. rewrite length_range in Hn. auto.
Qed.

Lemma default_scale_pos {R : Rounding} : (0 < default_scale)%Q.
Proof. unfold default_scale. apply fl_pos. reflexivity. Qed.

Lemma rendered_size {R : Rounding} (env : Env) (cols : Z) (font : Font)
      (frame : ColorFrame) (H W : Z) :
  shape frame = (H, W) -> 1 <= H -> 1 <= W -> 1 <= cols ->
  exists lines img,
    frame_to_ascii_lines (INTER_AREA env) (cvtColor_BGR2GRAY (BGR2GRAY env) frame)
                         cols default_scale ASCII_CHARS = Ok lines
    /\ render_ascii_to_image lines font black white default_padding = Ok img
    /\ im_size img = image_size font cols (grid_rows H W cols default_scale)
    /\ rendered env cols font frame = Ok (image_to_bgr (np_array env) img).
Proof.
  intros Hs HH HW HC.
  destruct (sampler_grid (INTER_AREA env) (cvtColor_BGR2GRAY (BGR2GRAY env) frame)
                         H W cols default_scale ASCII_CHARS Hs HH HW HC
                         default_scale_pos) as (lines & El & Hn & Hc).
  { unfold len. simpl. lia. }
  destruct (render_ok lines font black white default_padding) as (img & Ei & Hsz & _).
  { unfold default_padding. lia. }
  assert (Hrows : 1 <= grid_rows H W cols default_scale) by (unfold grid_rows; lia).
  exists lines, img. split; [exact El|]. split; [exact Ei|].
  split.
  - rewrite Hsz. unfold image_size. f_equal.
    + rewrite (max_cols_uniform lines cols); [reflexivity | | exact Hc].
      intros ->. simpl in Hn. lia.
    + unfold rows. rewrite Hn.
      replace (Z.max 1 (Z.of_nat (Z.to_nat (grid_rows H W cols default_scale))))
        with (grid_rows H W cols default_scale) by lia.
      reflexivity.
  - unfold rendered. rewrite El. cbn [rbind]. rewrite Ei. reflexivity.
Qed.

Lemma combine_snoc {A B} (f : nat -> B) (l : list A) (x : A) (a : nat) :
  combine (l ++ [x]) (map f (seq a (List.length (l ++ [x]))))
  = (combine l (map f (seq a (List.length l))) ++ [(x, f (a + List.length l)%nat)])%list.
Proof.
  revert a. induction l as [|y l IH]; intros a; simpl.
  - now rewrite Nat.add_0_r.
  - rewrite IH, Nat.add_succ_r. reflexivity.
Qed.

Lemma warnings_S (env : Env) (n : nat) :
  warnings env (S n)
  = (warnings env n ++ if write_raises env n then [write_failed] else [])%list.
Proof.
  unfold warnings. rewrite seq_S, flat_map_app. simpl. now rewrite app_nil_r.
Qed.

Section Uniform.

Context {R : Rounding}.
Variable env : Env.
Hypothesis quiet : interrupt env = None.
Variable output_path : string.
Hypothesis opens : forall fps size, writer_opens env output_path mp4v fps size = true.
Hypothesis answers : answers_size_or_nothing env.
Variables (fps : Q) (font : Font) (size : Z * Z).

Lemma writer_size_uniform (w : VideoWriter) :
  vw_size w = size -> writer_size env w (fst size) (snd size) = size.
Proof.
  intros E. unfold writer_size.
  destruct (answers w) as [[H|H]|[H1 H2]].
  - replace (reported env w CAP_PROP_FRAME_WIDTH <=? 0) with true
      by (symmetry; now apply Z.leb_le).
    simpl. now destruct size.
  - replace (reported env w CAP_PROP_FRAME_HEIGHT <=? 0) with true
      by (symmetry; now apply Z.leb_le).
    rewrite orb_true_r. now destruct size.
  - rewrite H1, H2, E. destruct size as [a b]; simpl.
    now destruct ((a <=? 0) || (b <=? 0)).
Qed.

Lemma save_frame_saving (written : list ColorFrame) (lines : list string)
      (img : Image) (s : State) :
  saving env output_path fps size written s ->
  render_ascii_to_image lines font black white default_padding = Ok img ->
  im_size img = size ->
  exists s',
    save_frame env fps font lines s = (Val tt, s')
    /\ saving env output_path fps size
              (written ++ [image_to_bgr (np_array env) img]) s'.
Proof.
  intros (Hr & Hp & Hn & He & Hw) Hi Hsz.
  destruct s as [w p t c r e n k m]. simpl in Hr, Hp, Hn, He, Hw. subst r p m e.
  destruct size as [sw sh] eqn:Esize.
  assert (Hshape := shape_image_to_bgr (np_array env) img sw sh Hsz).
  assert (Hfit := fit_to_canvas_same (INTER_AREA env) _ _ _ Hshape).
  unfold save_frame. unfold bind at 1. rewrite (step_uninterrupted env quiet).
  rewrite Hi. unfold lift at 1. rewrite Hshape.
  unfold bind at 1. unfold get_state at 1.
  cbn [set_steps st_steps st_writer st_output_path st_last_time st_cap_released
       st_retired st_events st_clock st_writes].
  subst w. destruct written as [|f0 rest].
  - cbv [open_writer bind step lift ret get_state modify emit new_writer
         writer_isOpened write_frame write
         set_writer set_retired set_steps set_events set_writes
         st_writer st_output_path st_last_time st_cap_released st_retired st_events
         st_steps st_clock st_writes vw_opened].
    rewrite quiet, opens. cbv beta iota delta [negb]. rewrite Hfit. cbv beta iota.
    cbn [List.length].
    destruct (write_raises env 0) eqn:Ew; cbn [negb];
      (eexists; split; [reflexivity|]);
      unfold saving;
      cbn [st_writer st_output_path st_retired st_events st_writes app List.length];
      rewrite warnings_S, Ew; cbn [seq map combine];
      rewrite ?Ew; repeat split; rewrite ?app_nil_r; reflexivity.
  - remember (f0 :: rest) as written eqn:Ewr.
    match goal with
    | |- context [writer_size env ?w0 sw sh] =>
        assert (Hws : writer_size env w0 sw sh = (sw, sh))
    end.
    { match goal with
      | |- writer_size env ?w0 sw sh = _ =>
          assert (Hu := writer_size_uniform w0)
      end.
      rewrite Esize in Hu. now apply Hu. }
    rewrite Hws.
    cbv [bind step lift ret get_state modify emit write_frame write
         set_writer set_retired set_steps set_events set_writes
         st_writer st_output_path st_last_time st_cap_released st_retired st_events
         st_steps st_clock st_writes
         vw_path vw_fourcc vw_fps vw_size vw_opened vw_released vw_written].
    rewrite quiet. cbv beta iota. rewrite Hfit. cbv beta iota.
    destruct (write_raises env (List.length written)) eqn:Ew; cbn [negb];
      (eexists; split; [reflexivity|]);
      unfold saving;
      cbn [st_writer st_output_path st_retired st_events st_writes];
      rewrite combine_snoc, length_app, Nat.add_1_r, warnings_S, Ew;
      cbn [Nat.add List.length]; rewrite ?app_nil_r;
      (destruct (written ++ [image_to_bgr (np_array env) img])%list eqn:Eapp;
       [now destruct written|]);
      repeat split; rewrite Ew; reflexivity.
Qed.

Variables (cols : Z) (frame_delay : Q) (H W : Z).
Hypothesis HH : 1 <= H.
Hypothesis HW : 1 <= W.
Hypothesis HC : 1 <= cols.
Hypothesis Hsize : size = image_size font cols (grid_rows H W cols default_scale).

Lemma loop_saving (clip : list ColorFrame) :
  Forall (fun frame => shape frame = (H, W)) clip ->
  forall written s,
    saving env output_path fps size written s ->
    exists out s',
      loop env cols fps frame_delay font true clip s = (Val tt, s')
      /\ Forall2 (fun frame o => rendered env cols font frame = Ok o) clip out
      /\ saving env output_path fps size (written ++ out) s'.
Proof.
  induction 1 as [|frame clip Hf _ IH]; intros written s Hs.
  - exists [], (set_steps (S (st_steps s)) s). simpl loop.
    rewrite (step_uninterrupted env quiet). split; [reflexivity|].
    split; [constructor|]. rewrite app_nil_r. exact Hs.
  - destruct (rendered_size env cols font frame H W Hf HH HW HC)
      as (lines & img & El & Ei & Hsz & Hr).
    rewrite <- Hsize in Hsz.
    simpl loop. unfold bind at 1. rewrite (step_uninterrupted env quiet).
    unfold ret at 1. unfold bind at 1. rewrite (step_uninterrupted env quiet), El.
    unfold lift at 1. cbn [negb]. unfold bind at 1.
    destruct (save_frame_saving written lines img
                (set_steps (S (st_steps (set_steps (S (st_steps s)) s)))
                           (set_steps (S (st_steps s)) s)) Hs Ei Hsz)
      as (s1 & -> & H1).
    destruct (IH _ s1 H1) as (out & s2 & E2 & Hout & H2).
    exists (image_to_bgr (np_array env) img :: out), s2.
    split; [exact E2|]. split; [now constructor|].
    now rewrite <- app_assoc in H2.
Qed.

End Uniform.

Lemma map_fst_written {A B} (f : nat -> B) (l : list A) (a : nat) :
  map fst (combine l (map f (seq a (List.length l)))) = l.
Proof. revert a; induction l as [|x l IH]; intros a; simpl; [|rewrite IH]; reflexivity. Qed.

Lemma map_snd_written {A B} (f : nat -> B) (l : list A) (a : nat) :
  map snd (combine l (map f (seq a (List.length l)))) = map f (seq a (List.length l)).
Proof. revert a; induction l as [|x l IH]; intros a; simpl; [|rewrite IH]; reflexivity. Qed.

(** Without interrupts [finish] in save mode: the handles are released,
    the Done dialog is shown, and whatever the audio merge shows comes
    after it; only the audio merge can end it with an exception. *)
Lemma finish_saved {R : Rounding} (env : Env) (input_path : string)
      (merge_audio_opt : bool) (s : State) :
  interrupt env = None ->
  exists o s' more,
    finish env input_path true merge_audio_opt s = (o, s')
    /\ (o = Val tt \/ merge_escapes env merge_audio_opt o)
    /\ st_events s' = (st_events s ++ done (st_output_path s) :: more)%list
    /\ st_writer s' = option_map release (st_writer s)
    /\ st_retired s' = st_retired s
    /\ st_output_path s' = st_output_path s
    /\ (merge_audio_opt = false -> more = []).
Proof.
  intros quiet. destruct s as [w p t c r e n k m].
  unfold_pipeline. cbv [lift]. rewrite quiet. unfold done.
  unfold merge_escapes.
  destruct merge_audio_opt, (which env "ffmpeg") as [exe|];
    repeat match goal with
      | |- context [match ?c with Exited0 _ => _ | _ => _ end] =>
          destruct c as [?|[?|] ?| |] eqn:?
      | |- context [if String.eqb ?a ?b then _ else _] => destruct (String.eqb a b)
      end;
    cbv beta iota; unfold_pipeline; destruct w;
    (eexists; eexists; eexists; split; [reflexivity|]);
    cbn [st_writer st_retired st_output_path st_events option_map];
    rewrite <- ?app_assoc; cbn [app];
    (split; [first [left; reflexivity
                   | right; split; [reflexivity|];
                     eexists; eexists; split; [reflexivity|];
                     first [left; split; [eassumption|reflexivity]
                           | right; split; [eassumption|reflexivity]]]|]);
    repeat split; discriminate.
Qed.

(** X11: a save-mode run over a clip whose frames all have one size,
    with a writer that opens and answers the size query with its own
    size or not at all, and no interrupt.  The run is left with one
    writer, opened at the output path with the primary codec, the
    effective frame rate and the size of the rendered grid.  Every frame
    of the source was passed to it, in order and none dropped, and each
    one is the rendered image itself, not a letterboxed copy.  A write
    that raises only adds a printed warning; the Done dialog follows the
    warnings.  Without the audio merge the Done dialog comes last and
    the run ends normally; with it, only what the merge shows follows,
    and the run ends normally unless running the muxing tool raises an
    OSError or a UnicodeDecodeError. *)
Theorem uniform_clip_saved {R : Rounding} (env : Env) (cap : Video)
        (input_path output_path : string) (cols : Z) (fps : Q) (font_size : Z)
        (merge_audio_opt : bool) (H W : Z) :
  interrupt env = None ->
  VideoCapture env input_path = Some cap ->
  (forall fps size, writer_opens env output_path mp4v fps size = true) ->
  answers_size_or_nothing env ->
  frames cap <> [] ->
  Forall (fun frame => shape frame = (H, W)) (frames cap) ->
  1 <= H -> 1 <= W -> 1 <= cols ->
  let font := load_font env font_size in
  let n := List.length (frames cap) in
  exists o s w more,
    convert_video env input_path output_path cols fps font_size true merge_audio_opt
    = (o, s)
    /\ (o = Val tt \/ merge_escapes env merge_audio_opt o)
    /\ st_writer s = Some w /\ st_retired s = [] /\ st_output_path s = output_path
    /\ vw_path w = output_path /\ vw_fourcc w = mp4v
    /\ vw_fps w = effective_fps fps (native_fps cap)
    /\ vw_size w = image_size font cols (grid_rows H W cols default_scale)
    /\ Forall2 (fun frame o => rendered env cols font frame = Ok o)
               (frames cap) (map fst (vw_written w))
    /\ map snd (vw_written w) = map (fun i => negb (write_raises env i)) (seq 0 n)
    /\ st_events s = (warnings env n ++ done output_path :: more)%list
    /\ (merge_audio_opt = false -> o = Val tt /\ more = []).
Proof.
  intros Hq Hcap Hopen Hans Hne Hshape HH HW HC font n.
  rewrite (convert_video_open env cap) by exact Hcap.
  unfold try_except_finally, try_body. unfold bind at 1.
  fold font.
  destruct (loop_saving env Hq output_path Hopen Hans
                        (effective_fps fps (native_fps cap)) font
                        (image_size font cols (grid_rows H W cols default_scale))
                        cols (fl (1 / effective_fps fps (native_fps cap))) H W
                        HH HW HC eq_refl (frames cap) Hshape [] (entry env output_path))
    as (out & s1 & -> & Hout & Hs1).
  { repeat split. }
  cbn [app] in Hs1.
  destruct (finish_saved env input_path merge_audio_opt s1 Hq)
    as (o & s2 & more & -> & Ho & He & Hw & Hr & Hp & Hm).
  destruct Hs1 as (Hr1 & Hp1 & Hn1 & He1 & Hw1).
  assert (Hlen : List.length out = n).
  { subst n. symmetry. eapply Forall2_length. exact Hout. }
  destruct out as [|o1 out'] eqn:Eout.
  { apply Forall2_length in Hout. destruct (frames cap); [congruence|discriminate]. }
  rewrite <- Eout in *. clear Eout o1 out'.
  rewrite Hw1 in Hw. cbn [option_map] in Hw.
  exists o, (closed s2). eexists. exists more.
  split.
  { destruct Ho as [->|(_ & exe & cmd & _ & [[_ ->]|[_ ->]])];
      now rewrite finally_closed. }
  split; [exact Ho|].
  unfold closed. rewrite Hw. cbn [st_writer st_retired st_output_path st_events
                                   set_cap_released set_writer release
                                   vw_path vw_fourcc vw_fps vw_size vw_written].
  split; [reflexivity|].
  cbn [release vw_path vw_fourcc vw_fps vw_size vw_written].
  rewrite Hr, Hr1, Hp, Hp1, He, He1, Hp1, map_fst_written, map_snd_written, Hlen.
  repeat split; try exact Hout.
  - destruct Ho as [->|[E _]]; [reflexivity|congruence].
  - now apply Hm.
Qed.

Lemma uniform_clip_saved_witness :
  let env := Demo.world [Demo.flat 36 64; Demo.flat 36 64] (fun _ _ => true)
                        Demo.silent None in
  (exists s w,
      @convert_video exact_arithmetic env "in.mp4" "out.mp4" 40 0 12 true false
      = (Val tt, s)
      /\ st_writer s = Some w
      /\ vw_size w = (292, 94)
      /\ List.length (vw_written w) = 2%nat
      /\ st_events s = [done "out.mp4"])
  /\ (exists o s w more,
         @convert_video exact_arithmetic env "in.mp4" "out.mp4" 40 0 12 true true
         = (o, s)
         /\ st_writer s = Some w
         /\ List.length (vw_written w) = 2%nat
         /\ st_events s = done "out.mp4" :: more).
Proof.
  intros env.
  assert (Hans : answers_size_or_nothing env).
  { intros w. left. left. vm_compute. discriminate. }
  assert (Hshape : Forall (fun frame => shape frame = (36, 64))
                          [Demo.flat 36 64; Demo.flat 36 64])
    by (repeat constructor).
  split.
  - destruct (@uniform_clip_saved
                exact_arithmetic env
                {| native_fps := 30; frames := [Demo.flat 36 64; Demo.flat 36 64] |}
                "in.mp4" "out.mp4" 40 0 12 false 36 64
                eq_refl eq_refl (fun _ _ => eq_refl) Hans
                ltac:(discriminate) Hshape ltac:(lia) ltac:(lia) ltac:(lia))
      as (o & s & w & more & E & _ & Hw & _ & _ & _ & _ & _ & Hsz & _ & Hsnd & Hev & Hm).
    destruct (Hm eq_refl) as [-> ->].
    exists s, w. split; [exact E|]. split; [exact Hw|]. split; [|split].
    + rewrite Hsz. vm_compute. reflexivity.
    + rewrite <- (length_map snd), Hsnd. reflexivity.
    + rewrite Hev. reflexivity.
  - destruct (@uniform_clip_saved
                exact_arithmetic env
                {| native_fps := 30; frames := [Demo.flat 36 64; Demo.flat 36 64] |}
                "in.mp4" "out.mp4" 40 0 12 true 36 64
                eq_refl eq_refl (fun _ _ => eq_refl) Hans
                ltac:(discriminate) Hshape ltac:(lia) ltac:(lia) ltac:(lia))
      as (o & s & w & more & E & _ & Hw & _ & _ & _ & _ & _ & _ & _ & Hsnd & Hev & _).
    exists o, s, w, more. split; [exact E|]. split; [exact Hw|]. split.
    + rewrite <- (length_map snd), Hsnd. reflexivity.
    + rewrite Hev. reflexivity.
Defined.

(** X12: when the source opens but delivers no frame, a save-mode run
    without interrupt still shows the Done dialog for the output path
    first, although no writer was ever constructed and nothing was
    written.  The run ends normally, except when the audio merge was
    requested and running the muxing tool raises an OSError or a
    UnicodeDecodeError, which then leaves [convert_video]; without the
    audio merge the Done dialog is all the run shows. *)
Theorem empty_clip_reports_done {R : Rounding} (env : Env) (cap : Video)
        (input_path output_path : string) (cols : Z) (fps : Q) (font_size : Z)
        (merge_audio_opt : bool) :
  interrupt env = None ->
  VideoCapture env input_path = Some cap ->
  frames cap = [] ->
  exists o s more,
    convert_video env input_path output_path cols fps font_size true merge_audio_opt
    = (o, s)
    /\ (o = Val tt \/ merge_escapes env merge_audio_opt o)
    /\ st_writer s = None /\ st_retired s = [] /\ st_writes s = 0%nat
    /\ st_events s = done output_path :: more
    /\ (merge_audio_opt = false -> o = Val tt /\ more = []).
Proof.
  intros Hq Hcap Hnil.
  rewrite (convert_video_open env cap) by exact Hcap.
  unfold try_except_finally, try_body. rewrite Hnil. unfold entry, initial.
  cbv [loop]. unfold_pipeline. cbv [lift]. rewrite Hq. unfold done.
  unfold merge_escapes.
  destruct merge_audio_opt, (which env "ffmpeg") as [exe|];
    repeat match goal with
      | |- context [match ?c with Exited0 _ => _ | _ => _ end] =>
          destruct c as [?|[?|] ?| |] eqn:?
      | |- context [if String.eqb ?a ?b then _ else _] => destruct (String.eqb a b)
      end;
    cbv beta iota; unfold_pipeline;
    (eexists; eexists; eexists; split; [reflexivity|]);
    cbn [st_writer st_retired st_writes st_events app];
    (split; [first [left; reflexivity
                   | right; split; [reflexivity|];
                     eexists; eexists; split; [reflexivity|];
                     first [left; split; [eassumption|reflexivity]
                           | right; split; [eassumption|reflexivity]]]|]);
    repeat split; discriminate.
Qed.

(** ** Interrupts *)

Lemma ni_rbind {A B} (r : result A) (k : A -> result B) :
  never_interrupts r -> (forall a, never_interrupts (k a)) -> never_interrupts (rbind r k).
Proof.
  intros Hr Hk. destruct r as [a|e]; simpl; [apply Hk|].
  intros E. apply Hr. injection E as ->. reflexivity.
Qed.

Lemma ni_comprehension {A B} (f : A -> result B) (xs : list A) :
  (forall x, never_interrupts (f x)) -> never_interrupts (comprehension f xs).
Proof.
  intros Hf. induction xs as [|x xs IH]; simpl; [discriminate|].
  apply ni_rbind; [apply Hf|]. intros y.
  apply ni_rbind; [exact IH|]. discriminate.
Qed.

Ltac ni :=
  repeat match goal with
         | |- never_interrupts (rbind _ _) => apply ni_rbind; [|intros]
         | |- never_interrupts (comprehension _ _) => apply ni_comprehension; intros
         | |- never_interrupts (let '(_, _) := ?x in _) => destruct x
         | |- never_interrupts (if ?b then _ else _) => destruct b
         | |- never_interrupts (match ?x with _ => _ end) => destruct x
         | |- never_interrupts (Ok _) => discriminate
         | |- never_interrupts (Raise _) => discriminate
         end.

Section Pure.

Context {R : Rounding}.

Lemma ni_frame_to_ascii_lines inter_area frame_gray cols scale chars :
  never_interrupts (frame_to_ascii_lines inter_area frame_gray cols scale chars).
Proof.
  unfold frame_to_ascii_lines, truediv, fdiv, cv2_resize, get_char_for_gray, getitem.
  ni.
Qed.

Lemma ni_render_ascii_to_image lines font bg fg padding :
  never_interrupts (render_ascii_to_image lines font bg fg padding).
Proof. unfold render_ascii_to_image, Image_new. ni. Qed.

Lemma ni_fit_to_canvas inter_area img_bgr out_w out_h :
  never_interrupts (fit_to_canvas inter_area img_bgr out_w out_h).
Proof.
  unfold fit_to_canvas, fit_scale, truediv, cv2_resize, np_zeros, assign_block.
  ni.
Qed.

End Pure.

Section OnTime.

Context {R : Rounding}.
Variable env : Env.
Variable n : nat.
Hypothesis pending : interrupt env = Some n.

Lemma ot_ret {A} (a : A) : on_time n (ret a).
Proof. intros s H. exact H. Qed.

Lemma ot_return {A} : on_time n (@return_ A).
Proof. intros s H. exact H. Qed.

Lemma ot_get_state : on_time n get_state.
Proof. intros s H. exact H. Qed.

Lemma ot_lift {A} (r : result A) : never_interrupts r -> on_time n (lift r).
Proof.
  intros Hr s H. unfold lift. destruct r as [a|e]; [exact H|].
  destruct e; try exact H. now elim Hr.
Qed.

Lemma ot_modify (f : State -> State) :
  (forall s, st_steps (f s) = st_steps s) -> on_time n (modify f).
Proof. intros Hf s H. unfold modify. now rewrite Hf. Qed.

Lemma ot_emit (e : event) : on_time n (emit e).
Proof. apply ot_modify. reflexivity. Qed.

Lemma ot_bind {A B} (c : M A) (k : A -> M B) :
  on_time n c -> (forall a, on_time n (k a)) -> on_time n (bind c k).
Proof.
  intros Hc Hk s H. unfold bind. specialize (Hc s H).
  destruct (c s) as [[a|e|] s1]; [now apply Hk | exact Hc | exact Hc].
Qed.

Lemma ot_step {A} (c : M A) : on_time n c -> on_time n (step env c).
Proof.
  intros Hc s H. unfold step. rewrite pending.
  destruct (Nat.eqb_spec n (st_steps s)) as [E|E].
  - simpl. now rewrite E.
  - apply Hc. simpl. lia.
Qed.

Lemma ot_writer_isOpened : on_time n writer_isOpened.
Proof. intros s H. exact H. Qed.

Lemma ot_time_time : on_time n (time_time env).
Proof. intros s H. exact H. Qed.

Lemma ot_write_frame (to_write : ColorFrame) : on_time n (write_frame env to_write).
Proof.
  intros [w p t c r e k0 k m] H. unfold write_frame, emit, modify.
  destruct (negb (write_raises env _)), w; exact H.
Qed.

Lemma ot_release_writer : on_time n release_writer.
Proof. apply ot_modify. intros s. now destruct (st_writer s). Qed.

Lemma ot_cap_release : on_time n cap_release.
Proof. apply ot_modify. reflexivity. Qed.

Lemma ot_new_writer path fourcc fps size : on_time n (new_writer env path fourcc fps size).
Proof. apply ot_modify. reflexivity. Qed.

Ltac ot :=
  repeat first
    [ apply ot_bind; [|intros]
    | apply ot_step
    | apply ot_ret | apply ot_return | apply ot_get_state | apply ot_emit
    | apply ot_writer_isOpened | apply ot_time_time | apply ot_write_frame
    | apply ot_release_writer | apply ot_cap_release | apply ot_new_writer
    | apply ot_modify; reflexivity
    | apply ot_lift;
      first [apply ni_frame_to_ascii_lines | apply ni_render_ascii_to_image
            | apply ni_fit_to_canvas]
    | match goal with
      | |- on_time _ (let '(_, _) := ?x in _) => destruct x
      | |- on_time _ (if ?b then _ else _) => destruct b
      | |- on_time _ (match ?x with _ => _ end) => destruct x
      end ].

Lemma ot_play_frame frame_delay lines : on_time n (play_frame env frame_delay lines).
Proof. unfold play_frame. ot. Qed.

Lemma ot_open_writer fps img_w img_h : on_time n (open_writer env fps img_w img_h).
Proof. unfold open_writer. ot. Qed.

Lemma ot_save_frame fps font lines : on_time n (save_frame env fps font lines).
Proof. unfold save_frame. ot; apply ot_open_writer. Qed.

Lemma ot_loop cols fps frame_delay font save_mode clip :
  on_time n (loop env cols fps frame_delay font save_mode clip).
Proof.
  induction clip as [|frame clip IH]; cbn [loop]; [ot|].
  apply ot_bind; [ot | intros _].
  apply ot_bind; [ot | intros lines].
  apply ot_bind; [|intros _; exact IH].
  destruct save_mode; cbn [negb]; [apply ot_save_frame | apply ot_play_frame].
Qed.

Lemma ot_merge_audio video_path audio_src out_path :
  on_time n (merge_audio env video_path audio_src out_path).
Proof. unfold merge_audio. ot. Qed.

Lemma ot_finish input_path save_mode merge_audio_opt :
  on_time n (finish env input_path save_mode merge_audio_opt).
Proof. unfold finish. ot; apply ot_merge_audio. Qed.

Lemma ot_try_body cap input_path cols fps font_size save_mode merge_audio_opt :
  on_time n (try_body env cap input_path cols fps font_size save_mode merge_audio_opt).
Proof. unfold try_body. apply ot_bind; [apply ot_loop | intros; apply ot_finish]. Qed.

End OnTime.

(** X13: with an interrupt pending for statement n of the [try] body,
    no statement after that one is started.  When the interrupt is
    delivered, the run still ends normally: the exception is absorbed,
    and the notice that the user stopped the run is the last thing
    shown. *)
Theorem interrupt_stops_the_run {R : Rounding} (env : Env) (cap : Video)
        (input_path output_path : string) (cols : Z) (fps : Q) (font_size : Z)
        (save_mode merge_audio_opt : bool) (n : nat) :
  interrupt env = Some n ->
  VideoCapture env input_path = Some cap ->
  let run := convert_video env input_path output_path cols fps font_size
                           save_mode merge_audio_opt in
  (st_steps (snd run) <= S n)%nat
  /\ fst run <> Exc KeyboardInterrupt
  /\ (st_steps (snd run) = S n ->
      fst run = Val tt
      /\ exists before, st_events (snd run) = (before ++ [stopped_by_user])%list).
Proof.
  intros Hn Hcap run. subst run.
  rewrite (convert_video_open env cap) by exact Hcap.
  assert (H := ot_try_body env n Hn cap input_path cols fps font_size
                           save_mode merge_audio_opt (entry env output_path)
                           ltac:(simpl; lia)).
  unfold try_except_finally.
  destruct (try_body env cap input_path cols fps font_size save_mode merge_audio_opt
                     (entry env output_path)) as [[[]|e|] s1];
    cbv beta iota in H.
  - rewrite finally_closed. cbn [fst snd]. rewrite closed_steps.
    split; [lia|]. split; [discriminate|]. intros E. exfalso. lia.
  - destruct e;
      try (rewrite finally_closed; cbn [fst snd]; rewrite closed_steps;
           split; [lia|]; split; [discriminate|]; intros E; exfalso; lia).
    replace ((emit (print (nl ++ "Stopped by user.")) ;; release_writer ;; cap_release) s1)
      with (@Val unit tt, closed (set_events (st_events s1 ++ [stopped_by_user]) s1))
      by (symmetry; unfold bind at 1; unfold emit, modify; apply finally_closed).
    cbn [fst snd]. rewrite closed_steps.
    split; [simpl; lia|]. split; [discriminate|].
    intros _. split; [reflexivity|]. exists (st_events s1).
    now rewrite closed_events.
  - rewrite finally_closed. cbn [fst snd]. rewrite closed_steps.
    split; [lia|]. split; [discriminate|]. intros E. exfalso. lia.
Qed.

Lemma interrupt_stops_the_run_witness :
  let env := Demo.world Demo.mismatched (fun _ _ => true) Demo.faithful (Some 9%nat) in
  let run := @convert_video exact_arithmetic env "in.mp4" "out.mp4" 40 0 12 true false in
  st_steps (snd run) = 10%nat
  /\ fst run = Val tt
  /\ exists before, st_events (snd run) = (before ++ [stopped_by_user])%list.
Proof.
  intros env run.
  assert (Hsteps : st_steps (snd run) = 10%nat) by (vm_compute; reflexivity).
  split; [exact Hsteps|].
  exact (proj2 (proj2 (@interrupt_stops_the_run
                         exact_arithmetic env
                         {| native_fps := 30; frames := Demo.mismatched |}
                         "in.mp4" "out.mp4" 40 0 12 true false 9%nat eq_refl eq_refl))
               Hsteps).
Defined.

(** ** The letterbox touches the canvas *)

Section Tight.

Context {R : Rounding}.


End Tight.



(** ** The command line: [main] and [_run_headless] *)

(** X15: run as a script, the file never reaches a conversion and never
    opens the window.  With [--no-gui] and no input the argument parser
    exits with status 2; with [--no-gui] and an input, [_run_headless]
    calls [convert_video] with the keyword [show_dialogs], which it does
    not accept, a TypeError; without [--no-gui], [main] looks up
    [run_gui], which is defined only after the call of [main], a
    NameError. *)
Theorem script_never_converts {R : Rounding} (env : Env) (args : Script.Namespace) :
  Script.script env args
  = Script.Raised
      (if Script.no_gui args then
         if String.eqb (Script.str_or (Script.input args) "") ""
         then Script.SystemExit 2
         else Script.TypeError_unexpected_keyword "convert_video" "show_dialogs"
       else Script.NameError "run_gui").
Proof.
  unfold Script.script, Script.main.
  destruct (Script.no_gui args); [|reflexivity].
  destruct (String.eqb (Script.str_or (Script.input args) "") ""); reflexivity.
Qed.

(** ** A frame the sampler rejects *)

Lemma sampler_zero_columns {R : Rounding} (inter_area : Kernel)
      (frame_gray : GrayFrame) (S : Q) (chars : string) :
  frame_to_ascii_lines inter_area frame_gray 0 S chars = Raise ZeroDivisionError.
Proof. unfold frame_to_ascii_lines. now destruct (shape frame_gray). Qed.

Lemma first_frame_rejected {R : Rounding} (env : Env) (cap : Video)
      (input_path output_path : string) (cols : Z) (fps : Q) (font_size : Z)
      (save_mode merge_audio_opt : bool) (frame : ColorFrame) (rest : list ColorFrame)
      (e : exn) :
  interrupt env = None ->
  VideoCapture env input_path = Some cap ->
  frames cap = frame :: rest ->
  frame_to_ascii_lines (INTER_AREA env) (cvtColor_BGR2GRAY (BGR2GRAY env) frame)
                       cols default_scale ASCII_CHARS = Raise e ->
  convert_video env input_path output_path cols fps font_size save_mode merge_audio_opt
  = (Exc e, rejected_at_first_frame env output_path).
Proof.
  intros Hq Hcap Hf He.
  assert (Hni := ni_frame_to_ascii_lines
                   (INTER_AREA env) (cvtColor_BGR2GRAY (BGR2GRAY env) frame)
                   cols default_scale ASCII_CHARS).
  rewrite (convert_video_open env cap) by exact Hcap.
  unfold try_except_finally, try_body. rewrite Hf. cbn [loop].
  unfold bind at 1. unfold bind at 1. rewrite (step_uninterrupted env Hq).
  unfold ret at 1. unfold bind at 1. rewrite (step_uninterrupted env Hq), He.
  unfold lift at 1.
  destruct e; try (rewrite finally_closed; reflexivity).
  rewrite He in Hni. now elim Hni.
Qed.

(** X16: a frame that the sampler rejects ends the run with the
    sampler's exception: no dialog is shown, no writer is constructed,
    and only the [finally] block runs, releasing the source once.  In
    particular a column count of 0, which is not validated, ends every
    run over a non-empty clip with ZeroDivisionError at its first
    frame, in either mode. *)
Theorem rejected_frame_aborts_the_run {R : Rounding} (env : Env) (cap : Video)
        (input_path output_path : string) (cols : Z) (fps : Q) (font_size : Z)
        (save_mode merge_audio_opt : bool) (frame : ColorFrame) (rest : list ColorFrame) :
  interrupt env = None ->
  VideoCapture env input_path = Some cap ->
  frames cap = frame :: rest ->
  let s := rejected_at_first_frame env output_path in
  (st_events s = [] /\ st_writer s = None /\ st_writes s = 0%nat
   /\ st_cap_released s = 1%nat)
  /\ (forall e,
         frame_to_ascii_lines (INTER_AREA env) (cvtColor_BGR2GRAY (BGR2GRAY env) frame)
                              cols default_scale ASCII_CHARS = Raise e ->
         convert_video env input_path output_path cols fps font_size
                       save_mode merge_audio_opt
         = (Exc e, s))
  /\ convert_video env input_path output_path 0 fps font_size save_mode merge_audio_opt
     = (Exc ZeroDivisionError, s).
Proof.
  intros Hq Hcap Hf s. split; [repeat split|]. split.
  - intros e He. now apply (first_frame_rejected env cap) with (frame := frame) (rest := rest).
  - apply (first_frame_rejected env cap) with (frame := frame) (rest := rest); auto.
    apply sampler_zero_columns.
Qed.

Lemma rejected_frame_aborts_the_run_witness :
  let env := Demo.world [Demo.flat 36 64] (fun _ _ => true) Demo.silent None in
  @convert_video exact_arithmetic env "in.mp4" "out.mp4" 0 0 12 true true
  = (Exc ZeroDivisionError, rejected_at_first_frame env "out.mp4")
  /\ @convert_video exact_arithmetic env "in.mp4" "out.mp4" (-3) 0 12 false true
     = (Exc Cv2Error, rejected_at_first_frame env "out.mp4").
Proof.
  intros env. split.
  - exact (proj2 (proj2 (@rejected_frame_aborts_the_run
                           exact_arithmetic env
                           {| native_fps := 30; frames := [Demo.flat 36 64] |}
                           "in.mp4" "out.mp4" 0 0 12 true true (Demo.flat 36 64) []
                           eq_refl eq_refl eq_refl))).
  - apply (proj1 (proj2 (@rejected_frame_aborts_the_run
                           exact_arithmetic env
                           {| native_fps := 30; frames := [Demo.flat 36 64] |}
                           "in.mp4" "out.mp4" (-3) 0 12 false true (Demo.flat 36 64) []
                           eq_refl eq_refl eq_refl))).
    vm_compute. reflexivity.
Defined.


Lemma sampler_rejects_witness :
  @frame_to_ascii_lines exact_arithmetic Demo.nearest (flat_gray 36 64) 0 (43 # 100)
                        ASCII_CHARS = Raise ZeroDivisionError
  /\ @frame_to_ascii_lines exact_arithmetic Demo.nearest (flat_gray 36 64) 40 0
                           ASCII_CHARS = Raise ZeroDivisionError
  /\ @frame_to_ascii_lines exact_arithmetic Demo.nearest (flat_gray 36 0) 40 (43 # 100)
                           ASCII_CHARS = Raise ZeroDivisionError
  /\ @frame_to_ascii_lines exact_arithmetic Demo.nearest (flat_gray 36 64) (-40) (43 # 100)
                           ASCII_CHARS = Raise Cv2Error.
Proof.
  split; [|split; [|split]].
  - exact (proj1 (@sampler_rejects exact_arithmetic Demo.nearest (flat_gray 36 64)
                                   (43 # 100) ASCII_CHARS)).
  - apply (proj1 (proj2 (@sampler_rejects exact_arithmetic Demo.nearest (flat_gray 36 64)
                                          0 ASCII_CHARS)));
      [lia | reflexivity].
  - apply (proj1 (proj2 (proj2 (@sampler_rejects exact_arithmetic Demo.nearest
                                                 (flat_gray 36 0) (43 # 100) ASCII_CHARS))));
      [lia | discriminate | reflexivity].
  - apply (proj2 (proj2 (proj2 (@sampler_rejects exact_arithmetic Demo.nearest
                                                 (flat_gray 36 64) (43 # 100) ASCII_CHARS))));
      [lia | reflexivity | simpl; lia | simpl; lia].
Defined.

Lemma renderer_draws_inside_witness :
  exists img,
    render_ascii_to_image ["ab"; "c"] Demo.font black white default_padding = Ok img
    /\ nth_error (im_text img) 1
       = Some {| dt_xy := (6, 15); dt_text := "c"; dt_font := Demo.font; dt_fill := white |}
    /\ im_size img = (26, 30).
Proof.
  destruct (render_ok ["ab"; "c"] Demo.font black white default_padding ltac:(discriminate))
    as (img & E & Hsz & _).
  exists img. split; [exact E|].
  destruct (renderer_draws_inside ["ab"; "c"] Demo.font black white default_padding img
                                  ltac:(discriminate) E) as (_ & _ & H).
  destruct (H 1%nat "c" eq_refl) as (H1 & _).
  split; [exact H1|]. rewrite Hsz. reflexivity.
Defined.

Lemma effective_fps_positive_witness :
  @effective_fps 0 30 = 30%Q /\ @effective_fps 0 0 = 24%Q /\ @effective_fps 12 30 = 12%Q.
Proof.
  split; [|split].
  - apply (proj1 (proj2 (@effective_fps_positive exact_arithmetic 0 30)));
      [discriminate | reflexivity].
  - apply (proj1 (proj2 (proj2 (@effective_fps_positive exact_arithmetic 0 0))));
      discriminate.
  - apply (proj1 (@effective_fps_positive exact_arithmetic 12 30)). reflexivity.
Defined.

Lemma empty_clip_reports_done_witness :
  let env := Demo.world [] (fun _ _ => true) Demo.silent None in
  exists s,
    @convert_video exact_arithmetic env "in.mp4" "out.mp4" 40 0 12 true false = (Val tt, s)
    /\ st_writer s = None
    /\ st_events s = [done "out.mp4"].
Proof.
  intros env.
  destruct (@empty_clip_reports_done exact_arithmetic env
              {| native_fps := 30; frames := [] |}
              "in.mp4" "out.mp4" 40 0 12 false eq_refl eq_refl eq_refl)
    as (o & s & more & E & _ & Hw & _ & _ & He & Hm).
  destruct (Hm eq_refl) as [-> ->].
  exists s. split; [exact E|]. split; [exact Hw|]. exact He.
Defined.
